(** * TronDashboard screenshot analyzer: a shallow embedding

    Source: [TronDashboard/analyze_screenshot.py].

    Numbers.  The program computes on numpy floats.  Here every finite
    float is an exact rational ([Q]); comparisons, sums, products and
    quotients are the exact ones, so rounding error is not represented.
    A value that numpy reports as [nan] (the mean or the standard
    deviation of an empty slice) is [None] of [npfloat], and a comparison
    with it is false, as in IEEE arithmetic.

    Two computations are also given with the rounding the program has:
    the luminance transform in float32 ([brightness_f32]) and the slice
    bounds [int(n * f)] in double precision ([int_times]); [Fp.round] is
    rounding to the nearest float, ties to even.

    Arrays.  A 2-D array is a list of rows, a 3-D pixel buffer a list of
    rows of pixels, a pixel the list of its channels.

    Exceptions.  Fallible numpy and indexing operations return a
    [result]; [Raise] carries the Python exception class. *)

From Stdlib Require Import String.
From Stdlib Require Import List ZArith QArith Qround Qminmax Qabs Qpower Bool.
From Stdlib Require Import Lia Lqa Sorted.
From Stdlib Require OrderedTypeEx.
Import ListNotations.

Open Scope Q_scope.

(** ** Python exceptions as an error monad *)

Inductive PyError : Type :=
| IndexError
| ValueError.

Inductive result (A : Type) : Type :=
| Ok (a : A)
| Raise (e : PyError).

Arguments Ok {A} a.
Arguments Raise {A} e.

Definition bind {A B : Type} (c : result A) (k : A -> result B) : result B :=
  match c with
  | Ok a => k a
  | Raise e => Raise e
  end.

Notation "x <- c ;; k" := (bind c (fun x => k))
  (at level 61, c at next level, right associativity).

Fixpoint mapM {A B : Type} (f : A -> result B) (l : list A) : result (list B) :=
  match l with
  | [] => Ok []
  | x :: t => y <- f x ;; ys <- mapM f t ;; Ok (y :: ys)
  end.

Fixpoint foldM {A S : Type} (f : S -> A -> result S) (l : list A) (s : S)
  : result S :=
  match l with
  | [] => Ok s
  | x :: t => s' <- f s x ;; foldM f t s'
  end.

(** [l[i]] for a non-negative index. *)
Definition getitem {A : Type} (l : list A) (i : nat) : result A :=
  match nth_error l i with
  | Some x => Ok x
  | None => Raise IndexError
  end.

(** [l[a:b]]: slices clamp to the length and are empty when [b <= a]. *)
Definition slice {A : Type} (a b : nat) (l : list A) : list A :=
  firstn (b - a) (skipn a l).

(** [int(q)] truncates toward zero; every argument in this program is
    non-negative, where truncation is the floor. *)
Definition py_int (q : Q) : nat := Z.to_nat (Qfloor q).

Definition Qltb (a b : Q) : bool := negb (Qle_bool b a).
Definition Qgtb (a b : Q) : bool := Qltb b a.
Definition Qgeb (a b : Q) : bool := Qle_bool b a.

Definition nat2Q (n : nat) : Q := inject_Z (Z.of_nat n).

(** ** numpy *)

Module Np.

(** A float that may be [nan]. *)
Definition npfloat : Type := option Q.
Definition NaN : npfloat := None.

Definition scale (x : npfloat) (k : Q) : npfloat :=
  option_map (fun v => v * k) x.

(** [x > c] and [x < c]: false on [nan]. *)
Definition gt (x : npfloat) (c : Q) : bool :=
  match x with Some v => Qgtb v c | None => false end.
Definition lt (x : npfloat) (c : Q) : bool :=
  match x with Some v => Qltb v c | None => false end.

(** [arr.size] of a 2-D array and its flattening. *)
Definition ravel {A : Type} (m : list (list A)) : list A := concat m.
Definition size {A : Type} (m : list (list A)) : nat := length (ravel m).

(** [arr.shape] of a 2-D array. *)
Definition shape {A : Type} (m : list (list A)) : nat * nat :=
  (length m, length (hd [] m)).

(** [np.sum(mask)] for a boolean mask given by its predicate. *)
Definition count {A : Type} (p : A -> bool) (l : list A) : nat :=
  length (filter p l).

Definition sum (l : list Q) : Q := fold_right Qplus 0 l.

(** [np.mean]: [nan] (with a warning) on an empty array. *)
Definition mean (l : list Q) : npfloat :=
  match l with
  | [] => NaN
  | _ => Some (sum l / nat2Q (length l))
  end.

Fixpoint insert (x : Q) (l : list Q) : list Q :=
  match l with
  | [] => [x]
  | y :: t => if Qle_bool x y then x :: l else y :: insert x t
  end.

Definition sort (l : list Q) : list Q := fold_right insert [] l.

(** [np.percentile(arr, q)] with the default linear interpolation:
    position [q/100 * (n-1)] in the sorted data, interpolated between
    its two neighbours.  An empty array raises [IndexError] (numpy 1.22
    and later; earlier versions return [nan]). *)
Definition percentile (l : list Q) (q : Q) : result Q :=
  match l with
  | [] => Raise IndexError
  | _ =>
      let s := sort l in
      let n := length l in
      let pos := q / 100 * nat2Q (n - 1) in
      let lo := py_int pos in
      let hi := Nat.min (lo + 1) (n - 1) in
      let gamma := pos - nat2Q lo in
      let a := nth lo s 0 in
      let b := nth hi s 0 in
      Ok (a + (b - a) * gamma)
  end.

(** [np.median]: the middle of the sorted data, [nan] when empty. *)
Definition median (l : list Q) : npfloat :=
  match l with
  | [] => NaN
  | _ =>
      let s := sort l in
      let n := length l in
      if Nat.even n
      then Some ((nth (n / 2 - 1) s 0 + nth (n / 2) s 0) / 2)
      else Some (nth (n / 2) s 0)
  end.

(** [np.max]: raises [ValueError] on an empty array. *)
Definition max (l : list Q) : result Q :=
  match l with
  | [] => Raise ValueError
  | x :: t => Ok (fold_left Qmax t x)
  end.

(** Square root.  A rational has no rational root in general: [sqrt]
    is the root truncated to 52 binary places ([sqrt_spec] below). *)
Definition sqrt_scale : positive := 2 ^ 52.

Definition sqrt (x : Q) : Q :=
  Z.sqrt (Qfloor (x * inject_Z (Zpos (sqrt_scale * sqrt_scale))))
  # sqrt_scale.

(** [np.std] with the default [ddof=0]: the root of the mean squared
    deviation from the mean; [nan] on an empty array. *)
Definition std (l : list Q) : npfloat :=
  match mean l with
  | None => NaN
  | Some m =>
      let dev2 := map (fun x => (x - m) * (x - m)) l in
      Some (sqrt (sum dev2 / nat2Q (length l)))
  end.

(** [np.diff] of a 1-D integer array. *)
Fixpoint diff (l : list Z) : list Z :=
  match l with
  | a :: ((b :: _) as t) => (b - a)%Z :: diff t
  | _ => []
  end.

End Np.

(** ** Binary floating point

    [round prec emin x] is the number nearest to [x] in the binary
    format of [prec] significant bits whose least normal exponent is
    [emin], ties going to the even significand; below [2^emin] the
    spacing stays that of the least binade (subnormal numbers).
    Overflow is not represented: no value of the program comes near the
    largest float. *)

Module Fp.

Definition pow2 (e : Z) : Q := 2 ^ e.

(** Nearest integer, ties to even. *)
Definition rne (y : Q) : Z :=
  let f := Qfloor y in
  match Qcompare (y - inject_Z f) (1 # 2) with
  | Lt => f
  | Gt => (f + 1)%Z
  | Eq => if Z.even f then f else (f + 1)%Z
  end.

(** For [0 < x], the [e] with [2^e <= x < 2^(e+1)]. *)
Definition exponent (x : Q) : Z :=
  let e0 := (Z.log2 (Qnum x) - Z.log2 (Z.pos (Qden x)))%Z in
  if Qle_bool (pow2 e0) x then e0 else (e0 - 1)%Z.

(** The spacing of the floats around [a > 0]. *)
Definition quantum (prec emin : Z) (a : Q) : Q :=
  pow2 (Z.max (exponent a) emin - (prec - 1)).

Definition round (prec emin : Z) (x : Q) : Q :=
  if Qeq_bool x 0 then 0
  else
    let a := Qabs x in
    let q := quantum prec emin a in
    let m := inject_Z (rne (a / q)) * q in
    if Qle_bool 0 x then m else - m.

End Fp.

(** numpy's [float32] and Python's [float]. *)
Definition f32 : Q -> Q := Fp.round 24 (-126).
Definition f64 : Q -> Q := Fp.round 53 (-1022).

(** ** Data model *)

Definition Pixel : Type := list Q.
Definition PixelBuffer : Type := list (list Pixel).
Definition LuminanceMap : Type := list (list Q).

(** [pixels[..., k]] *)
Definition channel (k : nat) (pixels : PixelBuffer) : result (list (list Q)) :=
  mapM (mapM (fun px : Pixel => getitem px k)) pixels.

(** Elementwise combination of equally shaped 2-D arrays. *)
Definition zip3 {A : Type} (f : Q -> Q -> Q -> A)
  (r g b : list (list Q)) : list (list A) :=
  map (fun rgb : list Q * list Q * list Q =>
         let '(rr, gr, br) := rgb in
         map (fun t : Q * Q * Q => let '(x, y, z) := t in f x y z)
             (combine (combine rr gr) br))
      (combine (combine r g) b).

Definition luma (r g b : Q) : Q := 0.2126 * r + 0.7152 * g + 0.0722 * b.

Definition brightness (pixels : PixelBuffer) : result LuminanceMap :=
  r <- channel 0 pixels ;;
  g <- channel 1 pixels ;;
  b <- channel 2 pixels ;;
  Ok (zip3 luma r g b).

(** [brightness] with the arithmetic of the source.  The pixel buffer is
    a [float32] array, so numpy takes each weight to [float32] and
    rounds each product and each sum, from left to right, to
    [float32]. *)
Definition luma_f32 (r g b : Q) : Q :=
  f32 (f32 (f32 (f32 0.2126 * r) + f32 (f32 0.7152 * g))
       + f32 (f32 0.0722 * b)).

Definition brightness_f32 (pixels : PixelBuffer) : result LuminanceMap :=
  r <- channel 0 pixels ;;
  g <- channel 1 pixels ;;
  b <- channel 2 pixels ;;
  Ok (zip3 luma_f32 r g b).

Record DistributionReport : Type := {
  black : Q;
  very_dark : Q;
  dark : Q;
  mid : Q;
  bright : Q;
  hot : Q;
  dist_mean : Np.npfloat;
  dist_median : Np.npfloat;
  p95 : Q;
  p99 : Q;
  dist_max : Q
}.

(** [np.sum(mask) / total * 100] *)
Definition pct (c total : nat) : Q := nat2Q c / nat2Q total * 100.

(** The six band masks of [analyze_brightness_distribution]. *)
Definition is_black (v : Q) : bool := Qltb v 0.02.
Definition is_vdark (v : Q) : bool := Qgeb v 0.02 && Qltb v 0.06.
Definition is_dark (v : Q) : bool := Qgeb v 0.06 && Qltb v 0.15.
Definition is_mid (v : Q) : bool := Qgeb v 0.15 && Qltb v 0.40.
Definition is_bright (v : Q) : bool := Qgeb v 0.40 && Qltb v 0.70.
Definition is_hot (v : Q) : bool := Qgeb v 0.70.

(** On an empty map the percentages are [nan] in numpy ([0/0]); they are
    never observed, since [np.percentile] raises before the dictionary is
    returned. *)
Definition analyze_brightness_distribution (brt : LuminanceMap)
  : result DistributionReport :=
  let px := Np.ravel brt in
  let total := Np.size brt in
  let black := pct (Np.count is_black px) total in
  let vdark := pct (Np.count is_vdark px) total in
  let dark := pct (Np.count is_dark px) total in
  let mid := pct (Np.count is_mid px) total in
  let bright := pct (Np.count is_bright px) total in
  let hot := pct (Np.count is_hot px) total in
  let mean := Np.scale (Np.mean px) 100 in
  let median := Np.scale (Np.median px) 100 in
  p95 <- Np.percentile px 95 ;;
  p99 <- Np.percentile px 99 ;;
  mx <- Np.max px ;;
  Ok {| black := black; very_dark := vdark; dark := dark; mid := mid;
        bright := bright; hot := hot;
        dist_mean := mean; dist_median := median;
        p95 := p95 * 100; p99 := p99 * 100; dist_max := mx * 100 |}.

(** ** Grid line detector *)

(** [arr > threshold], [.astype(int)], [np.diff], [np.sum(edges == 1)]. *)
Definition count_peaks (arr : list Q) (threshold : Q) : nat :=
  let above := map (fun v => Qgtb v threshold) arr in
  let edges := Np.diff (map (fun b : bool => if b then 1%Z else 0%Z) above) in
  Np.count (fun e => Z.eqb e 1) edges.

Record ScanLineResult : Type := {
  floor_brightness : Q;
  line_brightness : Q;
  contrast_ratio : Q;
  peak_count : nat
}.

(** A Python dictionary with string keys, in insertion order. *)
Definition Dict (V : Type) : Type := list (string * V).

Fixpoint dict_set {V : Type} (k : string) (v : V) (d : Dict V) : Dict V :=
  match d with
  | [] => [(k, v)]
  | (k', v') :: t =>
      if String.eqb k k' then (k, v) :: t else (k', v') :: dict_set k v t
  end.

Definition values {V : Type} (d : Dict V) : list V := map snd d.

(** The body shared by the two loops of [analyze_grid_lines], applied to
    the extracted row or column. *)
Definition scan_line (seq : list Q) : result ScanLineResult :=
  floor_level <- Np.percentile seq 20 ;;
  line_level <- Np.percentile seq 90 ;;
  let floor_level := if Qltb floor_level 0.001 then 0.001 else floor_level in
  let contrast := line_level / floor_level in
  let peak_count :=
    count_peaks seq (floor_level + (line_level - floor_level) * 0.3) in
  Ok {| floor_brightness := floor_level * 100;
        line_brightness := line_level * 100;
        contrast_ratio := contrast;
        peak_count := peak_count |}.

Definition h_scans : list (string * Q) :=
  [("h_40%"%string, 0.40); ("h_45%"%string, 0.45); ("h_50%"%string, 0.50);
   ("h_55%"%string, 0.55); ("h_60%"%string, 0.60)].

Definition v_scans : list (string * Q) :=
  [("v_40%"%string, 0.40); ("v_50%"%string, 0.50); ("v_60%"%string, 0.60)].

(** [brt[y, :]] and [brt[:, x]] *)
Definition row_at (brt : LuminanceMap) (y : nat) : result (list Q) :=
  getitem brt y.
Definition col_at (brt : LuminanceMap) (x : nat) : result (list Q) :=
  mapM (fun r => getitem r x) brt.

Definition analyze_grid_lines (img : PixelBuffer) (brt : LuminanceMap)
  : result (Dict ScanLineResult) :=
  let '(h, w) := Np.shape brt in
  results <-
    foldM (fun results (s : string * Q) =>
             let '(name, y_frac) := s in
             let y := py_int (y_frac * nat2Q h) in
             row <- row_at brt y ;;
             r <- scan_line row ;;
             Ok (dict_set name r results))
          h_scans [] ;;
  foldM (fun results (s : string * Q) =>
           let '(name, x_frac) := s in
           let x := py_int (x_frac * nat2Q w) in
           col <- col_at brt x ;;
           r <- scan_line col ;;
           Ok (dict_set name r results))
        v_scans results.

(** ** Color classifier *)

Definition is_cyan (r g b : Q) : bool :=
  Qgtb g 0.1 && Qgtb b 0.1 && Qltb r (g * 0.3).
Definition is_warm (r g b : Q) : bool :=
  Qgtb r 0.1 && Qgtb r (g * 1.5) && Qgtb r (b * 1.5).
Definition is_purple (r g b : Q) : bool :=
  Qgtb r 0.1 && Qgtb b 0.1 && Qltb g (r * 0.5).
Definition is_green (r g b : Q) : bool :=
  Qgtb g 0.1 && Qgtb g (r * 2) && Qgtb g (b * 1.5).
Definition is_white (r g b : Q) : bool :=
  Qgtb r 0.5 && Qgtb g 0.5 && Qgtb b 0.5.

Record ColorReport : Type := {
  cyan_teal : Q;
  warm_red_orange : Q;
  purple_magenta : Q;
  green : Q;
  white_hot : Q
}.

(** [np.sum(mask) / mask.size * 100] *)
Definition mask_pct (mask : list (list bool)) : Q :=
  pct (Np.count (fun b : bool => b) (Np.ravel mask)) (Np.size mask).

Definition analyze_color_channels (img : PixelBuffer) : result ColorReport :=
  r <- channel 0 img ;;
  g <- channel 1 img ;;
  b <- channel 2 img ;;
  Ok {| cyan_teal := mask_pct (zip3 is_cyan r g b);
        warm_red_orange := mask_pct (zip3 is_warm r g b);
        purple_magenta := mask_pct (zip3 is_purple r g b);
        green := mask_pct (zip3 is_green r g b);
        white_hot := mask_pct (zip3 is_white r g b) |}.

(** ** Region sampler *)

(** [brt[r0:r1, c0:c1]], flattened. *)
Definition region (r0 r1 c0 c1 : nat) (brt : LuminanceMap) : list Q :=
  Np.ravel (map (slice c0 c1) (slice r0 r1 brt)).

Record RegionReport : Type := {
  center_mean : Np.npfloat;
  center_p95 : Q;
  bottom_mean : Np.npfloat;
  bottom_p95 : Q;
  top_mean : Np.npfloat;
  top_p95 : Q;
  left_mean : Np.npfloat;
  right_mean : Np.npfloat
}.

Definition frac_of (n : nat) (f : Q) : nat := py_int (nat2Q n * f).

Definition analyze_regions (brt : LuminanceMap) : result RegionReport :=
  let '(h, w) := Np.shape brt in
  let center :=
    region (frac_of h 0.3) (frac_of h 0.7) (frac_of w 0.3) (frac_of w 0.7) brt in
  let center_mean := Np.scale (Np.mean center) 100 in
  center_p95 <- Np.percentile center 95 ;;
  let bottom :=
    region (frac_of h 0.6) (frac_of h 0.9) (frac_of w 0.2) (frac_of w 0.8) brt in
  let bottom_mean := Np.scale (Np.mean bottom) 100 in
  bottom_p95 <- Np.percentile bottom 95 ;;
  let top :=
    region (frac_of h 0.1) (frac_of h 0.3) (frac_of w 0.2) (frac_of w 0.8) brt in
  let top_mean := Np.scale (Np.mean top) 100 in
  top_p95 <- Np.percentile top 95 ;;
  let left :=
    region (frac_of h 0.3) (frac_of h 0.7) 0 (frac_of w 0.15) brt in
  let left_mean := Np.scale (Np.mean left) 100 in
  let right :=
    Np.ravel (map (skipn (frac_of w 0.85))
                  (slice (frac_of h 0.3) (frac_of h 0.7) brt)) in
  let right_mean := Np.scale (Np.mean right) 100 in
  Ok {| center_mean := center_mean;
        center_p95 := center_p95 * 100;
        bottom_mean := bottom_mean;
        bottom_p95 := bottom_p95 * 100;
        top_mean := top_mean;
        top_p95 := top_p95 * 100;
        left_mean := left_mean;
        right_mean := right_mean |}.

(** [int(n * f)] as Python computes it: the integer [n] and the literal
    [f] are taken to doubles, their product is rounded to a double and
    then truncated. *)
Definition int_times (n : nat) (f : Q) : nat :=
  py_int (f64 (f64 (nat2Q n) * f64 f)).

(** The region sampler over an index function [ix n f] for
    [int(n * f)].  [analyze_regions] is the instance at [frac_of], the
    exact floor; [analyze_regions_f64] is the one at [int_times]. *)
Definition regions_with (ix : nat -> Q -> nat) (brt : LuminanceMap)
  : result RegionReport :=
  let '(h, w) := Np.shape brt in
  let center :=
    region (ix h 0.3) (ix h 0.7) (ix w 0.3) (ix w 0.7) brt in
  let center_mean := Np.scale (Np.mean center) 100 in
  center_p95 <- Np.percentile center 95 ;;
  let bottom :=
    region (ix h 0.6) (ix h 0.9) (ix w 0.2) (ix w 0.8) brt in
  let bottom_mean := Np.scale (Np.mean bottom) 100 in
  bottom_p95 <- Np.percentile bottom 95 ;;
  let top :=
    region (ix h 0.1) (ix h 0.3) (ix w 0.2) (ix w 0.8) brt in
  let top_mean := Np.scale (Np.mean top) 100 in
  top_p95 <- Np.percentile top 95 ;;
  let left :=
    region (ix h 0.3) (ix h 0.7) 0 (ix w 0.15) brt in
  let left_mean := Np.scale (Np.mean left) 100 in
  let right :=
    Np.ravel (map (skipn (ix w 0.85))
                  (slice (ix h 0.3) (ix h 0.7) brt)) in
  let right_mean := Np.scale (Np.mean right) 100 in
  Ok {| center_mean := center_mean;
        center_p95 := center_p95 * 100;
        bottom_mean := bottom_mean;
        bottom_p95 := bottom_p95 * 100;
        top_mean := top_mean;
        top_p95 := top_p95 * 100;
        left_mean := left_mean;
        right_mean := right_mean |}.

Definition analyze_regions_f64 : LuminanceMap -> result RegionReport :=
  regions_with int_times.

(** ** Reflection estimator *)

Record ReflectionReport : Type := {
  floor_brightness_std : Np.npfloat;
  floor_max_brightness : Q;
  floor_has_variation : string
}.

Definition analyze_reflection_quality (img : PixelBuffer) (brt : LuminanceMap)
  : result ReflectionReport :=
  let '(h, w) := Np.shape brt in
  let floor :=
    region (frac_of h 0.6) (frac_of h 0.8) (frac_of w 0.2) (frac_of w 0.8) brt in
  let floor_std := Np.scale (Np.std floor) 100 in
  floor_max <- Np.max floor ;;
  Ok {| floor_brightness_std := floor_std;
        floor_max_brightness := floor_max * 100;
        floor_has_variation :=
          if Np.gt floor_std 3.0 then "YES"%string
          else if Np.gt floor_std 1.0 then "WEAK"%string
          else "NO"%string |}.

(** ** Report synthesizer *)

Definition EXCELLENT : string :=
  "EXCELLENT — grid lines are clearly visible with strong contrast".
Definition GOOD : string :=
  "GOOD — grid lines visible but could be stronger".
Definition WEAK : string :=
  "WEAK — grid lines barely distinguishable from floor".
Definition INVISIBLE : string :=
  "INVISIBLE — grid lines cannot be detected above floor noise".

Definition TOO_DARK : string :=
  "TOO DARK: >70% of pixels are true black — emission values need to go up".
Definition NO_GRID_FLOOR : string :=
  "NO GRID FLOOR: Almost no pixels in the grid-line brightness range (6-15%)".
Definition LOW_CONTRAST : string :=
  "LOW CONTRAST: Grid lines not distinguishable from floor".
Definition NO_CYAN : string :=
  "NO CYAN: Grid emissives not registering — emission multiplier too low".
Definition NO_SSR : string :=
  "NO SSR: Floor shows no brightness variation — reflections may not be working".
Definition BLOOM_OVERLOAD : string :=
  "BLOOM OVERLOAD: >15% of pixels are hot white — reduce emission or glow".

Definition NO_MAJOR_ISSUES : string := "  ✓ No major issues detected".

(** [if cond: issues.append(msg)] *)
Definition append_if (cond : bool) (msg : string) (issues : list string)
  : list string :=
  if cond then issues ++ [msg] else issues.

(** What [format_report] decides.  The source returns one joined text;
    the number formatting of the tables is presentation and is left out.
    Kept are the inputs the text shows, the two grid averages, the grid
    verdict, the issue list, and the lines of the closing assessment. *)
Record Report : Type := {
  rep_dims : nat * nat;
  rep_dist : DistributionReport;
  rep_grid : Dict ScanLineResult;
  rep_colors : ColorReport;
  rep_regions : RegionReport;
  rep_reflections : ReflectionReport;
  avg_contrast : Np.npfloat;
  avg_peaks : Np.npfloat;
  grid_verdict : string;
  issues : list string;
  assessment : list string
}.

Definition format_report (dist : DistributionReport)
  (grid : Dict ScanLineResult) (colors : ColorReport)
  (regions : RegionReport) (reflections : ReflectionReport)
  (dims : nat * nat) : Report :=
  let all_contrasts := map contrast_ratio (values grid) in
  let all_peaks := map peak_count (values grid) in
  let avg_contrast := Np.mean all_contrasts in
  let avg_peaks := Np.mean (map nat2Q all_peaks) in
  let grid_verdict :=
    if Np.gt avg_contrast 5.0 && Np.gt avg_peaks 3 then EXCELLENT
    else if Np.gt avg_contrast 3.0 && Np.gt avg_peaks 2 then GOOD
    else if Np.gt avg_contrast 1.5 then WEAK
    else INVISIBLE in
  let issues := [] in
  let issues := append_if (Qgtb (black dist) 70) TOO_DARK issues in
  let issues :=
    append_if (Qgtb (black dist) 50 && Qltb (dark dist) 5)
              NO_GRID_FLOOR issues in
  let issues := append_if (Np.lt avg_contrast 2.0) LOW_CONTRAST issues in
  let issues := append_if (Qltb (cyan_teal colors) 1.0) NO_CYAN issues in
  let issues :=
    append_if (String.eqb (floor_has_variation reflections) "NO")
              NO_SSR issues in
  let issues := append_if (Qgtb (hot dist) 15) BLOOM_OVERLOAD issues in
  let assessment :=
    match issues with
    | [] => [NO_MAJOR_ISSUES]
    | _ => map (fun issue => ("  ✗ " ++ issue)%string) issues
    end in
  {| rep_dims := dims; rep_dist := dist; rep_grid := grid;
     rep_colors := colors; rep_regions := regions;
     rep_reflections := reflections;
     avg_contrast := avg_contrast; avg_peaks := avg_peaks;
     grid_verdict := grid_verdict; issues := issues;
     assessment := assessment |}.

(** ** The pipeline

    [main] after the image is loaded: the loader and the command line
    are outside the model, [img] is the decoded buffer. *)
Definition main (img : PixelBuffer) : result Report :=
  brt <- brightness img ;;
  let dims := (List.length (hd [] img), List.length img) in
  dist <- analyze_brightness_distribution brt ;;
  grid <- analyze_grid_lines img brt ;;
  colors <- analyze_color_channels img ;;
  regions <- analyze_regions brt ;;
  reflections <- analyze_reflection_quality img brt ;;
  Ok (format_report dist grid colors regions reflections dims).

(** ** Choosing the screenshot

    The first part of the source's [main]: with a command line argument
    that argument is the path; without one the newest file of the
    [Screenshots] directory beside the script is looked for.  The file
    system is a parameter: [path_join] stands for [os.path.join],
    [script_dir] for [os.path.dirname(__file__)], [isdir] for the answer
    of [os.path.isdir] and [listing] for that of [os.listdir]. *)

(** What this part of [main] ends in: the path to analyse, or a return
    without analysis; each with the lines printed. *)
Inductive Selection : Type :=
| Analyze (path : string) (printed : list string)
| Return (printed : list string).

(** [s.endswith(suffix)]: some tail of [s] is [suffix]. *)
Fixpoint endswith (suffix s : string) : bool :=
  String.eqb s suffix ||
  match s with
  | EmptyString => false
  | String _ t => endswith suffix t
  end.

(** [sorted] on strings: ascending in the order of the code points. *)
Fixpoint insert_str (x : string) (l : list string) : list string :=
  match l with
  | [] => [x]
  | y :: t => if String.leb x y then x :: l else y :: insert_str x t
  end.

Definition sorted (l : list string) : list string :=
  fold_right insert_str [] l.

Definition select_screenshot (path_join : string -> string -> string)
  (argv : list string) (script_dir : string) (isdir : bool)
  (listing : list string) : Selection :=
  if (List.length argv <? 2)%nat then
    let ss_dir := path_join script_dir "Screenshots"%string in
    if isdir then
      let pngs := sorted (filter (endswith ".png") listing) in
      match pngs with
      | _ :: _ =>
          let path := path_join ss_dir (last pngs ""%string) in
          Analyze path [("Auto-detected: " ++ last pngs "")%string]
      | [] => Return ["No screenshots found in Screenshots/"%string]
      end
    else
      Return ["Usage: python analyze_screenshot.py <path_to_png>"%string]
  else
    Analyze (nth 1 argv ""%string) [].

(** * Vocabulary of the statements *)

(** ** Shapes and buffers *)

(** A 2-D array of shape [(h, w)]. *)
Definition rect {A : Type} (h w : nat) (m : list (list A)) : Prop :=
  List.length m = h /\ Forall (fun r => List.length r = w) m.

(** A validated PixelBuffer: [h] rows of [w] pixels of three channels,
    every channel in [0,1]. *)
Definition three_channels (img : PixelBuffer) : Prop :=
  Forall (Forall (fun px : Pixel => List.length px = 3%nat)) img.

Definition channels_in_unit (img : PixelBuffer) : Prop :=
  Forall (Forall (Forall (fun c : Q => 0 <= c <= 1))) img.

Definition valid_buffer (h w : nat) (img : PixelBuffer) : Prop :=
  rect h w img /\ three_channels img /\ channels_in_unit img.

(** The luminance of one pixel. *)
Definition luma_px (px : Pixel) : Q :=
  luma (nth 0 px 0) (nth 1 px 0) (nth 2 px 0).

(** The ways a buffer can be malformed. *)
Definition zero_pixels (img : PixelBuffer) : Prop := Np.size img = 0%nat.

Definition wrong_channel_count (img : PixelBuffer) : Prop :=
  exists px, In px (Np.ravel img) /\ List.length px <> 3%nat.

Definition too_few_channels (img : PixelBuffer) : Prop :=
  exists px, In px (Np.ravel img) /\ (List.length px < 3)%nat.

(** An all-black buffer: [h] by [w] pixels of three channels, all 0. *)
Definition all_black (h w : nat) (img : PixelBuffer) : Prop :=
  rect h w img /\ three_channels img /\
  Forall (Forall (Forall (fun c : Q => c == 0))) img.

(** ** Brightness bands *)

Definition b2n (b : bool) : nat := if b then 1 else 0.

(** The six bands as the specification words them, in order. *)
Inductive Band : Type := Black | VeryDark | Dark | Mid | Bright | Hot.

Definition in_band (b : Band) (v : Q) : Prop :=
  match b with
  | Black => 0 <= v < 0.02
  | VeryDark => 0.02 <= v < 0.06
  | Dark => 0.06 <= v < 0.15
  | Mid => 0.15 <= v < 0.40
  | Bright => 0.40 <= v < 0.70
  | Hot => 0.70 <= v <= 1
  end.

(** The mask the source counts for a band, and the entry it reports. *)
Definition band_mask (b : Band) : Q -> bool :=
  match b with
  | Black => is_black
  | VeryDark => is_vdark
  | Dark => is_dark
  | Mid => is_mid
  | Bright => is_bright
  | Hot => is_hot
  end.

Definition band_pct (b : Band) (d : DistributionReport) : Q :=
  match b with
  | Black => black d
  | VeryDark => very_dark d
  | Dark => dark d
  | Mid => mid d
  | Bright => bright d
  | Hot => hot d
  end.

(** ** Peaks and scan lines *)

(** A rising edge of [seq > t] at position [i]: [seq[i] <= t] and
    [seq[i+1] > t].  [rising_edges] counts the positions. *)
Definition rising_edge_at (seq : list Q) (t : Q) (i : nat) : bool :=
  Qle_bool (nth i seq 0) t && Qgtb (nth (S i) seq 0) t.

Definition rising_edges (seq : list Q) (t : Q) : nat :=
  List.length (filter (rising_edge_at seq t)
                      (List.seq 0 (List.length seq - 1))).

(** [a, b, a, b, ...] of length [n]. *)
Fixpoint alternating (a b : Q) (n : nat) : list Q :=
  match n with
  | O => []
  | S k => a :: alternating b a k
  end.

(** [r] is the result of scanning a row or a column of [brt]. *)
Definition scanned (brt : LuminanceMap) (r : ScanLineResult) : Prop :=
  exists seq,
    (In seq brt \/ exists x, col_at brt x = Ok seq) /\ scan_line seq = Ok r.

(** The keys of the dictionary [analyze_grid_lines] returns. *)
Definition scan_names : list string :=
  map fst h_scans ++ map fst v_scans.

(** What the clamp guarantees for the result [r] of scanning [seq]:
    with [fl] and [ll] the 20th and 90th percentile, the divisor is
    [max fl 0.001], it is at least 0.001, and [contrast_ratio] is the
    true quotient by it. *)
Definition clamped_scan (seq : list Q) (r : ScanLineResult) : Prop :=
  exists fl ll,
    Np.percentile seq 20 = Ok fl /\ Np.percentile seq 90 = Ok ll /\
    0.001 <= Qmax fl 0.001 /\
    (fl < 0.001 -> Qmax fl 0.001 == 0.001) /\
    floor_brightness r == Qmax fl 0.001 * 100 /\
    contrast_ratio r == ll / Qmax fl 0.001 /\
    contrast_ratio r * Qmax fl 0.001 == ll.

(** ** Verdict and issues *)

(** The verdict as the specification words it: a fixed ordered list of
    rules on the two averages, the first match wins, INVISIBLE when no
    rule matches. *)
Definition verdict_rules : list ((Q -> Q -> bool) * string) :=
  [ (fun c p => Qgtb c 5.0 && Qgtb p 3, EXCELLENT);
    (fun c p => Qgtb c 3.0 && Qgtb p 2, GOOD);
    (fun c _ => Qgtb c 1.5, WEAK) ].

Fixpoint first_match (rules : list ((Q -> Q -> bool) * string))
  (c p : Q) (otherwise : string) : string :=
  match rules with
  | [] => otherwise
  | (cond, v) :: t => if cond c p then v else first_match t c p otherwise
  end.

Definition spec_verdict (c p : Q) : string :=
  first_match verdict_rules c p INVISIBLE.

(** The six threshold conditions of the issue rules. *)
Definition too_dark_fires (dist : DistributionReport) : Prop :=
  70 < black dist.
Definition no_grid_floor_fires (dist : DistributionReport) : Prop :=
  50 < black dist /\ dark dist < 5.
Definition low_contrast_fires (avg : Np.npfloat) : Prop :=
  exists c, avg = Some c /\ c < 2.
Definition no_cyan_fires (colors : ColorReport) : Prop :=
  cyan_teal colors < 1.
Definition no_ssr_fires (reflections : ReflectionReport) : Prop :=
  floor_has_variation reflections = "NO"%string.
Definition bloom_overload_fires (dist : DistributionReport) : Prop :=
  15 < hot dist.

(** ** Statistics and sub-regions *)

(** Every entry equals [c]. *)
Definition uniform (c : Q) (l : list Q) : Prop := Forall (fun v => v == c) l.

(** A luminance map that is 0 everywhere. *)
Definition dark_map (brt : LuminanceMap) : Prop := Forall (uniform 0) brt.


(** [m] is attained in [l] and bounds it. *)
Definition is_max (m : Q) (l : list Q) : Prop :=
  (exists x, In x l /\ x == m) /\ (forall x, In x l -> x <= m).

(** The floor sub-region of the reflection estimator. *)
Definition floor_region (brt : LuminanceMap) : list Q :=
  let '(h, w) := Np.shape brt in
  region (frac_of h 0.6) (frac_of h 0.8) (frac_of w 0.2) (frac_of w 0.8) brt.

(** The entries at rows [r0 <= i < r1] and columns [c0 <= j < c1], row by
    row. *)
Definition entries (r0 r1 c0 c1 : nat) (brt : LuminanceMap) : list Q :=
  flat_map (fun i => map (fun j => nth j (nth i brt []) 0)
                         (List.seq c0 (c1 - c0)))
           (List.seq r0 (r1 - r0)).

(** ** Sample inputs *)

(** A 2 by 2 luminance map with a value in four different bands. *)
Definition two_tone : LuminanceMap := [[0; 0.5]; [0.1; 1]].

(** A 4 by 4 image of vertical stripes of luminance 0.05 and 0.20, its
    luminance map and its scan results. *)
Definition stripes : PixelBuffer :=
  repeat [[0.05; 0.05; 0.05]; [0.20; 0.20; 0.20];
          [0.05; 0.05; 0.05]; [0.20; 0.20; 0.20]] 4.

Definition stripes_brt : LuminanceMap := map (map luma_px) stripes.

Definition stripes_grid : Dict ScanLineResult :=
  Eval vm_compute in
    match analyze_grid_lines stripes stripes_brt with
    | Ok g => g
    | Raise _ => []
    end.

(** Analyzer outputs for the report synthesizer. *)
Definition sample_dist : DistributionReport :=
  {| black := 80; very_dark := 10; dark := 2; mid := 8; bright := 0;
     hot := 0; dist_mean := Some 3; dist_median := Some 1;
     p95 := 20; p99 := 30; dist_max := 35 |}.

Definition sample_colors : ColorReport :=
  {| cyan_teal := 4; warm_red_orange := 0; purple_magenta := 0;
     green := 0; white_hot := 0 |}.

Definition sample_regions : RegionReport :=
  {| center_mean := Some 3; center_p95 := 20; bottom_mean := Some 2;
     bottom_p95 := 10; top_mean := Some 1; top_p95 := 5;
     left_mean := None; right_mean := Some 1 |}.

Definition sample_reflections : ReflectionReport :=
  {| floor_brightness_std := Some 2; floor_max_brightness := 30;
     floor_has_variation := "WEAK" |}.

Definition sample_report : Report :=
  format_report sample_dist stripes_grid sample_colors sample_regions
                sample_reflections (4%nat, 4%nat).

(** The all-black buffer of [h] rows and [w] columns. *)
Definition black_img (h w : nat) : PixelBuffer :=
  repeat (repeat [0; 0; 0] w) h.

(** A 4 by 2 buffer with a fourth (alpha) channel. *)
Definition rgba_img : PixelBuffer :=
  repeat (repeat [0.9; 0.9; 0.9; 1] 2) 4.

(** An 8-bit colour as the loader stores it: each channel divided by
    255 in [float32]. *)
Definition rgb8 (r g b : Z) : Pixel :=
  [f32 (inject_Z r / 255); f32 (inject_Z g / 255); f32 (inject_Z b / 255)].

Definition azure : Pixel := rgb8 6 116 246.

(** ** Vocabulary of the further properties *)

(** Every channel of every pixel lies between [lo] and [hi]. *)
Definition channels_between (lo hi : Q) (img : PixelBuffer) : Prop :=
  Forall (Forall (Forall (fun c : Q => lo <= c <= hi))) img.

(** The five colour masks on a pixel. *)
Definition cyan_px (px : Pixel) : bool :=
  is_cyan (nth 0 px 0) (nth 1 px 0) (nth 2 px 0).
Definition warm_px (px : Pixel) : bool :=
  is_warm (nth 0 px 0) (nth 1 px 0) (nth 2 px 0).
Definition purple_px (px : Pixel) : bool :=
  is_purple (nth 0 px 0) (nth 1 px 0) (nth 2 px 0).
Definition green_px (px : Pixel) : bool :=
  is_green (nth 0 px 0) (nth 1 px 0) (nth 2 px 0).
Definition white_px (px : Pixel) : bool :=
  is_white (nth 0 px 0) (nth 1 px 0) (nth 2 px 0).

(** A 2 by 2 buffer with a cyan, a warm, a green and a white pixel. *)
Definition four_colors : PixelBuffer :=
  [[[0; 0.8; 0.8]; [0.9; 0.2; 0.1]]; [[0.1; 0.9; 0.2]; [1; 1; 1]]].


(** [l] is [l'] with some entries left out, the order kept. *)
Inductive subseq {A : Type} : list A -> list A -> Prop :=
| subseq_nil : subseq [] []
| subseq_skip (x : A) (l l' : list A) : subseq l l' -> subseq l (x :: l')
| subseq_take (x : A) (l l' : list A) :
    subseq l l' -> subseq (x :: l) (x :: l').

(** The six issue messages in the order of their rules. *)
Definition all_issues : list string :=
  [TOO_DARK; NO_GRID_FLOOR; LOW_CONTRAST; NO_CYAN; NO_SSR; BLOOM_OVERLOAD].


(** A buffer of [h] by [w] pixels that all equal [px]. *)
Definition flat_buffer (h w : nat) (px : Pixel) (img : PixelBuffer) : Prop :=
  rect h w img /\ Forall (Forall (fun p : Pixel => p = px)) img.

(** The white-hot 4 by 2 buffer. *)
Definition white_img : PixelBuffer := repeat (repeat [0.9; 0.9; 0.9] 2) 4.


(** A stand-in for [os.path.join] and a directory listing. *)
Definition slash_join (a b : string) : string := (a ++ "/" ++ b)%string.

Definition sample_listing : list string :=
  ["shot_002.png"; "notes.txt"; "shot_010.png"; "shot_001.png"]%string.

(** * Properties *)

(** ** Comparisons *)

Lemma Qltb_spec (a b : Q) : Qltb a b = true <-> a < b.
Proof.
  unfold Qltb. rewrite negb_true_iff.
  destruct (Qle_bool b a) eqn:E.
  - apply Qle_bool_iff in E. split; [discriminate | intro H; exfalso; lra].
  - split; [intros _ | reflexivity].
    destruct (Qlt_le_dec a b) as [H | H]; [exact H |].
    apply Qle_bool_iff in H. congruence.
Qed.

Lemma Qltb_false (a b : Q) : Qltb a b = false <-> b <= a.
Proof.
  unfold Qltb. rewrite negb_false_iff. apply Qle_bool_iff.
Qed.

Lemma Qgtb_spec (a b : Q) : Qgtb a b = true <-> b < a.
Proof. apply Qltb_spec. Qed.

Lemma Qgtb_false (a b : Q) : Qgtb a b = false <-> a <= b.
Proof. apply Qltb_false. Qed.

Lemma Qgeb_spec (a b : Q) : Qgeb a b = true <-> b <= a.
Proof. apply Qle_bool_iff. Qed.

Lemma Qgeb_false (a b : Q) : Qgeb a b = false <-> a < b.
Proof.
  unfold Qgeb. destruct (Qle_bool b a) eqn:E.
  - apply Qle_bool_iff in E. split; [discriminate | intro; exfalso; lra].
  - split; [intros _ | reflexivity].
    destruct (Qlt_le_dec a b) as [H | H]; [exact H |].
    apply Qle_bool_iff in H. congruence.
Qed.

(** Turns every boolean comparison of the context and the goal into its
    proposition. *)
Ltac qbool :=
  repeat match goal with
  | H : andb _ _ = true |- _ => apply andb_true_iff in H; destruct H
  | H : Qltb _ _ = true |- _ => apply Qltb_spec in H
  | H : Qltb _ _ = false |- _ => apply Qltb_false in H
  | H : Qgtb _ _ = true |- _ => apply Qgtb_spec in H
  | H : Qgtb _ _ = false |- _ => apply Qgtb_false in H
  | H : Qgeb _ _ = true |- _ => apply Qgeb_spec in H
  | H : Qgeb _ _ = false |- _ => apply Qgeb_false in H
  end.

Lemma nat2Q_pos (n : nat) : (0 < n)%nat -> 0 < nat2Q n.
Proof.
  intro H. unfold nat2Q, Qlt. simpl. lia.
Qed.

Lemma nat2Q_plus (a b : nat) : nat2Q (a + b) == nat2Q a + nat2Q b.
Proof.
  unfold nat2Q. rewrite Nat2Z.inj_add, inject_Z_plus. reflexivity.
Qed.

(** ** Brightness bands *)

(** The six masks of the source are a partition of the rationals. *)
Lemma band_masks_partition (v : Q) :
  (b2n (is_black v) + b2n (is_vdark v) + b2n (is_dark v)
   + b2n (is_mid v) + b2n (is_bright v) + b2n (is_hot v) = 1)%nat.
Proof.
  unfold is_black, is_vdark, is_dark, is_mid, is_bright, is_hot.
  destruct (Qltb v 0.02) eqn:E1, (Qgeb v 0.02) eqn:E2,
           (Qltb v 0.06) eqn:E3, (Qgeb v 0.06) eqn:E4,
           (Qltb v 0.15) eqn:E5, (Qgeb v 0.15) eqn:E6,
           (Qltb v 0.40) eqn:E7, (Qgeb v 0.40) eqn:E8,
           (Qltb v 0.70) eqn:E9, (Qgeb v 0.70) eqn:E10;
    try reflexivity; exfalso; qbool; lra.
Qed.

Lemma count_cons {A : Type} (p : A -> bool) (x : A) (l : list A) :
  Np.count p (x :: l) = (b2n (p x) + Np.count p l)%nat.
Proof.
  unfold Np.count. simpl. destruct (p x); reflexivity.
Qed.

Lemma band_counts_total (px : list Q) :
  (Np.count is_black px + Np.count is_vdark px + Np.count is_dark px
   + Np.count is_mid px + Np.count is_bright px + Np.count is_hot px
   = List.length px)%nat.
Proof.
  induction px as [| v t IH]; [reflexivity |].
  rewrite !count_cons. simpl List.length.
  pose proof (band_masks_partition v). lia.
Qed.

Lemma band_mask_in_band (b : Band) (v : Q) :
  0 <= v <= 1 -> (band_mask b v = true <-> in_band b v).
Proof.
  intros Hv.
  destruct b; simpl;
    unfold is_black, is_vdark, is_dark, is_mid, is_bright, is_hot;
    rewrite ?andb_true_iff, ?Qltb_spec, ?Qgeb_spec; intuition.
Qed.

Lemma in_band_unique (v : Q) :
  0 <= v <= 1 -> exists! b, in_band b v.
Proof.
  intros Hv.
  destruct (Qlt_le_dec v 0.02); [exists Black |
  destruct (Qlt_le_dec v 0.06); [exists VeryDark |
  destruct (Qlt_le_dec v 0.15); [exists Dark |
  destruct (Qlt_le_dec v 0.40); [exists Mid |
  destruct (Qlt_le_dec v 0.70); [exists Bright | exists Hot]]]]];
    (split; [simpl; lra | intros b' Hb'; destruct b'; simpl in Hb';
                          try reflexivity; exfalso; lra]).
Qed.

Lemma pct_sum6 (a b c d e f n : nat) :
  (0 < n)%nat -> (a + b + c + d + e + f = n)%nat ->
  pct a n + pct b n + pct c n + pct d n + pct e n + pct f n == 100.
Proof.
  intros Hn Hs. unfold pct.
  pose proof (nat2Q_pos n Hn) as Hp.
  assert (E : nat2Q a + nat2Q b + nat2Q c + nat2Q d + nat2Q e + nat2Q f
              == nat2Q n).
  { rewrite <- Hs. rewrite !nat2Q_plus. reflexivity. }
  field_simplify_eq; [| lra].
  rewrite <- E. ring.
Qed.

Lemma percentile_nonempty (l : list Q) (q : Q) :
  l <> [] -> exists v, Np.percentile l q = Ok v.
Proof.
  destruct l; [congruence |]. intros _. eexists. reflexivity.
Qed.

Lemma max_nonempty (l : list Q) :
  l <> [] -> exists v, Np.max l = Ok v.
Proof.
  destruct l; [congruence |]. intros _. eexists. reflexivity.
Qed.

(** C1. On a non-empty luminance map with values in [0,1] the analyzer
    returns a report; every pixel lies in exactly one of the six bands
    [0,0.02), [0.02,0.06), [0.06,0.15), [0.15,0.40), [0.40,0.70),
    [0.70,1.0]; the mask counted for a band selects exactly the pixels of
    that band; each reported entry is the share of its band in percent;
    and the six entries add up to 100. *)
Theorem brightness_bands_partition (brt : LuminanceMap) :
  (0 < Np.size brt)%nat ->
  (forall v, In v (Np.ravel brt) -> 0 <= v <= 1) ->
  exists d,
    analyze_brightness_distribution brt = Ok d /\
    (forall v, In v (Np.ravel brt) -> exists! b, in_band b v) /\
    (forall v b, In v (Np.ravel brt) ->
                 (band_mask b v = true <-> in_band b v)) /\
    (forall b, band_pct b d
               = pct (Np.count (band_mask b) (Np.ravel brt)) (Np.size brt)) /\
    black d + very_dark d + dark d + mid d + bright d + hot d == 100.
Proof.
  intros Hn Hr.
  assert (Hne : Np.ravel brt <> []).
  { unfold Np.size in Hn. destruct (Np.ravel brt); simpl in Hn; [lia | congruence]. }
  destruct (percentile_nonempty _ 95 Hne) as [v95 E95].
  destruct (percentile_nonempty _ 99 Hne) as [v99 E99].
  destruct (max_nonempty _ Hne) as [vm Em].
  unfold analyze_brightness_distribution.
  rewrite E95, E99, Em. simpl.
  eexists. split; [reflexivity |].
  split; [intros v Hv; apply in_band_unique, Hr, Hv |].
  split; [intros v b Hv; apply band_mask_in_band, Hr, Hv |].
  split; [intros b; destruct b; reflexivity |].
  simpl. apply pct_sum6; [exact Hn | apply band_counts_total].
Qed.

Lemma brightness_bands_partition_witness :
  exists d,
    analyze_brightness_distribution two_tone = Ok d /\
    (forall v, In v (Np.ravel two_tone) -> exists! b, in_band b v) /\
    (forall v b, In v (Np.ravel two_tone) ->
                 (band_mask b v = true <-> in_band b v)) /\
    (forall b, band_pct b d
               = pct (Np.count (band_mask b) (Np.ravel two_tone))
                     (Np.size two_tone)) /\
    black d + very_dark d + dark d + mid d + bright d + hot d == 100.
Proof.
  apply (brightness_bands_partition two_tone).
  - vm_compute. lia.
  - intros v Hv. simpl in Hv.
    destruct Hv as [<- | [<- | [<- | [<- | []]]]]; lra.
Defined.

(** ** Peak counting *)

Lemma count_peaks_cons2 (a b : Q) (l : list Q) (t : Q) :
  count_peaks (a :: b :: l) t
  = (b2n (Qle_bool a t && Qgtb b t) + count_peaks (b :: l) t)%nat.
Proof.
  unfold count_peaks. cbn [map Np.diff]. rewrite count_cons.
  f_equal. unfold Qgtb, Qltb.
  destruct (Qle_bool a t), (Qle_bool b t); reflexivity.
Qed.

Lemma rising_edges_cons2 (a b : Q) (l : list Q) (t : Q) :
  rising_edges (a :: b :: l) t
  = (b2n (Qle_bool a t && Qgtb b t) + rising_edges (b :: l) t)%nat.
Proof.
  unfold rising_edges. cbn [List.length]. rewrite !Nat.sub_succ, !Nat.sub_0_r.
  cbn [List.seq filter].
  replace (rising_edge_at (a :: b :: l) t 0) with (Qle_bool a t && Qgtb b t)
    by reflexivity.
  assert (E : List.length (filter (rising_edge_at (a :: b :: l) t)
                             (List.seq 1 (List.length l)))
              = List.length (filter (rising_edge_at (b :: l) t)
                               (List.seq 0 (List.length l)))).
  { rewrite <- seq_shift. generalize (List.seq 0 (List.length l)) as idx.
    induction idx as [| i idx IH]; [reflexivity |].
    cbn [map filter].
    replace (rising_edge_at (a :: b :: l) t (S i))
      with (rising_edge_at (b :: l) t i) by reflexivity.
    destruct (rising_edge_at (b :: l) t i); cbn [List.length]; congruence. }
  destruct (Qle_bool a t && Qgtb b t); cbn [List.length b2n]; rewrite E;
    reflexivity.
Qed.

Lemma count_peaks_constant (c : Q) (n : nat) (t : Q) :
  count_peaks (repeat c n) t = 0%nat.
Proof.
  induction n as [| n IH]; [reflexivity |].
  destruct n as [| n]; [reflexivity |].
  change (repeat c (S (S n))) with (c :: c :: repeat c n).
  rewrite count_peaks_cons2. change (c :: repeat c n) with (repeat c (S n)).
  rewrite IH. unfold Qgtb, Qltb. destruct (Qle_bool c t); reflexivity.
Qed.

Lemma count_peaks_alternating (lo hi t : Q) (n : nat) :
  lo <= t -> t < hi ->
  count_peaks (alternating lo hi n) t = (n / 2)%nat /\
  count_peaks (alternating hi lo n) t = ((n - 1) / 2)%nat.
Proof.
  intros Hlo Hhi.
  assert (Elo : Qle_bool lo t = true) by (apply Qle_bool_iff; exact Hlo).
  assert (Ehi : Qgtb hi t = true) by (apply Qgtb_spec; exact Hhi).
  assert (Ehi' : Qle_bool hi t = false).
  { unfold Qgtb, Qltb in Ehi. apply negb_true_iff in Ehi. exact Ehi. }
  induction n as [| n [IH1 IH2]]; [split; reflexivity |].
  destruct n as [| n]; [split; reflexivity |].
  split.
  - change (alternating lo hi (S (S n)))
      with (lo :: hi :: alternating lo hi n).
    rewrite count_peaks_cons2, Elo, Ehi.
    change (hi :: alternating lo hi n) with (alternating hi lo (S n)).
    rewrite IH2. cbn [b2n andb]. rewrite Nat.sub_succ, Nat.sub_0_r.
    assert (E : (S (S n) / 2 = n / 2 + 1)%nat).
    { replace (S (S n)) with (n + 1 * 2)%nat by lia.
      apply Nat.div_add. lia. }
    rewrite E. lia.
  - change (alternating hi lo (S (S n)))
      with (hi :: lo :: alternating hi lo n).
    rewrite count_peaks_cons2, Ehi'.
    change (lo :: alternating hi lo n) with (alternating lo hi (S n)).
    rewrite IH1. cbn [b2n andb]. rewrite Nat.sub_succ, Nat.sub_0_r.
    reflexivity.
Qed.

(** C3. [count_peaks] counts the positions [i] with [seq[i] <= t] and
    [seq[i+1] > t], once per rising edge; a constant sequence has no
    peak at any threshold; a sequence alternating low, high, low, ... of
    length [n], with [t] at or above the low value and strictly below
    the high one, has [n/2] (rounded down) peaks.  (Started on the high
    value instead, the alternation has [(n-1)/2] peaks, rounded down.) *)
Theorem count_peaks_rising_edges :
  (forall seq t, count_peaks seq t = rising_edges seq t) /\
  (forall c n t, count_peaks (repeat c n) t = 0%nat) /\
  (forall lo hi t n, lo <= t -> t < hi ->
     count_peaks (alternating lo hi n) t = (n / 2)%nat) /\
  (forall lo hi t n, lo <= t -> t < hi ->
     count_peaks (alternating hi lo n) t = ((n - 1) / 2)%nat).
Proof.
  split; [| split; [| split]].
  - intros seq t. induction seq as [| a l IH]; [reflexivity |].
    destruct l as [| b l]; [reflexivity |].
    rewrite count_peaks_cons2, rising_edges_cons2, IH. reflexivity.
  - apply count_peaks_constant.
  - intros lo hi t n Hlo Hhi.
    apply (count_peaks_alternating lo hi t n Hlo Hhi).
  - intros lo hi t n Hlo Hhi.
    apply (count_peaks_alternating lo hi t n Hlo Hhi).
Qed.

Lemma count_peaks_rising_edges_witness :
  count_peaks (alternating 0.05 0.20 7) 0.1 = 3%nat.
Proof.
  apply (proj1 (proj2 (proj2 count_peaks_rising_edges)) 0.05 0.20 0.1 7%nat).
  - unfold Qle. simpl. lia.
  - unfold Qlt. simpl. lia.
Defined.

(** ** Scan positions *)

Lemma py_int_frac (n d : positive) (k : nat) :
  py_int ((Zpos n # d) * nat2Q k) = Z.to_nat ((Zpos n * Z.of_nat k) / Zpos d).
Proof.
  unfold py_int, Qfloor, Qmult, nat2Q, inject_Z.
  cbn [Qnum Qden]. rewrite Pos.mul_1_r. reflexivity.
Qed.

Lemma py_int_frac_r (n d : positive) (k : nat) :
  py_int (nat2Q k * (Zpos n # d)) = Z.to_nat ((Zpos n * Z.of_nat k) / Zpos d).
Proof.
  unfold py_int, Qfloor, Qmult, nat2Q, inject_Z.
  cbn [Qnum Qden]. rewrite Z.mul_comm. reflexivity.
Qed.

Lemma frac_index_lt (n d : positive) (k : nat) :
  (n < d)%positive -> (1 <= k)%nat ->
  (py_int ((Zpos n # d) * nat2Q k) < k)%nat.
Proof.
  intros Hnd Hk. rewrite py_int_frac.
  assert (H : (Zpos n * Z.of_nat k / Zpos d < Z.of_nat k)%Z).
  { apply Z.div_lt_upper_bound; [lia |]. nia. }
  assert (H0 : (0 <= Zpos n * Z.of_nat k / Zpos d)%Z).
  { apply Z.div_pos; lia. }
  lia.
Qed.

Lemma h_scans_in_bounds (h : nat) (name : string) (f : Q) :
  (1 <= h)%nat -> In (name, f) h_scans ->
  (0 <= Qfloor (f * nat2Q h))%Z /\ (py_int (f * nat2Q h) < h)%nat.
Proof.
  intros Hh Hin. unfold h_scans in Hin. simpl in Hin.
  destruct Hin as [E | [E | [E | [E | [E | []]]]]]; inversion E; subst; clear E;
    (split; [| apply frac_index_lt; [reflexivity | exact Hh]]);
    unfold Qfloor, Qmult, nat2Q, inject_Z; cbn [Qnum Qden];
    apply Z.div_pos; lia.
Qed.

Lemma v_scans_in_bounds (w : nat) (name : string) (f : Q) :
  (1 <= w)%nat -> In (name, f) v_scans ->
  (0 <= Qfloor (f * nat2Q w))%Z /\ (py_int (f * nat2Q w) < w)%nat.
Proof.
  intros Hw Hin. unfold v_scans in Hin. simpl in Hin.
  destruct Hin as [E | [E | [E | []]]]; inversion E; subst; clear E;
    (split; [| apply frac_index_lt; [reflexivity | exact Hw]]);
    unfold Qfloor, Qmult, nat2Q, inject_Z; cbn [Qnum Qden];
    apply Z.div_pos; lia.
Qed.

Lemma getitem_in {A : Type} (l : list A) (i : nat) (x : A) :
  getitem l i = Ok x -> In x l.
Proof.
  unfold getitem. destruct (nth_error l i) eqn:E; [| discriminate].
  intro H. inversion H; subst. eapply nth_error_In, E.
Qed.

Lemma getitem_lt {A : Type} (l : list A) (i : nat) :
  (i < List.length l)%nat -> exists x, getitem l i = Ok x.
Proof.
  intro H. unfold getitem.
  destruct (nth_error l i) eqn:E; [eexists; reflexivity |].
  apply nth_error_None in E. lia.
Qed.

Ltac scan_step :=
  match goal with
  | H : context [bind (row_at ?b ?y) _] |- _ =>
      let row := fresh "row" in
      let Er := fresh "Er" in
      destruct (row_at b y) as [row |] eqn:Er; cbn [bind] in H;
      [| discriminate H];
      apply getitem_in in Er
  | H : context [bind (col_at ?b ?x) _] |- _ =>
      let col := fresh "col" in
      let Ec := fresh "Ec" in
      destruct (col_at b x) as [col |] eqn:Ec; cbn [bind] in H;
      [| discriminate H]
  | H : context [bind (scan_line ?s) _] |- _ =>
      let r := fresh "r" in
      let Es := fresh "Es" in
      destruct (scan_line s) as [r |] eqn:Es; cbn [bind] in H;
      [| discriminate H]
  end.

Lemma analyze_grid_lines_inv (img : PixelBuffer) (brt : LuminanceMap)
  (grid : Dict ScanLineResult) :
  analyze_grid_lines img brt = Ok grid ->
  map fst grid = scan_names /\
  forall name r, In (name, r) grid -> scanned brt r.
Proof.
  unfold analyze_grid_lines. destruct (Np.shape brt) as [h w].
  unfold h_scans, v_scans. cbn [foldM bind]. intro H.
  repeat scan_step.
  cbn in H. inversion H; subst; clear H.
  split; [reflexivity |].
  intros name res Hin. cbn [In] in Hin. unfold scanned.
  repeat (destruct Hin as [Hin | Hin];
          [inversion Hin; subst; eexists; split; [| eassumption]; eauto |]).
  destruct Hin.
Qed.

(** ** The clamped divisor *)

Lemma scan_line_ok (seq : list Q) :
  seq <> [] -> exists r, scan_line seq = Ok r.
Proof.
  intro Hne. unfold scan_line.
  destruct (percentile_nonempty seq 20 Hne) as [fl ->].
  destruct (percentile_nonempty seq 90 Hne) as [ll ->].
  cbn [bind]. eexists. reflexivity.
Qed.

Lemma scan_line_clamped (seq : list Q) (r : ScanLineResult) :
  scan_line seq = Ok r -> clamped_scan seq r.
Proof.
  unfold scan_line.
  destruct (Np.percentile seq 20) as [fl |] eqn:E20; [| discriminate].
  destruct (Np.percentile seq 90) as [ll |] eqn:E90; [| discriminate].
  cbn [bind]. intro H. inversion H; subst; clear H.
  exists fl, ll. cbn [floor_brightness contrast_ratio].
  destruct (Qltb fl 0.001) eqn:E; qbool.
  - assert (Em : Qmax fl 0.001 == 0.001) by (apply Q.max_r; lra).
    rewrite Em.
    split; [exact E20 |]. split; [exact E90 |]. split; [lra |].
    split; [reflexivity |]. split; [reflexivity |]. split; [reflexivity |].
    field.
  - assert (Em : Qmax fl 0.001 == fl) by (apply Q.max_l; lra).
    rewrite Em.
    split; [exact E20 |]. split; [exact E90 |]. split; [lra |].
    split; [intro; exfalso; lra |]. split; [reflexivity |].
    split; [reflexivity |].
    field. lra.
Qed.

(** C4. Scanning a non-empty line returns a result whose divisor is
    [max(floor_level, 0.001)]: a 20th percentile below 0.001 is replaced
    by 0.001, the divisor is never below 0.001 (so never zero), and
    [contrast_ratio] is the quotient of the 90th percentile by it.  The
    same holds of every entry [analyze_grid_lines] returns. *)
Theorem contrast_divisor_clamped :
  (forall seq, seq <> [] ->
     exists r, scan_line seq = Ok r /\ clamped_scan seq r) /\
  (forall img brt grid name r,
     analyze_grid_lines img brt = Ok grid -> In (name, r) grid ->
     exists seq, scan_line seq = Ok r /\ clamped_scan seq r).
Proof.
  split.
  - intros seq Hne. destruct (scan_line_ok seq Hne) as [r Hr].
    exists r. split; [exact Hr | apply scan_line_clamped, Hr].
  - intros img brt grid name r Hg Hin.
    destruct (analyze_grid_lines_inv img brt grid Hg) as [_ Hs].
    destruct (Hs name r Hin) as (seq & _ & Hseq).
    exists seq. split; [exact Hseq | apply scan_line_clamped, Hseq].
Qed.

Lemma contrast_divisor_clamped_witness :
  exists r, scan_line [0; 0.2] = Ok r /\ clamped_scan [0; 0.2] r.
Proof.
  apply (proj1 contrast_divisor_clamped [0; 0.2]). discriminate.
Defined.

(** ** Row and column extraction *)

Lemma rect_shape {A : Type} (h w : nat) (m : list (list A)) :
  rect h w m -> (1 <= h)%nat -> Np.shape m = (h, w).
Proof.
  intros [Hh Hw] H1. unfold Np.shape. rewrite Hh.
  destruct m as [| r m]; [simpl in Hh; lia |].
  inversion Hw; subst. reflexivity.
Qed.

Lemma row_at_rect (h w : nat) (brt : LuminanceMap) (y : nat) :
  rect h w brt -> (y < h)%nat ->
  exists row, row_at brt y = Ok row /\ In row brt /\ List.length row = w.
Proof.
  intros [Hh Hw] Hy. unfold row_at.
  destruct (getitem_lt brt y) as [row E]; [lia |].
  exists row. split; [exact E |].
  pose proof (getitem_in _ _ _ E) as Hin. split; [exact Hin |].
  rewrite Forall_forall in Hw. apply Hw, Hin.
Qed.

Lemma col_at_rect (h w : nat) (brt : LuminanceMap) (x : nat) :
  rect h w brt -> (x < w)%nat ->
  exists col, col_at brt x = Ok col /\ List.length col = h /\
              col = map (fun r => nth x r 0) brt.
Proof.
  intros [Hh Hw] Hx. subst h. unfold col_at.
  induction brt as [| r t IH].
  - exists []. repeat split.
  - inversion Hw as [| ? ? Hr Ht]; subst.
    destruct (IH Ht) as (col & E & L & M).
    cbn [mapM]. unfold getitem at 1.
    destruct (nth_error r x) as [v |] eqn:Ev.
    + cbn [bind]. rewrite E. cbn [bind].
      exists (v :: col). split; [reflexivity |]. split; [simpl; congruence |].
      cbn [map]. rewrite <- M. f_equal.
      symmetry. apply nth_error_nth with (d := 0) in Ev. exact Ev.
    + apply nth_error_None in Ev. lia.
Qed.

Lemma nonempty_length {A : Type} (l : list A) :
  (1 <= List.length l)%nat -> l <> [].
Proof.
  destruct l; simpl; [lia | discriminate].
Qed.

Lemma analyze_grid_lines_ok (img : PixelBuffer) (h w : nat)
  (brt : LuminanceMap) :
  rect h w brt -> (1 <= h)%nat -> (1 <= w)%nat ->
  exists grid, analyze_grid_lines img brt = Ok grid.
Proof.
  intros Hrect Hh Hw. unfold analyze_grid_lines.
  rewrite (rect_shape h w brt Hrect Hh).
  unfold h_scans, v_scans. cbn [foldM].
  repeat match goal with
  | |- context [bind (row_at brt ?y) _] =>
      let row := fresh "row" in
      let E := fresh "E" in
      let L := fresh "L" in
      let r := fresh "r" in
      let Er := fresh "Er" in
      destruct (row_at_rect h w brt y Hrect) as (row & E & _ & L);
      [apply frac_index_lt; [reflexivity | exact Hh] |];
      rewrite E; cbn [bind];
      destruct (scan_line_ok row) as [r Er];
      [apply nonempty_length; lia |];
      rewrite Er; cbn [bind]
  | |- context [bind (col_at brt ?x) _] =>
      let col := fresh "col" in
      let E := fresh "E" in
      let L := fresh "L" in
      let r := fresh "r" in
      let Er := fresh "Er" in
      destruct (col_at_rect h w brt x Hrect) as (col & E & L & _);
      [apply frac_index_lt; [reflexivity | exact Hw] |];
      rewrite E; cbn [bind];
      destruct (scan_line_ok col) as [r Er];
      [apply nonempty_length; lia |];
      rewrite Er; cbn [bind]
  end.
  eexists. reflexivity.
Qed.

(** C10. For an image of height [h >= 1] and width [w >= 1], every scan
    index [int(f*h)], [f] in 0.40, 0.45, 0.50, 0.55, 0.60, and
    [int(f*w)], [f] in 0.40, 0.50, 0.60, is at least 0 and strictly
    below its dimension; so on every [h] by [w] luminance map the grid
    line detector raises no [IndexError] and returns its eight entries. *)
Theorem scan_indices_in_bounds (h w : nat) :
  (1 <= h)%nat -> (1 <= w)%nat ->
  (forall name f, In (name, f) h_scans ->
     (0 <= Qfloor (f * nat2Q h))%Z /\ (py_int (f * nat2Q h) < h)%nat) /\
  (forall name f, In (name, f) v_scans ->
     (0 <= Qfloor (f * nat2Q w))%Z /\ (py_int (f * nat2Q w) < w)%nat) /\
  (forall img brt, rect h w brt ->
     exists grid, analyze_grid_lines img brt = Ok grid /\
                  map fst grid = scan_names).
Proof.
  intros Hh Hw. split; [| split].
  - intros name f Hin. exact (h_scans_in_bounds h name f Hh Hin).
  - intros name f Hin. exact (v_scans_in_bounds w name f Hw Hin).
  - intros img brt Hrect.
    destruct (analyze_grid_lines_ok img h w brt Hrect Hh Hw) as [grid Hg].
    exists grid. split; [exact Hg |].
    apply (analyze_grid_lines_inv img brt grid Hg).
Qed.

Lemma scan_indices_in_bounds_witness :
  (forall name f, In (name, f) h_scans ->
     (0 <= Qfloor (f * nat2Q 3))%Z /\ (py_int (f * nat2Q 3) < 3)%nat) /\
  (forall name f, In (name, f) v_scans ->
     (0 <= Qfloor (f * nat2Q 2))%Z /\ (py_int (f * nat2Q 2) < 2)%nat) /\
  (forall img brt, rect 3 2 brt ->
     exists grid, analyze_grid_lines img brt = Ok grid /\
                  map fst grid = scan_names).
Proof.
  apply (scan_indices_in_bounds 3 2); lia.
Defined.

(** ** Grid verdict *)

Lemma verdicts_distinct : NoDup [EXCELLENT; GOOD; WEAK; INVISIBLE].
Proof.
  repeat constructor; cbn [In]; intuition discriminate.
Qed.

Lemma mean_length (l : list Q) (n : nat) :
  List.length l = S n -> Np.mean l = Some (Np.sum l / nat2Q (S n)).
Proof.
  intro H. destruct l; [discriminate |]. unfold Np.mean. rewrite H.
  reflexivity.
Qed.

(** C5. On the eight scan results of the detector the report's verdict
    is decided by the two averages alone: the mean of the eight
    contrast ratios and the mean of the eight peak counts.  It is the
    first matching rule of EXCELLENT (contrast > 5 and peaks > 3), GOOD
    (contrast > 3 and peaks > 2), WEAK (contrast > 1.5), else INVISIBLE;
    the four verdicts are distinct, so exactly one is produced. *)
Theorem grid_verdict_rules (img : PixelBuffer) (brt : LuminanceMap)
  (grid : Dict ScanLineResult) (dist : DistributionReport)
  (colors : ColorReport) (regions : RegionReport)
  (reflections : ReflectionReport) (dims : nat * nat) :
  analyze_grid_lines img brt = Ok grid ->
  let rep := format_report dist grid colors regions reflections dims in
  let c := Np.sum (map contrast_ratio (values grid)) / nat2Q 8 in
  let p := Np.sum (map nat2Q (map peak_count (values grid))) / nat2Q 8 in
  List.length (values grid) = 8%nat /\
  avg_contrast rep = Some c /\
  avg_peaks rep = Some p /\
  grid_verdict rep = spec_verdict c p /\
  (grid_verdict rep = EXCELLENT <-> 5 < c /\ 3 < p) /\
  (grid_verdict rep = GOOD <-> ~ (5 < c /\ 3 < p) /\ 3 < c /\ 2 < p) /\
  (grid_verdict rep = WEAK <->
     ~ (5 < c /\ 3 < p) /\ ~ (3 < c /\ 2 < p) /\ 1.5 < c) /\
  (grid_verdict rep = INVISIBLE <->
     ~ (5 < c /\ 3 < p) /\ ~ (3 < c /\ 2 < p) /\ ~ 1.5 < c) /\
  NoDup [EXCELLENT; GOOD; WEAK; INVISIBLE].
Proof.
  intros Hg rep c p.
  destruct (analyze_grid_lines_inv img brt grid Hg) as [Hn _].
  assert (L : List.length (values grid) = 8%nat).
  { unfold values. rewrite length_map, <- (length_map fst), Hn. reflexivity. }
  assert (Ec : avg_contrast rep = Some c).
  { apply mean_length. rewrite length_map. exact L. }
  assert (Ep : avg_peaks rep = Some p).
  { apply mean_length. rewrite !length_map. exact L. }
  assert (Ev : grid_verdict rep = spec_verdict c p).
  { unfold rep, format_report. cbn [grid_verdict].
    fold rep. change (Np.mean (map contrast_ratio (values grid)))
      with (avg_contrast rep).
    change (Np.mean (map nat2Q (map peak_count (values grid))))
      with (avg_peaks rep).
    rewrite Ec, Ep. reflexivity. }
  split; [exact L |]. split; [exact Ec |]. split; [exact Ep |].
  split; [exact Ev |].
  rewrite Ev. unfold spec_verdict, verdict_rules. cbn [first_match].
  destruct (Qgtb c 5.0) eqn:C5, (Qgtb p 3) eqn:P3,
           (Qgtb c 3.0) eqn:C3, (Qgtb p 2) eqn:P2,
           (Qgtb c 1.5) eqn:C1; cbn [andb]; qbool;
    repeat match goal with
    | |- _ /\ _ => split
    | |- _ <-> _ => split
    | |- NoDup _ => exact verdicts_distinct
    | |- ~ _ => intro
    | |- _ -> _ => intro
    | H : _ /\ _ |- _ => destruct H
    | H : @eq string _ _ |- _ => discriminate H
    | |- @eq string _ _ => reflexivity
    end;
    try lra;
    exfalso;
    match goal with
    | H : ~ _ |- _ => solve [apply H; try split; lra]
    end.
Qed.

(** ** Issue rules *)

Lemma In_append_if (m msg : string) (c : bool) (l : list string) :
  In m (append_if c msg l) <-> In m l \/ (c = true /\ m = msg).
Proof.
  unfold append_if. destruct c.
  - rewrite in_app_iff. cbn [In]. intuition congruence.
  - intuition discriminate.
Qed.

Lemma append_if_nil (c : bool) (msg : string) (l : list string) :
  append_if c msg l = [] <-> l = [] /\ c = false.
Proof.
  unfold append_if. destruct c.
  - split; [| intros [_ H]; discriminate H].
    intro H. apply app_eq_nil in H. destruct H as [_ H]. discriminate H.
  - intuition.
Qed.

Lemma lt_fires (avg : Np.npfloat) :
  Np.lt avg 2.0 = true <-> low_contrast_fires avg.
Proof.
  unfold low_contrast_fires, Np.lt. destruct avg as [c |].
  - rewrite Qltb_spec. split.
    + intro H. exists c. split; [reflexivity | lra].
    + intros (c' & E & H). inversion E; subst. lra.
  - split; [discriminate | intros (c' & E & _); discriminate E].
Qed.

Lemma and_fires (a b : bool) (A B : Prop) :
  (a = true <-> A) -> (b = true <-> B) -> (a && b = true <-> A /\ B).
Proof.
  rewrite andb_true_iff. tauto.
Qed.

Lemma fires_false (b : bool) (P : Prop) :
  (b = true <-> P) -> (b = false <-> ~ P).
Proof.
  destruct b; intuition discriminate.
Qed.

Lemma no_major_not_an_issue (l : list string) :
  ~ In NO_MAJOR_ISSUES (map (fun issue => ("  ✗ " ++ issue)%string) l).
Proof.
  induction l as [| j l IH]; cbn [map In]; [tauto |].
  intros [H | H]; [discriminate H | exact (IH H)].
Qed.

(** C7. Each of the six issues is in the issue list exactly when its
    own threshold condition holds, whatever the other conditions do,
    where the condition of "low contrast" is taken on the mean of the
    contrast ratios of the scan results, which is also the average
    contrast the report carries; the list is empty exactly when no
    condition holds; the closing assessment reads "No major issues
    detected" exactly then, and otherwise lists every issue of the
    list. *)
Theorem issue_rules (dist : DistributionReport)
  (grid : Dict ScanLineResult) (colors : ColorReport)
  (regions : RegionReport) (reflections : ReflectionReport)
  (dims : nat * nat) :
  let rep := format_report dist grid colors regions reflections dims in
  let mean_contrast := Np.mean (map contrast_ratio (values grid)) in
  avg_contrast rep = mean_contrast /\
  (In TOO_DARK (issues rep) <-> too_dark_fires dist) /\
  (In NO_GRID_FLOOR (issues rep) <-> no_grid_floor_fires dist) /\
  (In LOW_CONTRAST (issues rep) <-> low_contrast_fires mean_contrast) /\
  (In NO_CYAN (issues rep) <-> no_cyan_fires colors) /\
  (In NO_SSR (issues rep) <-> no_ssr_fires reflections) /\
  (In BLOOM_OVERLOAD (issues rep) <-> bloom_overload_fires dist) /\
  (issues rep = [] <->
     ~ too_dark_fires dist /\ ~ no_grid_floor_fires dist /\
     ~ low_contrast_fires mean_contrast /\ ~ no_cyan_fires colors /\
     ~ no_ssr_fires reflections /\ ~ bloom_overload_fires dist) /\
  (In NO_MAJOR_ISSUES (assessment rep) <-> issues rep = []) /\
  (issues rep <> [] ->
     assessment rep = map (fun issue => ("  ✗ " ++ issue)%string) (issues rep)).
Proof.
  intros rep mean_contrast.
  split; [reflexivity |].
  assert (H1 : Qgtb (black dist) 70 = true <-> too_dark_fires dist)
    by apply Qgtb_spec.
  assert (H2 : Qgtb (black dist) 50 && Qltb (dark dist) 5 = true
               <-> no_grid_floor_fires dist)
    by (apply and_fires; [apply Qgtb_spec | apply Qltb_spec]).
  assert (H3 : Np.lt mean_contrast 2.0 = true
               <-> low_contrast_fires mean_contrast)
    by apply lt_fires.
  assert (H4 : Qltb (cyan_teal colors) 1.0 = true <-> no_cyan_fires colors)
    by (unfold no_cyan_fires; rewrite Qltb_spec; split; intro; lra).
  assert (H5 : String.eqb (floor_has_variation reflections) "NO" = true
               <-> no_ssr_fires reflections)
    by apply String.eqb_eq.
  assert (H6 : Qgtb (hot dist) 15 = true <-> bloom_overload_fires dist)
    by apply Qgtb_spec.
  assert (Ei : issues rep
    = append_if (Qgtb (hot dist) 15) BLOOM_OVERLOAD
       (append_if (String.eqb (floor_has_variation reflections) "NO") NO_SSR
         (append_if (Qltb (cyan_teal colors) 1.0) NO_CYAN
           (append_if (Np.lt mean_contrast 2.0) LOW_CONTRAST
             (append_if (Qgtb (black dist) 50 && Qltb (dark dist) 5)
                        NO_GRID_FLOOR
               (append_if (Qgtb (black dist) 70) TOO_DARK []))))))
    by reflexivity.
  assert (Ea : assessment rep
    = match issues rep with
      | [] => [NO_MAJOR_ISSUES]
      | _ => map (fun issue => ("  ✗ " ++ issue)%string) (issues rep)
      end) by reflexivity.
  repeat match goal with
  | |- (In _ (issues rep) <-> _) /\ _ =>
      split;
      [rewrite Ei, !In_append_if; cbn [In];
       rewrite <- ?H1, <- ?H2, <- ?H3, <- ?H4, <- ?H5, <- ?H6;
       intuition discriminate |]
  end.
  split.
  { rewrite Ei, !append_if_nil.
    apply fires_false in H1, H2, H3, H4, H5, H6.
    rewrite <- H1, <- H2, <- H3, <- H4, <- H5, <- H6. tauto. }
  split.
  { rewrite Ea. destruct (issues rep) as [| i l]; cbn [In map].
    - intuition.
    - split; [| discriminate].
      intro H. exfalso. exact (no_major_not_an_issue (i :: l) H). }
  intro Hne. rewrite Ea. destruct (issues rep); [congruence | reflexivity].
Qed.

(** ** Rounding to a binary format *)

Lemma rne_bounds (y : Q) : (Qfloor y <= Fp.rne y <= Qfloor y + 1)%Z.
Proof.
  unfold Fp.rne. cbv zeta.
  destruct (Qcompare (y - inject_Z (Qfloor y)) (1 # 2));
    [destruct (Z.even (Qfloor y)) | |]; lia.
Qed.

Lemma rne_Z (k : Z) : Fp.rne (inject_Z k) = k.
Proof.
  unfold Fp.rne. cbv zeta. rewrite Qfloor_Z.
  destruct (Qcompare_spec (inject_Z k - inject_Z k) (1 # 2)) as [H | H | H];
    [exfalso; lra | reflexivity | exfalso; lra].
Qed.

Lemma rne_mono (y y' : Q) : y <= y' -> (Fp.rne y <= Fp.rne y')%Z.
Proof.
  intro Hle.
  pose proof (Qfloor_resp_le _ _ Hle) as Hf.
  pose proof (rne_bounds y) as Hy. pose proof (rne_bounds y') as Hy'.
  destruct (Z.eq_dec (Qfloor y) (Qfloor y')) as [E | NE]; [| lia].
  clear Hy Hy'. unfold Fp.rne. cbv zeta. rewrite <- E.
  destruct (Qcompare_spec (y - inject_Z (Qfloor y)) (1 # 2)) as [H | H | H];
    destruct (Qcompare_spec (y' - inject_Z (Qfloor y)) (1 # 2))
      as [H' | H' | H'];
    try destruct (Z.even (Qfloor y)); try lia; exfalso; lra.
Qed.

Lemma rne_error (y : Q) : Qabs (inject_Z (Fp.rne y) - y) <= 1 # 2.
Proof.
  pose proof (Qfloor_le y) as Hlo. pose proof (Qlt_floor y) as Hhi.
  rewrite inject_Z_plus in Hhi. change (inject_Z 1) with 1 in Hhi.
  apply Qabs_Qle_condition. unfold Fp.rne. cbv zeta.
  destruct (Qcompare_spec (y - inject_Z (Qfloor y)) (1 # 2)) as [H | H | H];
    try destruct (Z.even (Qfloor y));
    rewrite ?inject_Z_plus; change (inject_Z 1) with 1; split; lra.
Qed.

Lemma pow2_pos (e : Z) : 0 < Fp.pow2 e.
Proof. apply Qpower_0_lt. reflexivity. Qed.

Lemma pow2_add (a b : Z) : Fp.pow2 (a + b) == Fp.pow2 a * Fp.pow2 b.
Proof. apply Qpower_plus. discriminate. Qed.

Lemma pow2_succ (e : Z) : Fp.pow2 (e + 1) == 2 * Fp.pow2 e.
Proof. rewrite pow2_add. change (Fp.pow2 1) with 2. ring. Qed.

Lemma pow2_le (a b : Z) : (a <= b)%Z -> Fp.pow2 a <= Fp.pow2 b.
Proof. intro H. apply Qpower_le_compat_l; [exact H | discriminate]. Qed.

Lemma pow2_lt_inv (a b : Z) : Fp.pow2 a < Fp.pow2 b -> (a < b)%Z.
Proof. intro H. apply (Qpower_lt_compat_l_inv 2); [exact H | reflexivity]. Qed.

Lemma pow2_Z (k : Z) : (0 <= k)%Z -> Fp.pow2 k == inject_Z (2 ^ k).
Proof. intro H. unfold Fp.pow2. rewrite Zpower_Qpower by exact H. reflexivity. Qed.

(** [pow2 b] is a multiple of [pow2 a] when [a <= b]. *)
Lemma pow2_multiple (a b : Z) :
  (a <= b)%Z -> Fp.pow2 b == inject_Z (2 ^ (b - a)) * Fp.pow2 a.
Proof.
  intro H. rewrite <- pow2_Z by lia. rewrite <- pow2_add.
  replace (b - a + a)%Z with b by lia. reflexivity.
Qed.

Lemma exponent_spec (x : Q) :
  0 < x -> Fp.pow2 (Fp.exponent x) <= x < Fp.pow2 (Fp.exponent x + 1).
Proof.
  intro Hx. destruct x as [n d].
  assert (Hn : (0 < n)%Z) by (unfold Qlt in Hx; simpl in Hx; lia).
  pose proof (Z.log2_spec n Hn) as [Ha1 Ha2].
  pose proof (Z.log2_spec (Z.pos d) (Pos2Z.is_pos d)) as [Hb1 Hb2].
  pose proof (Z.log2_nonneg n) as Ha0.
  pose proof (Z.log2_nonneg (Z.pos d)) as Hb0.
  set (a := Z.log2 n) in *. set (b := Z.log2 (Z.pos d)) in *.
  assert (Ex : (n # d) * inject_Z (Z.pos d) == inject_Z n).
  { rewrite (Qmake_Qdiv n d). field. discriminate. }
  assert (Hd : 0 < inject_Z (Z.pos d)) by reflexivity.
  assert (La : Fp.pow2 a <= inject_Z n).
  { rewrite pow2_Z by exact Ha0. rewrite <- Zle_Qle. exact Ha1. }
  assert (Ua : inject_Z n < Fp.pow2 (a + 1)).
  { rewrite pow2_Z by lia. rewrite <- Zlt_Qlt.
    replace (a + 1)%Z with (Z.succ a) by lia. exact Ha2. }
  assert (Lb : Fp.pow2 b <= inject_Z (Z.pos d)).
  { rewrite pow2_Z by exact Hb0. rewrite <- Zle_Qle. exact Hb1. }
  assert (Ub : inject_Z (Z.pos d) < Fp.pow2 (b + 1)).
  { rewrite pow2_Z by lia. rewrite <- Zlt_Qlt.
    replace (b + 1)%Z with (Z.succ b) by lia. exact Hb2. }
  assert (Lo : Fp.pow2 (a - b - 1) < n # d).
  { assert (E : Fp.pow2 (a - b - 1) * Fp.pow2 (b + 1) == Fp.pow2 a).
    { rewrite <- pow2_add. replace (a - b - 1 + (b + 1))%Z with a by lia.
      reflexivity. }
    pose proof (pow2_pos (a - b - 1)) as P1.
    apply (Qmult_lt_r _ _ (inject_Z (Z.pos d)) Hd).
    rewrite Ex.
    apply Qlt_le_trans with (Fp.pow2 (a - b - 1) * Fp.pow2 (b + 1));
      [| rewrite E; exact La].
    apply Qmult_lt_l; assumption. }
  assert (Hi : n # d < Fp.pow2 (a - b + 1)).
  { assert (E : Fp.pow2 (a - b + 1) * Fp.pow2 b == Fp.pow2 (a + 1)).
    { rewrite <- pow2_add. replace (a - b + 1 + b)%Z with (a + 1)%Z by lia.
      reflexivity. }
    pose proof (pow2_pos (a - b + 1)) as P1.
    apply (Qmult_lt_r _ _ (inject_Z (Z.pos d)) Hd).
    rewrite Ex.
    apply Qlt_le_trans with (Fp.pow2 (a - b + 1) * Fp.pow2 b);
      [rewrite E; exact Ua |].
    apply Qmult_le_l; assumption. }
  unfold Fp.exponent. cbn [Qnum Qden]. fold a b.
  destruct (Qle_bool (Fp.pow2 (a - b)) (n # d)) eqn:Et.
  - apply Qle_bool_iff in Et. split; assumption.
  - replace (a - b - 1 + 1)%Z with (a - b)%Z by lia.
    split; [apply Qlt_le_weak, Lo |].
    apply Qnot_le_lt. intro H. apply Qle_bool_iff in H. congruence.
Qed.

Lemma exponent_mono (x y : Q) :
  0 < x -> x <= y -> (Fp.exponent x <= Fp.exponent y)%Z.
Proof.
  intros Hx Hxy.
  destruct (exponent_spec x Hx) as [Lx _].
  destruct (exponent_spec y) as [_ Uy]; [lra |].
  assert (H : Fp.pow2 (Fp.exponent x) < Fp.pow2 (Fp.exponent y + 1)) by lra.
  apply pow2_lt_inv in H. lia.
Qed.

Lemma exponent_below (x : Q) (e : Z) :
  0 < x -> x < Fp.pow2 e -> (Fp.exponent x < e)%Z.
Proof.
  intros Hx H. destruct (exponent_spec x Hx) as [Lx _].
  apply pow2_lt_inv. lra.
Qed.

Section Rounding.

Variables prec emin : Z.
Hypothesis prec_pos : (1 <= prec)%Z.

Lemma quantum_pos (a : Q) : 0 < Fp.quantum prec emin a.
Proof. apply pow2_pos. Qed.

Lemma round_pos (x : Q) :
  0 < x ->
  Fp.round prec emin x
  == inject_Z (Fp.rne (x / Fp.quantum prec emin x)) * Fp.quantum prec emin x.
Proof.
  intro Hx. unfold Fp.round.
  destruct (Qeq_bool x 0) eqn:E0.
  { apply Qeq_bool_iff in E0. lra. }
  assert (Ea : Qabs x = x).
  { destruct x as [[| p | p] d]; [| reflexivity |];
      unfold Qlt in Hx; simpl in Hx; lia. }
  rewrite Ea. cbv zeta.
  assert (E1 : Qle_bool 0 x = true) by (apply Qle_bool_iff; lra).
  rewrite E1. reflexivity.
Qed.

Lemma round_zero (x : Q) : x == 0 -> Fp.round prec emin x = 0.
Proof.
  intro H. unfold Fp.round. apply Qeq_bool_iff in H. rewrite H. reflexivity.
Qed.

(** A multiple [k q] of the quantum [q] of [x] stays on its side of [x]. *)
Lemma round_le_multiple (x : Q) (k : Z) :
  0 < x -> x <= inject_Z k * Fp.quantum prec emin x ->
  Fp.round prec emin x <= inject_Z k * Fp.quantum prec emin x.
Proof.
  intros Hx H. rewrite (round_pos x Hx).
  pose proof (quantum_pos x) as Hq.
  apply Qmult_le_r; [exact Hq |]. rewrite <- Zle_Qle.
  rewrite <- (rne_Z k). apply rne_mono.
  apply Qle_shift_div_r; assumption.
Qed.

Lemma round_ge_multiple (x : Q) (k : Z) :
  0 < x -> inject_Z k * Fp.quantum prec emin x <= x ->
  inject_Z k * Fp.quantum prec emin x <= Fp.round prec emin x.
Proof.
  intros Hx H. rewrite (round_pos x Hx).
  pose proof (quantum_pos x) as Hq.
  apply Qmult_le_r; [exact Hq |]. rewrite <- Zle_Qle.
  rewrite <- (rne_Z k) at 1. apply rne_mono.
  apply Qle_shift_div_l; assumption.
Qed.

Lemma round_nonneg (x : Q) : 0 <= x -> 0 <= Fp.round prec emin x.
Proof.
  intro Hx. destruct (Qeq_dec x 0) as [E | NE].
  - rewrite (round_zero x E). lra.
  - assert (Hp : 0 < x) by (destruct (Qlt_le_dec 0 x); [assumption | exfalso; apply NE; lra]).
    pose proof (round_ge_multiple x 0 Hp) as H.
    change (inject_Z 0) with 0 in H. rewrite Qmult_0_l in H. apply H, Hx.
Qed.

Lemma round_mono (x y : Q) :
  0 <= x -> x <= y -> Fp.round prec emin x <= Fp.round prec emin y.
Proof.
  intros Hx Hxy.
  destruct (Qeq_dec x 0) as [E | NE].
  { rewrite (round_zero x E). apply round_nonneg. lra. }
  assert (Px : 0 < x) by (destruct (Qlt_le_dec 0 x); [assumption | exfalso; apply NE; lra]).
  assert (Py : 0 < y) by lra.
  pose proof (exponent_mono x y Px Hxy) as He.
  set (ex := Z.max (Fp.exponent x) emin).
  set (ey := Z.max (Fp.exponent y) emin).
  assert (Qx : Fp.quantum prec emin x = Fp.pow2 (ex - (prec - 1))) by reflexivity.
  assert (Qy : Fp.quantum prec emin y = Fp.pow2 (ey - (prec - 1))) by reflexivity.
  destruct (Z.eq_dec ex ey) as [Ee | Ne].
  - rewrite (round_pos x Px), (round_pos y Py), Qx, Qy, Ee.
    pose proof (pow2_pos (ey - (prec - 1))) as Hq.
    apply Qmult_le_r; [exact Hq |]. rewrite <- Zle_Qle. apply rne_mono.
    apply Qmult_le_r; [apply Qinv_lt_0_compat, Hq | exact Hxy].
  - assert (Hlt : (ex < ey)%Z) by lia.
    assert (Ey : ey = Fp.exponent y) by lia.
    destruct (exponent_spec x Px) as [_ Ux].
    destruct (exponent_spec y Py) as [Ly _].
    (* the power of two between them *)
    assert (Hb : x <= Fp.pow2 ey).
    { apply Qle_trans with (Fp.pow2 (Fp.exponent x + 1));
        [apply Qlt_le_weak, Ux | apply pow2_le; lia]. }
    apply Qle_trans with (Fp.pow2 ey).
    + pose proof (round_le_multiple x (2 ^ (ey - (ex - (prec - 1)))) Px) as H.
      rewrite Qx in H.
      rewrite <- (pow2_multiple (ex - (prec - 1)) ey) in H by lia.
      apply H, Hb.
    + pose proof (round_ge_multiple y (2 ^ (ey - (ey - (prec - 1)))) Py) as H.
      rewrite Qy in H.
      rewrite <- (pow2_multiple (ey - (prec - 1)) ey) in H by lia.
      apply H. rewrite Ey. exact Ly.
Qed.

Lemma round_error (x : Q) :
  0 <= x ->
  Qabs (Fp.round prec emin x - x) <= Fp.quantum prec emin x / 2.
Proof.
  intro Hx. pose proof (quantum_pos x) as Hq.
  destruct (Qeq_dec x 0) as [E | NE].
  { rewrite (round_zero x E).
    assert (Ez : 0 - x == 0) by lra. rewrite Ez.
    change (Qabs 0) with 0. apply Qle_shift_div_l; lra. }
  assert (Px : 0 < x) by (destruct (Qlt_le_dec 0 x); [assumption | exfalso; apply NE; lra]).
  rewrite (round_pos x Px).
  set (q := Fp.quantum prec emin x) in *.
  pose proof (rne_error (x / q)) as He.
  assert (Eq : inject_Z (Fp.rne (x / q)) * q - x
               == (inject_Z (Fp.rne (x / q)) - x / q) * q) by (field; lra).
  rewrite Eq, Qabs_Qmult, (Qabs_pos q) by lra.
  apply Qle_trans with ((1 # 2) * q); [| apply Qle_shift_div_l; lra].
  apply Qmult_le_r; assumption.
Qed.

(** Below 2 the error is at most [2^-prec]. *)
Lemma round_error_below_2 (x : Q) :
  (emin <= 0)%Z -> 0 <= x -> x < 2 ->
  Qabs (Fp.round prec emin x - x) <= Fp.pow2 (- prec).
Proof.
  intros Hm Hx H2.
  apply Qle_trans with (Fp.quantum prec emin x / 2);
    [apply round_error, Hx |].
  apply Qle_shift_div_r; [reflexivity |].
  assert (E : Fp.pow2 (- prec) * 2 == Fp.pow2 (0 - (prec - 1))).
  { replace (0 - (prec - 1))%Z with (- prec + 1)%Z by lia.
    rewrite pow2_succ. ring. }
  rewrite E. unfold Fp.quantum. apply pow2_le.
  destruct (Qeq_dec x 0) as [E0 | NE].
  - (* the exponent of 0 *)
    assert (Hex : (Fp.exponent x <= 0)%Z).
    { unfold Fp.exponent. destruct x as [n d].
      assert (n = 0%Z) by (unfold Qeq in E0; simpl in E0; lia). subst n.
      cbn [Qnum Qden]. change (Z.log2 0) with 0%Z.
      pose proof (Z.log2_nonneg (Z.pos d)).
      destruct (Qle_bool _ _); lia. }
    lia.
  - assert (Px : 0 < x) by (destruct (Qlt_le_dec 0 x); [assumption | exfalso; apply NE; lra]).
    pose proof (exponent_below x 1 Px H2). lia.
Qed.

Lemma round_relative_error (x : Q) :
  Fp.pow2 emin <= x ->
  Qabs (Fp.round prec emin x - x) <= Fp.pow2 (- prec) * x.
Proof.
  intro Hx. pose proof (pow2_pos emin) as Hm.
  assert (Px : 0 < x) by lra.
  apply Qle_trans with (Fp.quantum prec emin x / 2);
    [apply round_error; lra |].
  apply Qle_shift_div_r; [reflexivity |].
  destruct (exponent_spec x Px) as [Lx Ux].
  assert (He : (emin <= Fp.exponent x)%Z).
  { assert (H : Fp.pow2 emin < Fp.pow2 (Fp.exponent x + 1)) by lra.
    apply pow2_lt_inv in H. lia. }
  unfold Fp.quantum. rewrite Z.max_l by exact He.
  replace (Fp.exponent x - (prec - 1))%Z
    with (- prec + 1 + Fp.exponent x)%Z by lia.
  rewrite pow2_add, pow2_succ.
  pose proof (pow2_pos (- prec)) as Hp.
  assert (H : Fp.pow2 (- prec) * Fp.pow2 (Fp.exponent x)
              <= Fp.pow2 (- prec) * x)
    by (apply Qmult_le_l; assumption).
  lra.
Qed.

End Rounding.

Ltac qdecide := vm_compute; first [reflexivity | discriminate | intro; discriminate].

Lemma f32_mono (x y : Q) : 0 <= x -> x <= y -> f32 x <= f32 y.
Proof. apply round_mono. lia. Qed.

Lemma f32_nonneg (x : Q) : 0 <= x -> 0 <= f32 x.
Proof. apply round_nonneg. Qed.

Lemma f32_error (x : Q) :
  0 <= x -> x < 2 -> Qabs (f32 x - x) <= 1 # 16777216.
Proof.
  intros H0 H2.
  apply Qle_trans with (Fp.pow2 (- 24)); [| qdecide].
  apply round_error_below_2; [lia | exact H0 | exact H2].
Qed.

Lemma f64_relative (x : Q) :
  (1 # 1024) <= x ->
  x * (1 - (1 # 9007199254740992)) <= f64 x <= x * (1 + (1 # 9007199254740992)).
Proof.
  intro Hx.
  assert (Hm : Fp.pow2 (-1022) <= x).
  { apply Qle_trans with (1 # 1024); [| exact Hx].
    change (1 # 1024) with (Fp.pow2 (-10)). apply pow2_le. lia. }
  pose proof (round_relative_error 53 (-1022) x Hm) as H.
  assert (E : Fp.pow2 (-53) == 1 # 9007199254740992) by qdecide.
  rewrite E in H. apply Qabs_Qle_condition in H. fold (f64 x) in H.
  split; lra.
Qed.

(** ** Luminance transform *)

Lemma mapM_ok_map {A B : Type} (f : A -> result B) (g : A -> B)
  (l : list A) :
  Forall (fun x => f x = Ok (g x)) l -> mapM f l = Ok (map g l).
Proof.
  induction 1 as [| x l Hx _ IH]; [reflexivity |].
  cbn [mapM map]. rewrite Hx. cbn [bind]. rewrite IH. reflexivity.
Qed.

Lemma channel_ok (k : nat) (img : PixelBuffer) :
  Forall (Forall (fun px : Pixel => (k < List.length px)%nat)) img ->
  channel k img = Ok (map (map (fun px : Pixel => nth k px 0)) img).
Proof.
  intro H. unfold channel. apply mapM_ok_map.
  eapply Forall_impl; [| exact H]. intros row Hrow.
  apply mapM_ok_map. eapply Forall_impl; [| exact Hrow].
  intros px Hpx. unfold getitem.
  destruct (nth_error px k) as [v |] eqn:E.
  - apply nth_error_nth with (d := 0) in E. rewrite E. reflexivity.
  - apply nth_error_None in E. cbv beta in Hpx. lia.
Qed.

Lemma combine_map {A B C : Type} (f : A -> B) (g : A -> C) (l : list A) :
  combine (map f l) (map g l) = map (fun x => (f x, g x)) l.
Proof.
  induction l as [| x l IH]; [reflexivity |].
  cbn [map combine]. rewrite IH. reflexivity.
Qed.

Lemma zip3_map {A B : Type} (f : Q -> Q -> Q -> B) (a b c : A -> Q)
  (m : list (list A)) :
  zip3 f (map (map a) m) (map (map b) m) (map (map c) m)
  = map (map (fun x => f (a x) (b x) (c x))) m.
Proof.
  unfold zip3. rewrite !combine_map, map_map.
  apply map_ext. intro row.
  rewrite !combine_map, map_map. reflexivity.
Qed.

Lemma three_channels_lt (k : nat) (img : PixelBuffer) :
  (k < 3)%nat -> three_channels img ->
  Forall (Forall (fun px : Pixel => (k < List.length px)%nat)) img.
Proof.
  intros Hk H. eapply Forall_impl; [| exact H]. intros row Hrow.
  eapply Forall_impl; [| exact Hrow]. intros px Hpx. cbv beta in *. lia.
Qed.

Lemma brightness_ok (img : PixelBuffer) :
  three_channels img -> brightness img = Ok (map (map luma_px) img).
Proof.
  intro H. unfold brightness.
  rewrite (channel_ok 0), (channel_ok 1), (channel_ok 2)
    by (apply three_channels_lt; [lia | exact H]).
  cbn [bind]. rewrite zip3_map. reflexivity.
Qed.

Lemma rect_map_map {A B : Type} (f : A -> B) (h w : nat)
  (m : list (list A)) :
  rect h w m -> rect h w (map (map f) m).
Proof.
  intros [Hh Hw]. split; [rewrite length_map; exact Hh |].
  apply Forall_map. eapply Forall_impl; [| exact Hw].
  intros r Hr. rewrite length_map. exact Hr.
Qed.

Lemma luma_unit (r g b : Q) :
  0 <= r <= 1 -> 0 <= g <= 1 -> 0 <= b <= 1 -> 0 <= luma r g b <= 1.
Proof.
  unfold luma. intros. lra.
Qed.

Lemma luma_px_unit (px : Pixel) :
  List.length px = 3%nat -> Forall (fun c : Q => 0 <= c <= 1) px ->
  0 <= luma_px px <= 1.
Proof.
  intros Hl Hc.
  destruct px as [| r [| g [| b [| ? ?]]]]; try discriminate Hl.
  inversion Hc as [| ? ? Hr Hc1]; subst.
  inversion Hc1 as [| ? ? Hg Hc2]; subst.
  inversion Hc2 as [| ? ? Hb _]; subst.
  unfold luma_px. cbn [nth]. apply luma_unit; assumption.
Qed.

Lemma luma_f32_bounds (r g b : Q) :
  0 <= r <= 1 -> 0 <= g <= 1 -> 0 <= b <= 1 ->
  0 <= luma_f32 r g b <= 1 /\
  Qabs (luma_f32 r g b - (0.2126 * r + 0.7152 * g + 0.0722 * b)) <= 1 # 2097152.
Proof.
  intros Hr Hg Hb. unfold luma_f32.
  assert (Wr : f32 0.2126 == 891709 # 4194304) by qdecide.
  assert (Wg : f32 0.7152 == 11999065 # 16777216) by qdecide.
  assert (Wb : f32 0.0722 == 1211315 # 16777216) by qdecide.
  remember (f32 0.2126 * r) as x1 eqn:E1.
  remember (f32 0.7152 * g) as x2 eqn:E2.
  remember (f32 0.0722 * b) as x3 eqn:E3.
  assert (X1 : x1 == (891709 # 4194304) * r) by (subst x1; rewrite Wr; reflexivity).
  assert (X2 : x2 == (11999065 # 16777216) * g) by (subst x2; rewrite Wg; reflexivity).
  assert (X3 : x3 == (1211315 # 16777216) * b) by (subst x3; rewrite Wb; reflexivity).
  clear E1 E2 E3.
  (* the three products *)
  assert (P1 : f32 x1 <= f32 (891709 # 4194304)) by (apply f32_mono; lra).
  assert (P2 : f32 x2 <= f32 (11999065 # 16777216)) by (apply f32_mono; lra).
  assert (P3 : f32 x3 <= f32 (1211315 # 16777216)) by (apply f32_mono; lra).
  assert (N1 : 0 <= f32 x1) by (apply f32_nonneg; lra).
  assert (N2 : 0 <= f32 x2) by (apply f32_nonneg; lra).
  assert (N3 : 0 <= f32 x3) by (apply f32_nonneg; lra).
  assert (F1 : f32 (891709 # 4194304) == 891709 # 4194304) by qdecide.
  assert (F2 : f32 (11999065 # 16777216) == 11999065 # 16777216) by qdecide.
  assert (F3 : f32 (1211315 # 16777216) == 1211315 # 16777216) by qdecide.
  (* the first sum *)
  set (s1 := f32 x1 + f32 x2) in *.
  assert (S1 : f32 s1 <= f32 ((891709 # 4194304) + (11999065 # 16777216)))
    by (apply f32_mono; unfold s1; lra).
  assert (NS1 : 0 <= f32 s1) by (apply f32_nonneg; unfold s1; lra).
  assert (FS1 : f32 ((891709 # 4194304) + (11999065 # 16777216))
                == 15565901 # 16777216) by qdecide.
  (* the second sum *)
  set (s2 := f32 s1 + f32 x3) in *.
  assert (S2 : f32 s2 <= f32 ((15565901 # 16777216) + (1211315 # 16777216)))
    by (apply f32_mono; unfold s2; lra).
  assert (NS2 : 0 <= f32 s2) by (apply f32_nonneg; unfold s2; lra).
  assert (FS2 : f32 ((15565901 # 16777216) + (1211315 # 16777216)) == 1)
    by qdecide.
  split; [lra |].
  pose proof (f32_error x1 ltac:(lra) ltac:(lra)) as R1.
  pose proof (f32_error x2 ltac:(lra) ltac:(lra)) as R2.
  pose proof (f32_error x3 ltac:(lra) ltac:(lra)) as R3.
  pose proof (f32_error s1 ltac:(unfold s1; lra) ltac:(unfold s1; lra)) as R4.
  pose proof (f32_error s2 ltac:(unfold s2; lra) ltac:(unfold s2; lra)) as R5.
  apply Qabs_Qle_condition in R1, R2, R3, R4, R5.
  apply Qabs_Qle_condition. unfold s2, s1 in *. split; lra.
Qed.

Lemma brightness_f32_ok (img : PixelBuffer) :
  three_channels img ->
  brightness_f32 img
  = Ok (map (map (fun px : Pixel =>
                    luma_f32 (nth 0 px 0) (nth 1 px 0) (nth 2 px 0))) img).
Proof.
  intro H. unfold brightness_f32.
  rewrite (channel_ok 0), (channel_ok 1), (channel_ok 2)
    by (apply three_channels_lt; [lia | exact H]).
  cbn [bind]. rewrite zip3_map. reflexivity.
Qed.

(** The claim of C9 fails as stated.  The colour (6, 116, 246) of an
    8-bit image has the luminance 0.39999998 in the map the code
    returns, below 0.40, while [0.2126 R + 0.7152 G + 0.0722 B] is above
    0.40 for its channels. *)
Lemma luminance_not_exact :
  valid_buffer 1 1 [[azure]] /\
  exists v,
    brightness_f32 [[azure]] = Ok [[v]] /\
    v < 0.40 /\
    0.40 < 0.2126 * nth 0 azure 0 + 0.7152 * nth 1 azure 0
           + 0.0722 * nth 2 azure 0.
Proof.
  split.
  - split; [split; [reflexivity | repeat constructor] |].
    split; repeat constructor; qdecide.
  - eexists. split; [vm_compute; reflexivity |]. split; qdecide.
Qed.

(** C9, as the code has it.  On a validated buffer the luminance
    transform raises nothing and returns a map of the same height and
    width.  The value at a pixel [(r, g, b)] is the [float32] evaluation
    of [0.2126 r + 0.7152 g + 0.0722 b]: the weights taken to [float32],
    each product and each sum rounded to [float32].  It differs from the
    exact [0.2126 r + 0.7152 g + 0.0722 b] by at most [2^-21], and it
    lies in [0,1]. *)
Theorem brightness_luminance (h w : nat) (img : PixelBuffer) :
  valid_buffer h w img ->
  exists brt,
    brightness_f32 img = Ok brt /\
    rect h w brt /\
    (forall i j row r g b,
       nth_error img i = Some row -> nth_error row j = Some [r; g; b] ->
       exists brow v,
         nth_error brt i = Some brow /\
         nth_error brow j = Some v /\
         v = f32 (f32 (f32 (f32 0.2126 * r) + f32 (f32 0.7152 * g))
                  + f32 (f32 0.0722 * b)) /\
         Qabs (v - (0.2126 * r + 0.7152 * g + 0.0722 * b))
         <= 1 # 2097152) /\
    Forall (Forall (fun v => 0 <= v <= 1)) brt.
Proof.
  intros (Hrect & H3 & Hu).
  set (lp := fun px : Pixel =>
               luma_f32 (nth 0 px 0) (nth 1 px 0) (nth 2 px 0)).
  exists (map (map lp) img).
  split; [apply brightness_f32_ok, H3 |].
  split; [apply rect_map_map, Hrect |].
  unfold three_channels, channels_in_unit in *.
  rewrite Forall_forall in H3, Hu.
  split.
  - intros i j row r g b Hi Hj.
    exists (map lp row), (luma_f32 r g b).
    split; [apply map_nth_error, Hi |].
    split; [apply (map_nth_error lp) in Hj; exact Hj |].
    split; [reflexivity |].
    apply nth_error_In in Hi, Hj.
    specialize (Hu row Hi). rewrite Forall_forall in Hu.
    specialize (Hu _ Hj).
    inversion Hu as [| ? ? Hr Hc1]; subst.
    inversion Hc1 as [| ? ? Hg Hc2]; subst.
    inversion Hc2 as [| ? ? Hb _]; subst.
    apply luma_f32_bounds; assumption.
  - rewrite Forall_forall. intros brow Hb.
    apply in_map_iff in Hb. destruct Hb as (row & <- & Hrow).
    specialize (H3 row Hrow). specialize (Hu row Hrow).
    rewrite Forall_forall in *. intros v Hv.
    apply in_map_iff in Hv. destruct Hv as (px & <- & Hpx).
    specialize (H3 px Hpx). specialize (Hu px Hpx).
    destruct px as [| r [| g [| b [| ? ?]]]]; try discriminate H3.
    inversion Hu as [| ? ? Hr Hc1]; subst.
    inversion Hc1 as [| ? ? Hg Hc2]; subst.
    inversion Hc2 as [| ? ? Hb _]; subst.
    unfold lp. cbn [nth]. apply luma_f32_bounds; assumption.
Qed.

Lemma stripes_valid : valid_buffer 4 4 stripes.
Proof.
  unfold valid_buffer, rect, three_channels, channels_in_unit, stripes.
  cbn [repeat].
  repeat split; repeat constructor; unfold Qle; simpl; lia.
Qed.

Lemma brightness_luminance_witness :
  exists brt,
    brightness_f32 stripes = Ok brt /\
    rect 4 4 brt /\
    Forall (Forall (fun v => 0 <= v <= 1)) brt.
Proof.
  destruct (brightness_luminance 4 4 stripes stripes_valid)
    as (brt & H1 & H2 & _ & H3).
  exists brt. split; [exact H1 | split; [exact H2 | exact H3]].
Defined.

Lemma grid_verdict_rules_witness :
  analyze_grid_lines stripes stripes_brt = Ok stripes_grid /\
  grid_verdict sample_report
  = spec_verdict
      (Np.sum (map contrast_ratio (values stripes_grid)) / nat2Q 8)
      (Np.sum (map nat2Q (map peak_count (values stripes_grid))) / nat2Q 8).
Proof.
  assert (H : analyze_grid_lines stripes stripes_brt = Ok stripes_grid)
    by (vm_compute; reflexivity).
  split; [exact H |].
  exact (proj1 (proj2 (proj2 (proj2
    (grid_verdict_rules stripes stripes_brt stripes_grid sample_dist
       sample_colors sample_regions sample_reflections (4%nat, 4%nat) H))))).
Defined.

Lemma issue_rules_witness :
  In TOO_DARK (issues sample_report) <-> too_dark_fires sample_dist.
Proof.
  exact (proj1 (proj2 (issue_rules sample_dist stripes_grid sample_colors
                         sample_regions sample_reflections
                         (4%nat, 4%nat)))).
Defined.

(** ** Square root and standard deviation *)


Lemma sqrt_zero (x : Q) : x == 0 -> Np.sqrt x == 0.
Proof.
  intro Hx. unfold Np.sqrt.
  assert (E : Qfloor (x * inject_Z (Zpos (Np.sqrt_scale * Np.sqrt_scale)))
              = 0%Z).
  { rewrite <- (Qfloor_Z 0). apply Qfloor_comp. rewrite Hx. ring. }
  rewrite E. reflexivity.
Qed.

Lemma fold_max_spec (t : list Q) (x : Q) :
  is_max (fold_left Qmax t x) (x :: t).
Proof.
  revert x. induction t as [| y t IH]; intro x; cbn [fold_left].
  - split.
    + exists x. split; [left; reflexivity | reflexivity].
    + intros z [<- | []]. lra.
  - destruct (IH (Qmax x y)) as [(z & Hz & Ez) Hub]. split.
    + destruct Hz as [<- | Hz].
      * destruct (Q.max_dec x y) as [E | E].
        -- exists x. split; [left; reflexivity |]. rewrite <- Ez, E. reflexivity.
        -- exists y. split; [right; left; reflexivity |].
           rewrite <- Ez, E. reflexivity.
      * exists z. split; [right; right; exact Hz | exact Ez].
    + intros u [<- | [<- | Hu]].
      * apply Qle_trans with (Qmax x y); [apply Q.le_max_l |].
        apply Hub. left. reflexivity.
      * apply Qle_trans with (Qmax x y); [apply Q.le_max_r |].
        apply Hub. left. reflexivity.
      * apply Hub. right. exact Hu.
Qed.

Lemma max_spec (l : list Q) :
  l <> [] -> exists m, Np.max l = Ok m /\ is_max m l.
Proof.
  destruct l as [| x t]; [congruence |]. intros _.
  exists (fold_left Qmax t x). split; [reflexivity | apply fold_max_spec].
Qed.

Lemma uniform_sum (c : Q) (l : list Q) :
  uniform c l -> Np.sum l == c * nat2Q (List.length l).
Proof.
  induction 1 as [| x l Hx _ IH].
  - change (0 == c * 0). ring.
  - cbn [Np.sum fold_right List.length]. fold (Np.sum l).
    rewrite IH, Hx. change (S (List.length l)) with (1 + List.length l)%nat.
    rewrite nat2Q_plus. change (nat2Q 1) with 1. ring.
Qed.

Lemma length_pos_nat2Q {A : Type} (l : list A) :
  l <> [] -> 0 < nat2Q (List.length l).
Proof.
  intro H. apply nat2Q_pos. destruct l; [congruence | simpl; lia].
Qed.

Lemma uniform_mean (c : Q) (l : list Q) :
  uniform c l -> l <> [] -> exists m, Np.mean l = Some m /\ m == c.
Proof.
  intros Hu Hne. pose proof (length_pos_nat2Q l Hne) as Hp.
  destruct l as [| x t]; [congruence |].
  eexists. split; [reflexivity |].
  rewrite (uniform_sum c) by exact Hu. field. lra.
Qed.

Lemma uniform_std (c : Q) (l : list Q) :
  uniform c l -> l <> [] -> exists s, Np.std l = Some s /\ s == 0.
Proof.
  intros Hu Hne. destruct (uniform_mean c l Hu Hne) as (m & Em & Hm).
  unfold Np.std. rewrite Em. eexists. split; [reflexivity |].
  apply sqrt_zero.
  assert (Hd : uniform 0 (map (fun x => (x - m) * (x - m)) l)).
  { unfold uniform in *. apply Forall_map.
    eapply Forall_impl; [| exact Hu]. intros v Hv. cbv beta in *.
    rewrite Hv, Hm. ring. }
  rewrite (uniform_sum 0) by exact Hd.
  unfold Qdiv. ring.
Qed.

(** The deviation of [0, 1] is 1/2, the population value; the sample
    value (division by [N - 1]) would be the root of 1/2. *)
Example std_zero_one : exists s, Np.std [0; 1] = Some s /\ s == 0.5.
Proof.
  eexists. split; [reflexivity | vm_compute; reflexivity].
Qed.





(** ** Sub-regions *)

Lemma skipn_nth_cons {A : Type} (d : A) (l : list A) (a : nat) :
  (a < List.length l)%nat -> skipn a l = nth a l d :: skipn (S a) l.
Proof.
  revert a. induction l as [| x l IH]; intros a Ha; [simpl in Ha; lia |].
  destruct a as [| a]; [reflexivity |].
  cbn [skipn nth]. apply IH. simpl in Ha. lia.
Qed.

Lemma firstn_skipn_seq {A : Type} (d : A) (l : list A) (n a : nat) :
  (a + n <= List.length l)%nat ->
  firstn n (skipn a l) = map (fun i => nth i l d) (List.seq a n).
Proof.
  revert a. induction n as [| n IH]; intros a Ha; [reflexivity |].
  rewrite (skipn_nth_cons d) by lia.
  cbn [firstn List.seq map]. f_equal. apply IH. lia.
Qed.

Lemma slice_seq {A : Type} (d : A) (l : list A) (a b : nat) :
  (b <= List.length l)%nat ->
  slice a b l = map (fun i => nth i l d) (List.seq a (b - a)).
Proof.
  intro Hb. unfold slice.
  destruct (Nat.le_gt_cases a b) as [Hab | Hab].
  - apply firstn_skipn_seq. lia.
  - replace (b - a)%nat with 0%nat by lia. reflexivity.
Qed.

Lemma region_entries (h w r0 r1 c0 c1 : nat) (brt : LuminanceMap) :
  rect h w brt -> (r1 <= h)%nat -> (c1 <= w)%nat ->
  region r0 r1 c0 c1 brt = entries r0 r1 c0 c1 brt.
Proof.
  intros [Hh Hw] Hr Hc. unfold region, entries, Np.ravel.
  rewrite (slice_seq [] brt) by lia.
  rewrite map_map, flat_map_concat_map. f_equal.
  apply map_ext_in. intros i Hi. apply in_seq in Hi.
  apply slice_seq.
  rewrite Forall_forall in Hw. rewrite (Hw (nth i brt [])); [lia |].
  apply nth_In. lia.
Qed.

Lemma length_flat_map_const {A B : Type} (f : A -> list B) (k : nat)
  (rows : list A) :
  (forall i, List.length (f i) = k) ->
  List.length (flat_map f rows) = (List.length rows * k)%nat.
Proof.
  intro Hf. induction rows as [| i rows IH]; [reflexivity |].
  cbn [flat_map List.length]. rewrite length_app, Hf, IH. lia.
Qed.

Lemma length_entries (r0 r1 c0 c1 : nat) (brt : LuminanceMap) :
  List.length (entries r0 r1 c0 c1 brt) = ((r1 - r0) * (c1 - c0))%nat.
Proof.
  unfold entries. rewrite (length_flat_map_const _ (c1 - c0)).
  - rewrite length_seq. reflexivity.
  - intro i. rewrite length_map, length_seq. reflexivity.
Qed.


(** ** Reflection estimator *)


Lemma reflection_empty_floor (img : PixelBuffer) (brt : LuminanceMap) :
  floor_region brt = [] ->
  analyze_reflection_quality img brt = Raise ValueError.
Proof.
  unfold floor_region, analyze_reflection_quality.
  destruct (Np.shape brt) as [h w]. intros ->. reflexivity.
Qed.


(** ** Uniform sequences *)

Lemma insert_Forall (P : Q -> Prop) (x : Q) (l : list Q) :
  P x -> Forall P l -> Forall P (Np.insert x l).
Proof.
  intros Hx Hl. induction Hl as [| y l Hy Hl IH]; cbn [Np.insert].
  - constructor; [exact Hx | constructor].
  - destruct (Qle_bool x y); repeat constructor; assumption.
Qed.

Lemma sort_Forall (P : Q -> Prop) (l : list Q) :
  Forall P l -> Forall P (Np.sort l).
Proof.
  induction 1 as [| x l Hx _ IH]; [constructor |].
  cbn [Np.sort fold_right]. apply insert_Forall; assumption.
Qed.

Lemma length_insert (x : Q) (l : list Q) :
  List.length (Np.insert x l) = S (List.length l).
Proof.
  induction l as [| y l IH]; [reflexivity |].
  cbn [Np.insert]. destruct (Qle_bool x y); cbn [List.length]; congruence.
Qed.

Lemma length_sort (l : list Q) : List.length (Np.sort l) = List.length l.
Proof.
  induction l as [| x l IH]; [reflexivity |].
  cbn [Np.sort fold_right]. rewrite length_insert. fold (Np.sort l).
  rewrite IH. reflexivity.
Qed.

Lemma uniform_nth (c : Q) (l : list Q) (i : nat) :
  uniform c l -> (i < List.length l)%nat -> nth i l 0 == c.
Proof.
  intros Hu Hi. unfold uniform in Hu. rewrite Forall_forall in Hu.
  apply Hu, nth_In, Hi.
Qed.

Lemma percentile_index_le (q : Q) (n : nat) :
  0 <= q <= 100 -> (py_int (q / 100 * nat2Q n) <= n)%nat.
Proof.
  intros Hq. unfold py_int.
  assert (Hn : 0 <= nat2Q n).
  { unfold nat2Q, Qle. simpl. lia. }
  assert (H : q / 100 * nat2Q n <= inject_Z (Z.of_nat n)).
  { fold (nat2Q n).
    assert (Hq' : q / 100 <= 1) by (apply Qle_shift_div_r; lra).
    assert (0 <= q / 100) by (apply Qle_shift_div_l; lra).
    nra. }
  apply Qfloor_resp_le in H. rewrite Qfloor_Z in H. lia.
Qed.

Lemma uniform_percentile (c : Q) (l : list Q) (q v : Q) :
  uniform c l -> 0 <= q <= 100 -> Np.percentile l q = Ok v -> v == c.
Proof.
  intros Hu Hq Hv. destruct l as [| x t]; [discriminate Hv |].
  unfold Np.percentile in Hv. cbv zeta in Hv.
  remember (x :: t) as l eqn:El.
  assert (Hlen : (1 <= List.length l)%nat) by (subst l; simpl; lia).
  pose proof (percentile_index_le q (List.length l - 1) Hq) as Hlo.
  pose proof (sort_Forall _ _ Hu) as Hs. fold (uniform c (Np.sort l)) in Hs.
  remember (py_int (q / 100 * nat2Q (List.length l - 1))) as lo eqn:Elo.
  assert (Ha : nth lo (Np.sort l) 0 == c).
  { apply uniform_nth; [exact Hs | rewrite length_sort; lia]. }
  assert (Hb : nth (Nat.min (lo + 1) (List.length l - 1)) (Np.sort l) 0 == c).
  { apply uniform_nth; [exact Hs | rewrite length_sort; lia]. }
  inversion Hv; subst v. rewrite Ha, Hb. ring.
Qed.

Lemma count_all {A : Type} (p : A -> bool) (l : list A) :
  Forall (fun x => p x = true) l -> Np.count p l = List.length l.
Proof.
  induction 1 as [| x l Hx _ IH]; [reflexivity |].
  rewrite count_cons, Hx, IH. reflexivity.
Qed.

Lemma count_none {A : Type} (p : A -> bool) (l : list A) :
  Forall (fun x => p x = false) l -> Np.count p l = 0%nat.
Proof.
  induction 1 as [| x l Hx _ IH]; [reflexivity |].
  rewrite count_cons, Hx, IH. reflexivity.
Qed.

Lemma pct_zero (n : nat) : pct 0 n == 0.
Proof.
  unfold pct. change (nat2Q 0) with 0. unfold Qdiv. ring.
Qed.

Lemma pct_all (n : nat) : (0 < n)%nat -> pct n n == 100.
Proof.
  intro H. unfold pct. pose proof (nat2Q_pos n H). field. lra.
Qed.

Lemma count_peaks_none_above (seq : list Q) (t : Q) :
  Forall (fun v => v <= t) seq -> count_peaks seq t = 0%nat.
Proof.
  induction 1 as [| a l Ha Hl IH]; [reflexivity |].
  destruct l as [| b l]; [reflexivity |].
  rewrite count_peaks_cons2, IH.
  inversion Hl as [| ? ? Hb _]; subst.
  apply Qgtb_false in Hb. rewrite Hb, andb_false_r. reflexivity.
Qed.

(** ** The analyzers on a dark map *)

Ltac frac_arith :=
  unfold frac_of; rewrite ?py_int_frac_r;
  Z.to_euclidean_division_equations; lia.

Lemma uniform_ravel (c : Q) (brt : LuminanceMap) :
  Forall (uniform c) brt -> uniform c (Np.ravel brt).
Proof.
  unfold Np.ravel, uniform. intro H. apply Forall_concat. exact H.
Qed.

Lemma luma_px_black (px : Pixel) :
  List.length px = 3%nat -> Forall (fun c : Q => c == 0) px ->
  luma_px px == 0.
Proof.
  intros Hl Hc.
  destruct px as [| r [| g [| b [| ? ?]]]]; try discriminate Hl.
  inversion Hc as [| ? ? Hr Hc1]; subst.
  inversion Hc1 as [| ? ? Hg Hc2]; subst.
  inversion Hc2 as [| ? ? Hb _]; subst.
  unfold luma_px, luma. cbn [nth]. rewrite Hr, Hg, Hb. ring.
Qed.

Lemma all_black_brightness (h w : nat) (img : PixelBuffer) :
  all_black h w img ->
  brightness img = Ok (map (map luma_px) img) /\
  rect h w (map (map luma_px) img) /\
  dark_map (map (map luma_px) img).
Proof.
  intros (Hrect & H3 & H0).
  split; [apply brightness_ok, H3 |].
  split; [apply rect_map_map, Hrect |].
  unfold dark_map, uniform, three_channels in *.
  rewrite Forall_forall in *. intros brow Hb.
  apply in_map_iff in Hb. destruct Hb as (row & <- & Hrow).
  specialize (H3 row Hrow). specialize (H0 row Hrow).
  rewrite Forall_forall in *. intros v Hv.
  apply in_map_iff in Hv. destruct Hv as (px & <- & Hpx).
  apply luma_px_black; [apply H3, Hpx | apply H0, Hpx].
Qed.

Lemma rect_size {A : Type} (h w : nat) (m : list (list A)) :
  rect h w m -> Np.size m = (h * w)%nat.
Proof.
  intros [Hh Hw]. subst h. unfold Np.size, Np.ravel.
  induction Hw as [| r m Hr _ IH]; [reflexivity |].
  cbn [concat List.length]. rewrite length_app, IH, Hr. reflexivity.
Qed.

Lemma distribution_dark (brt : LuminanceMap) :
  uniform 0 (Np.ravel brt) -> (0 < Np.size brt)%nat ->
  exists d,
    analyze_brightness_distribution brt = Ok d /\
    black d == 100 /\ very_dark d == 0 /\ dark d == 0 /\ mid d == 0 /\
    bright d == 0 /\ hot d == 0.
Proof.
  intros Hu Hn.
  assert (Hne : Np.ravel brt <> []).
  { unfold Np.size in Hn. destruct (Np.ravel brt); simpl in Hn;
      [lia | congruence]. }
  destruct (percentile_nonempty _ 95 Hne) as [v95 E95].
  destruct (percentile_nonempty _ 99 Hne) as [v99 E99].
  destruct (max_nonempty _ Hne) as [vm Em].
  unfold analyze_brightness_distribution. rewrite E95, E99, Em.
  cbn [bind]. eexists. split; [reflexivity |].
  cbn [black very_dark dark mid bright hot].
  assert (Hb : Np.count is_black (Np.ravel brt) = Np.size brt).
  { apply count_all. eapply Forall_impl; [| exact Hu].
    intros v Hv. cbv beta in Hv. unfold is_black. apply Qltb_spec. lra. }
  assert (Hz : forall p : Q -> bool,
             (forall v, v == 0 -> p v = false) ->
             Np.count p (Np.ravel brt) = 0%nat).
  { intros p Hp. apply count_none. eapply Forall_impl; [| exact Hu].
    intros v Hv. apply Hp, Hv. }
  rewrite Hb.
  rewrite (Hz is_vdark), (Hz is_dark), (Hz is_mid), (Hz is_bright),
          (Hz is_hot).
  - repeat split; try apply pct_zero. apply pct_all, Hn.
  - intros v Hv. unfold is_hot. apply Qgeb_false. lra.
  - intros v Hv. unfold is_bright. apply andb_false_iff. left.
    apply Qgeb_false. lra.
  - intros v Hv. unfold is_mid. apply andb_false_iff. left.
    apply Qgeb_false. lra.
  - intros v Hv. unfold is_dark. apply andb_false_iff. left.
    apply Qgeb_false. lra.
  - intros v Hv. unfold is_vdark. apply andb_false_iff. left.
    apply Qgeb_false. lra.
Qed.

Lemma scan_line_dark (seq : list Q) (r : ScanLineResult) :
  uniform 0 seq -> scan_line seq = Ok r ->
  contrast_ratio r == 0 /\ peak_count r = 0%nat.
Proof.
  intros Hu. unfold scan_line.
  destruct (Np.percentile seq 20) as [fl |] eqn:E20; [| discriminate].
  destruct (Np.percentile seq 90) as [ll |] eqn:E90; [| discriminate].
  cbn [bind]. intro H. inversion H; subst; clear H.
  cbn [contrast_ratio peak_count].
  assert (Hfl : fl == 0) by (apply (uniform_percentile 0 seq 20); [| lra |]; assumption).
  assert (Hll : ll == 0) by (apply (uniform_percentile 0 seq 90); [| lra |]; assumption).
  assert (Ec : Qltb fl 0.001 = true) by (apply Qltb_spec; lra).
  rewrite Ec. split.
  - rewrite Hll. unfold Qdiv. ring.
  - apply count_peaks_none_above.
    eapply Forall_impl; [| exact Hu]. intros v Hv. cbv beta in Hv. lra.
Qed.

Lemma col_at_uniform (c : Q) (brt : LuminanceMap) (x : nat) (col : list Q) :
  Forall (uniform c) brt -> col_at brt x = Ok col -> uniform c col.
Proof.
  unfold col_at. intro Hu. revert col.
  induction Hu as [| r t Hr _ IH]; intros col Hcol; cbn [mapM] in Hcol.
  - inversion Hcol. constructor.
  - destruct (getitem r x) as [v |] eqn:Ev; [| discriminate Hcol].
    cbn [bind] in Hcol.
    destruct (mapM (fun r0 => getitem r0 x) t) as [vs |]; [| discriminate Hcol].
    cbn [bind] in Hcol. inversion Hcol; subst col.
    constructor; [| apply IH; reflexivity].
    apply getitem_in in Ev. unfold uniform in Hr.
    rewrite Forall_forall in Hr. apply Hr, Ev.
Qed.

Lemma grid_dark (img : PixelBuffer) (brt : LuminanceMap)
  (grid : Dict ScanLineResult) :
  dark_map brt -> analyze_grid_lines img brt = Ok grid ->
  forall name r, In (name, r) grid ->
    contrast_ratio r == 0 /\ peak_count r = 0%nat.
Proof.
  intros Hd Hg name r Hin.
  destruct (analyze_grid_lines_inv img brt grid Hg) as [_ Hs].
  destruct (Hs name r Hin) as (seq & Hseq & Hr).
  apply (scan_line_dark seq); [| exact Hr].
  destruct Hseq as [Hrow | (x & Hcol)].
  - unfold dark_map in Hd. rewrite Forall_forall in Hd. apply Hd, Hrow.
  - apply (col_at_uniform 0 brt x); assumption.
Qed.

Lemma mask_pct_none {A : Type} (p : A -> bool) (m : list (list A)) :
  Forall (Forall (fun x => p x = false)) m ->
  mask_pct (map (map p) m) == 0.
Proof.
  intro H. unfold mask_pct. rewrite count_none; [apply pct_zero |].
  unfold Np.ravel. apply Forall_concat. apply Forall_map.
  eapply Forall_impl; [| exact H]. intros row Hrow.
  apply Forall_map. exact Hrow.
Qed.

Lemma colors_black (h w : nat) (img : PixelBuffer) :
  all_black h w img ->
  exists c,
    analyze_color_channels img = Ok c /\
    cyan_teal c == 0 /\ warm_red_orange c == 0 /\ purple_magenta c == 0 /\
    green c == 0 /\ white_hot c == 0.
Proof.
  intros (Hrect & H3 & H0). unfold analyze_color_channels.
  rewrite (channel_ok 0), (channel_ok 1), (channel_ok 2)
    by (apply three_channels_lt; [lia | exact H3]).
  cbn [bind]. rewrite !zip3_map. eexists. split; [reflexivity |].
  cbn [cyan_teal warm_red_orange purple_magenta green white_hot].
  assert (Hpx : forall p : Q -> Q -> Q -> bool,
            (forall r g b, r == 0 -> g == 0 -> b == 0 -> p r g b = false) ->
            Forall (Forall (fun px : Pixel =>
              p (nth 0 px 0) (nth 1 px 0) (nth 2 px 0) = false)) img).
  { intros p Hp. unfold three_channels in H3. rewrite Forall_forall in *.
    intros row Hrow. specialize (H3 row Hrow). specialize (H0 row Hrow).
    rewrite Forall_forall in *. intros px Hin.
    specialize (H3 px Hin). specialize (H0 px Hin).
    destruct px as [| r [| g [| b [| ? ?]]]]; try discriminate H3.
    inversion H0 as [| ? ? Hr Hc1]; subst.
    inversion Hc1 as [| ? ? Hg Hc2]; subst.
    inversion Hc2 as [| ? ? Hb _]; subst.
    cbn [nth]. apply Hp; assumption. }
  repeat split;
    (apply (mask_pct_none
              (fun px : Pixel => _ (nth 0 px 0) (nth 1 px 0) (nth 2 px 0)));
     apply Hpx; intros r g b Hr Hg Hb;
     apply andb_false_iff; left; apply andb_false_iff; left;
     apply Qgtb_false; lra).
Qed.

Lemma region_nonempty (h w r0 r1 c0 c1 : nat) (brt : LuminanceMap) :
  rect h w brt -> (r0 < r1 <= h)%nat -> (c0 < c1 <= w)%nat ->
  region r0 r1 c0 c1 brt <> [].
Proof.
  intros Hrect Hr Hc.
  rewrite (region_entries h w) by (exact Hrect || lia).
  apply nonempty_length. rewrite length_entries. nia.
Qed.

Lemma slice_incl {A : Type} (a b : nat) (l : list A) (x : A) :
  In x (slice a b l) -> In x l.
Proof.
  unfold slice. intro H.
  rewrite <- (firstn_skipn a l). apply in_or_app. right.
  rewrite <- (firstn_skipn (b - a) (skipn a l)). apply in_or_app. left.
  exact H.
Qed.

Lemma region_uniform (c : Q) (r0 r1 c0 c1 : nat) (brt : LuminanceMap) :
  Forall (uniform c) brt -> uniform c (region r0 r1 c0 c1 brt).
Proof.
  intro Hu. unfold region. apply uniform_ravel.
  rewrite Forall_forall in *. intros row Hrow.
  apply in_map_iff in Hrow. destruct Hrow as (row' & <- & Hin).
  apply slice_incl in Hin. specialize (Hu row' Hin).
  unfold uniform in *. rewrite Forall_forall in *.
  intros v Hv. apply Hu. eapply slice_incl, Hv.
Qed.

Lemma floor_rows (h : nat) :
  (3 <= h)%nat -> (frac_of h 0.6 < frac_of h 0.8 <= h)%nat.
Proof. intro H. frac_arith. Qed.

Lemma floor_cols (w : nat) :
  (2 <= w)%nat -> (frac_of w 0.2 < frac_of w 0.8 <= w)%nat.
Proof. intro H. frac_arith. Qed.

Lemma center_rows (h : nat) :
  (2 <= h)%nat -> (frac_of h 0.3 < frac_of h 0.7 <= h)%nat.
Proof. intro H. frac_arith. Qed.

Lemma bottom_rows (h : nat) :
  (4 <= h)%nat -> (frac_of h 0.6 < frac_of h 0.9 <= h)%nat.
Proof. intro H. frac_arith. Qed.

Lemma top_rows (h : nat) :
  (4 <= h)%nat -> (frac_of h 0.1 < frac_of h 0.3 <= h)%nat.
Proof. intro H. frac_arith. Qed.

Lemma regions_ok (h w : nat) (brt : LuminanceMap) :
  rect h w brt -> (4 <= h)%nat -> (2 <= w)%nat ->
  exists r, analyze_regions brt = Ok r.
Proof.
  intros Hrect Hh Hw. unfold analyze_regions.
  rewrite (rect_shape h w brt Hrect) by lia.
  destruct (percentile_nonempty
              (region (frac_of h 0.3) (frac_of h 0.7)
                      (frac_of w 0.3) (frac_of w 0.7) brt) 95) as [c95 ->].
  { apply (region_nonempty h w); [exact Hrect | |]; apply center_rows; lia. }
  destruct (percentile_nonempty
              (region (frac_of h 0.6) (frac_of h 0.9)
                      (frac_of w 0.2) (frac_of w 0.8) brt) 95) as [b95 ->].
  { apply (region_nonempty h w);
      [exact Hrect | apply bottom_rows; lia | apply floor_cols; lia]. }
  destruct (percentile_nonempty
              (region (frac_of h 0.1) (frac_of h 0.3)
                      (frac_of w 0.2) (frac_of w 0.8) brt) 95) as [t95 ->].
  { apply (region_nonempty h w);
      [exact Hrect | apply top_rows; lia | apply floor_cols; lia]. }
  cbn [bind]. eexists. reflexivity.
Qed.

Lemma floor_region_nonempty (h w : nat) (brt : LuminanceMap) :
  rect h w brt -> (3 <= h)%nat -> (2 <= w)%nat -> floor_region brt <> [].
Proof.
  intros Hrect Hh Hw. unfold floor_region.
  rewrite (rect_shape h w brt Hrect) by lia.
  apply (region_nonempty h w);
    [exact Hrect | apply floor_rows; lia | apply floor_cols; lia].
Qed.

Lemma floor_region_uniform (c : Q) (brt : LuminanceMap) :
  Forall (uniform c) brt -> uniform c (floor_region brt).
Proof.
  intro Hu. unfold floor_region. destruct (Np.shape brt) as [h w].
  apply region_uniform, Hu.
Qed.

Lemma reflection_uniform (img : PixelBuffer) (c : Q) (brt : LuminanceMap) :
  floor_region brt <> [] -> uniform c (floor_region brt) ->
  exists r s,
    analyze_reflection_quality img brt = Ok r /\
    floor_brightness_std r = Some s /\ s == 0 /\
    floor_has_variation r = "NO"%string.
Proof.
  intros Hne Hu.
  destruct (max_nonempty _ Hne) as [m Em].
  destruct (uniform_std c _ Hu Hne) as (s & Es & Hs).
  unfold analyze_reflection_quality. unfold floor_region in Em, Es.
  destruct (Np.shape brt) as [h w]. rewrite Em, Es. cbn [bind Np.scale option_map].
  eexists _, (s * 100). split; [reflexivity |].
  cbn [floor_brightness_std floor_has_variation Np.gt].
  split; [reflexivity |]. split; [rewrite Hs; ring |].
  assert (E3 : Qgtb (s * 100) 3.0 = false) by (apply Qgtb_false; lra).
  assert (E1 : Qgtb (s * 100) 1.0 = false) by (apply Qgtb_false; lra).
  rewrite E3, E1. reflexivity.
Qed.

(** ** End to end: the all-black buffer *)

Lemma grid_dark_mean (img : PixelBuffer) (brt : LuminanceMap)
  (grid : Dict ScanLineResult) :
  dark_map brt -> analyze_grid_lines img brt = Ok grid ->
  exists c, Np.mean (map contrast_ratio (values grid)) = Some c /\ c == 0.
Proof.
  intros Hd Hg. apply uniform_mean.
  - unfold uniform, values. rewrite map_map. apply Forall_map.
    apply Forall_forall. intros [name r] Hin.
    apply (grid_dark img brt grid Hd Hg name r Hin).
  - destruct (analyze_grid_lines_inv img brt grid Hg) as [Hn _].
    destruct grid; [discriminate Hn | discriminate].
Qed.

(** C2, as the code has it.  For an all-black buffer of at least 4 rows
    and 2 columns the pipeline returns a report with: black band 100 and
    the other five bands 0; the five colour percentages 0; eight scan
    lines, each with contrast ratio 0 (the 90th percentile 0 divided by
    the clamped floor 0.001); reflection deviation 0 and classification
    NO; and exactly the issues too dark, no grid floor, low contrast, no
    cyan, no SSR, without bloom overload. *)
Theorem all_black_report (h w : nat) (img : PixelBuffer) :
  (4 <= h)%nat -> (2 <= w)%nat -> all_black h w img ->
  exists rep,
    main img = Ok rep /\
    black (rep_dist rep) == 100 /\
    very_dark (rep_dist rep) == 0 /\ dark (rep_dist rep) == 0 /\
    mid (rep_dist rep) == 0 /\ bright (rep_dist rep) == 0 /\
    hot (rep_dist rep) == 0 /\
    cyan_teal (rep_colors rep) == 0 /\
    warm_red_orange (rep_colors rep) == 0 /\
    purple_magenta (rep_colors rep) == 0 /\
    green (rep_colors rep) == 0 /\ white_hot (rep_colors rep) == 0 /\
    map fst (rep_grid rep) = scan_names /\
    (forall name r, In (name, r) (rep_grid rep) -> contrast_ratio r == 0) /\
    (exists s, floor_brightness_std (rep_reflections rep) = Some s /\ s == 0) /\
    floor_has_variation (rep_reflections rep) = "NO"%string /\
    issues rep = [TOO_DARK; NO_GRID_FLOOR; LOW_CONTRAST; NO_CYAN; NO_SSR] /\
    ~ In BLOOM_OVERLOAD (issues rep).
Proof.
  intros Hh Hw Hblack.
  destruct (all_black_brightness h w img Hblack) as (Eb & Hrect & Hdark).
  set (brt := map (map luma_px) img) in *.
  assert (Hsize : (0 < Np.size brt)%nat).
  { rewrite (rect_size h w brt Hrect). nia. }
  destruct (distribution_dark brt (uniform_ravel 0 brt Hdark) Hsize)
    as (d & Ed & Hd1 & Hd2 & Hd3 & Hd4 & Hd5 & Hd6).
  destruct (analyze_grid_lines_ok img h w brt Hrect) as [grid Eg]; try lia.
  destruct (colors_black h w img Hblack)
    as (c & Ec & Hc1 & Hc2 & Hc3 & Hc4 & Hc5).
  destruct (regions_ok h w brt Hrect Hh Hw) as [regs Er].
  destruct (reflection_uniform img 0 brt) as (refl & s & Ef & Es & Hs & Hv).
  { apply (floor_region_nonempty h w); [exact Hrect | lia | lia]. }
  { apply floor_region_uniform, Hdark. }
  destruct (grid_dark_mean img brt grid Hdark Eg) as (avg & Ea & Havg).
  exists (format_report d grid c regs refl
            (List.length (hd [] img), List.length img)).
  split.
  { unfold main. rewrite Eb. cbn [bind]. fold brt.
    rewrite Ed, Eg, Ec, Er, Ef. reflexivity. }
  cbn [rep_dist rep_colors rep_grid rep_reflections format_report].
  repeat (split; [assumption |]).
  split; [apply (analyze_grid_lines_inv img brt grid Eg) |].
  split.
  { intros name r Hin. apply (grid_dark img brt grid Hdark Eg name r Hin). }
  split; [exists s; split; assumption |].
  split; [exact Hv |].
  assert (Ei : issues (format_report d grid c regs refl
                         (List.length (hd [] img), List.length img))
               = [TOO_DARK; NO_GRID_FLOOR; LOW_CONTRAST; NO_CYAN; NO_SSR]).
  { unfold format_report. cbn [issues]. rewrite Ea, Hv.
    assert (B1 : Qgtb (black d) 70 = true) by (apply Qgtb_spec; lra).
    assert (B2 : Qgtb (black d) 50 = true) by (apply Qgtb_spec; lra).
    assert (B3 : Qltb (dark d) 5 = true) by (apply Qltb_spec; lra).
    assert (B4 : Np.lt (Some avg) 2.0 = true) by (apply Qltb_spec; lra).
    assert (B5 : Qltb (cyan_teal c) 1.0 = true) by (apply Qltb_spec; lra).
    assert (B6 : Qgtb (hot d) 15 = false) by (apply Qgtb_false; lra).
    rewrite B1, B2, B3, B4, B5, B6. reflexivity. }
  split; [exact Ei |].
  rewrite Ei. cbn [In]. intuition discriminate.
Qed.

Lemma black_img_all_black (h w : nat) : all_black h w (black_img h w).
Proof.
  unfold all_black, black_img, rect, three_channels.
  split; [split; [apply repeat_length |] |].
  - apply Forall_forall. intros r Hr. apply repeat_spec in Hr. subst r.
    apply repeat_length.
  - split; apply Forall_forall; intros r Hr; apply repeat_spec in Hr; subst r;
      apply Forall_forall; intros px Hpx; apply repeat_spec in Hpx; subst px;
      [reflexivity | repeat constructor; reflexivity].
Qed.

Lemma all_black_report_witness :
  exists rep,
    main (black_img 4 2) = Ok rep /\
    issues rep = [TOO_DARK; NO_GRID_FLOOR; LOW_CONTRAST; NO_CYAN; NO_SSR].
Proof.
  destruct (all_black_report 4 2 (black_img 4 2))
    as (rep & Hm & H); [lia | lia | apply black_img_all_black |].
  exists rep. split; [exact Hm | apply H].
Defined.

(** ** The reflection estimator *)

Lemma region_no_rows (r0 r1 c0 c1 : nat) (brt : LuminanceMap) :
  (r1 <= r0)%nat -> region r0 r1 c0 c1 brt = [].
Proof.
  intro H. unfold region, slice.
  replace (r1 - r0)%nat with 0%nat by lia. reflexivity.
Qed.

Lemma region_no_cols (r0 r1 c0 c1 : nat) (brt : LuminanceMap) :
  (c1 <= c0)%nat -> region r0 r1 c0 c1 brt = [].
Proof.
  intro H. unfold region, Np.ravel.
  induction (slice r0 r1 brt) as [| row rows IH]; [reflexivity |].
  cbn [map concat]. rewrite IH. unfold slice.
  replace (c1 - c0)%nat with 0%nat by lia. reflexivity.
Qed.

Lemma floor_region_small (h w : nat) (brt : LuminanceMap) :
  rect h w brt -> (h < 3)%nat \/ (w < 2)%nat -> floor_region brt = [].
Proof.
  intros Hrect Hsmall. unfold floor_region.
  destruct h as [| h].
  - destruct Hrect as [Hh _]. destruct brt; [reflexivity | discriminate Hh].
  - rewrite (rect_shape (S h) w brt Hrect) by lia.
    destruct Hsmall as [Hh | Hw].
    + apply region_no_rows.
      destruct h as [| [| h]]; [vm_compute; lia | vm_compute; lia | lia].
    + apply region_no_cols.
      destruct w as [| [| w]]; [vm_compute; lia | vm_compute; lia | lia].
Qed.




(** The claim of C2 fails as stated.  On the all-black 4 by 2 buffer
    every scan line has a contrast ratio different from 1; and on the
    all-black 1 by 1 buffer the pipeline raises and returns no report. *)
Lemma all_black_contrast_not_one :
  all_black 4 2 (black_img 4 2) /\
  (exists rep,
     main (black_img 4 2) = Ok rep /\
     map fst (rep_grid rep) = scan_names /\
     forall name r, In (name, r) (rep_grid rep) -> ~ contrast_ratio r == 1) /\
  all_black 1 1 (black_img 1 1) /\
  (exists e, main (black_img 1 1) = Raise e).
Proof.
  split; [apply black_img_all_black |].
  split.
  - eexists. split; [vm_compute; reflexivity |].
    split; [reflexivity |].
    intros name r Hin. cbn [rep_grid In] in Hin.
    repeat (destruct Hin as [Hin | Hin];
            [inversion Hin; subst; clear Hin; intro H; vm_compute in H;
             discriminate H |]).
    destruct Hin.
  - split; [apply black_img_all_black |].
    eexists. vm_compute. reflexivity.
Qed.


(** ** Malformed buffers *)

Lemma mapM_raise_kind {A B : Type} (P : PyError -> Prop)
  (f : A -> result B) (l : list A) (e : PyError) :
  (forall x e', f x = Raise e' -> P e') -> mapM f l = Raise e -> P e.
Proof.
  intros Hf. induction l as [| x l IH]; cbn [mapM]; [discriminate |].
  destruct (f x) as [y |] eqn:Ex; cbn [bind].
  - destruct (mapM f l) as [ys |]; cbn [bind]; [discriminate |].
    intro H. inversion H; subst. apply IH. reflexivity.
  - intro H. inversion H; subst. apply (Hf x), Ex.
Qed.

Lemma mapM_raise {A B : Type} (f : A -> result B) (l : list A) (x : A) :
  In x l -> (exists e, f x = Raise e) -> exists e, mapM f l = Raise e.
Proof.
  intros Hin (e & He). induction l as [| y l IH]; [destruct Hin |].
  cbn [mapM]. destruct (f y) as [v |] eqn:Ey; cbn [bind].
  - destruct Hin as [-> | Hin]; [congruence |].
    destruct (IH Hin) as (e' & ->). cbn [bind]. eexists. reflexivity.
  - eexists. reflexivity.
Qed.

Lemma getitem_raise {A : Type} (l : list A) (i : nat) (e : PyError) :
  getitem l i = Raise e -> e = IndexError.
Proof.
  unfold getitem. destruct (nth_error l i); [discriminate |].
  intro H. inversion H. reflexivity.
Qed.

Lemma channel_raise (k : nat) (img : PixelBuffer) (e : PyError) :
  channel k img = Raise e -> e = IndexError.
Proof.
  unfold channel.
  apply (mapM_raise_kind (fun e' => e' = IndexError)). intros row e'.
  apply (mapM_raise_kind (fun e'' => e'' = IndexError)). intros px e''.
  apply getitem_raise.
Qed.

Lemma channel_short (k : nat) (img : PixelBuffer) (px : Pixel) :
  In px (Np.ravel img) -> (List.length px <= k)%nat ->
  channel k img = Raise IndexError.
Proof.
  intros Hin Hk. unfold Np.ravel in Hin. apply in_concat in Hin.
  destruct Hin as (row & Hrow & Hpx).
  assert (H : exists e, channel k img = Raise e).
  { unfold channel. apply (mapM_raise _ img row Hrow).
    apply (mapM_raise _ row px Hpx).
    exists IndexError. unfold getitem.
    apply nth_error_None in Hk. rewrite Hk. reflexivity. }
  destruct H as (e & He). rewrite He.
  rewrite (channel_raise k img e He). reflexivity.
Qed.

Lemma brightness_too_few (img : PixelBuffer) :
  too_few_channels img -> brightness img = Raise IndexError.
Proof.
  intros (px & Hin & Hlen). unfold brightness.
  destruct (channel 0 img) as [r |] eqn:E0; cbn [bind];
    [| rewrite (channel_raise 0 img e E0); reflexivity].
  destruct (channel 1 img) as [g |] eqn:E1; cbn [bind];
    [| rewrite (channel_raise 1 img e E1); reflexivity].
  rewrite (channel_short 2 img px Hin) by lia. reflexivity.
Qed.

Lemma zero_pixels_rows (img : PixelBuffer) :
  zero_pixels img -> Forall (fun row => row = []) img.
Proof.
  unfold zero_pixels, Np.size, Np.ravel.
  induction img as [| row img IH]; [constructor |].
  cbn [concat]. rewrite length_app. intro H.
  constructor; [destruct row; [reflexivity | simpl in H; lia] |].
  apply IH. lia.
Qed.

Lemma brightness_zero_pixels (img : PixelBuffer) :
  zero_pixels img ->
  exists brt, brightness img = Ok brt /\ Np.ravel brt = [].
Proof.
  intro Hz. pose proof (zero_pixels_rows img Hz) as Hrows.
  exists (map (map luma_px) img). split.
  - apply brightness_ok. unfold three_channels.
    eapply Forall_impl; [| exact Hrows]. intros row ->. constructor.
  - unfold Np.ravel. clear Hz.
    induction Hrows as [| row t Hr _ IH]; [reflexivity |].
    subst row. cbn [map concat app]. exact IH.
Qed.

Lemma mapM_map {A B C : Type} (f : B -> result C) (g : A -> B)
  (l : list A) :
  mapM f (map g l) = mapM (fun x => f (g x)) l.
Proof.
  induction l as [| x l IH]; [reflexivity |].
  cbn [map mapM]. rewrite IH. reflexivity.
Qed.

Lemma mapM_ext {A B : Type} (f g : A -> result B) (l : list A) :
  (forall x, f x = g x) -> mapM f l = mapM g l.
Proof.
  intro H. induction l as [| x l IH]; [reflexivity |].
  cbn [mapM]. rewrite H, IH. reflexivity.
Qed.

Lemma channel_firstn (k : nat) (img : PixelBuffer) :
  (k < 3)%nat -> channel k (map (map (firstn 3)) img) = channel k img.
Proof.
  intro Hk. unfold channel. rewrite mapM_map. apply mapM_ext. intro row.
  rewrite mapM_map. apply mapM_ext. intro px.
  unfold getitem. rewrite nth_error_firstn.
  apply Nat.ltb_lt in Hk. rewrite Hk. reflexivity.
Qed.

Lemma length_hd_map {A B : Type} (f : A -> B) (m : list (list A)) :
  List.length (hd [] (map (map f) m)) = List.length (hd [] m).
Proof.
  destruct m; [reflexivity |]. cbn [map hd]. apply length_map.
Qed.

(** The claim of C8 fails on a buffer with a wrong channel count: the
    4 by 2 buffer with four channels is analysed and a report is
    returned. *)
Lemma rgba_not_rejected :
  wrong_channel_count rgba_img /\ exists rep, main rgba_img = Ok rep.
Proof.
  split.
  - exists [0.9; 0.9; 0.9; 1]. split; [left; reflexivity | discriminate].
  - eexists. vm_compute. reflexivity.
Qed.

(** C8, as the code has it.  The pipeline has no validation and no
    InvalidInput error.  A buffer of zero pixels makes it raise a Python
    exception, and one with a pixel of fewer than three channels makes
    it raise IndexError, so no report is returned; channels after the
    third are ignored, the report being that of the first three. *)
Theorem malformed_buffer :
  (forall img, zero_pixels img -> exists e, main img = Raise e) /\
  (forall img, too_few_channels img -> main img = Raise IndexError) /\
  (forall img, main (map (map (firstn 3)) img) = main img).
Proof.
  split; [| split].
  - intros img Hz.
    destruct (brightness_zero_pixels img Hz) as (brt & Eb & Hr).
    exists IndexError. unfold main. rewrite Eb. cbn [bind].
    unfold analyze_brightness_distribution. rewrite Hr. reflexivity.
  - intros img Hf. unfold main.
    rewrite (brightness_too_few img Hf). reflexivity.
  - intro img. unfold main, brightness, analyze_color_channels.
    rewrite !channel_firstn by lia.
    rewrite length_map, length_hd_map. reflexivity.
Qed.

Lemma malformed_buffer_witness :
  main [[[0.5; 0.5]]] = Raise IndexError.
Proof.
  apply (proj1 (proj2 malformed_buffer)).
  exists [0.5; 0.5]. split; [left; reflexivity | simpl; lia].
Defined.

(** * Further properties *)

(** ** Luminance between the channels *)

Lemma luma_between (lo hi r g b : Q) :
  lo <= r <= hi -> lo <= g <= hi -> lo <= b <= hi ->
  lo <= luma r g b <= hi.
Proof.
  unfold luma. intros. lra.
Qed.

Lemma luma_px_between (lo hi : Q) (px : Pixel) :
  List.length px = 3%nat -> Forall (fun c : Q => lo <= c <= hi) px ->
  lo <= luma_px px <= hi.
Proof.
  intros Hl Hc.
  destruct px as [| r [| g [| b [| ? ?]]]]; try discriminate Hl.
  inversion Hc as [| ? ? Hr Hc1]; subst.
  inversion Hc1 as [| ? ? Hg Hc2]; subst.
  inversion Hc2 as [| ? ? Hb _]; subst.
  unfold luma_px. cbn [nth]. apply luma_between; assumption.
Qed.

(** X1. The three weights add up to 1, so the luminance of a pixel lies
    between its smallest and its largest channel: on a buffer of
    three-channel pixels with all channels in [lo, hi], [brightness]
    returns a map with all values in [lo, hi]; a grey pixel [(v, v, v)]
    keeps its value [v]; and the luminance does not decrease when a
    channel increases. *)
Theorem brightness_between_channels (lo hi : Q) (img : PixelBuffer) :
  three_channels img -> channels_between lo hi img ->
  exists brt,
    brightness img = Ok brt /\
    Forall (Forall (fun v => lo <= v <= hi)) brt /\
    (forall v, luma v v v == v) /\
    (forall r g b r' g' b', r <= r' -> g <= g' -> b <= b' ->
       luma r g b <= luma r' g' b').
Proof.
  intros H3 Hc. exists (map (map luma_px) img).
  split; [apply brightness_ok, H3 |].
  split.
  - unfold three_channels, channels_between in *.
    rewrite Forall_forall in *. intros brow Hb.
    apply in_map_iff in Hb. destruct Hb as (row & <- & Hrow).
    specialize (H3 row Hrow). specialize (Hc row Hrow).
    rewrite Forall_forall in *. intros v Hv.
    apply in_map_iff in Hv. destruct Hv as (px & <- & Hpx).
    apply luma_px_between; [apply H3, Hpx | apply Hc, Hpx].
  - split.
    + intro v. unfold luma. ring.
    + intros r g b r' g' b' Hr Hg Hb. unfold luma. lra.
Qed.

Lemma brightness_between_channels_witness :
  exists brt,
    brightness stripes = Ok brt /\
    Forall (Forall (fun v => 0.05 <= v <= 0.20)) brt.
Proof.
  destruct (brightness_between_channels 0.05 0.20 stripes)
    as (brt & Hb & Hv & _).
  - apply stripes_valid.
  - unfold channels_between, stripes. cbn [repeat].
    repeat constructor; unfold Qle; simpl; lia.
  - exists brt. split; assumption.
Defined.

(** ** Colour percentages *)

Lemma count_le_length {A : Type} (p : A -> bool) (l : list A) :
  (Np.count p l <= List.length l)%nat.
Proof.
  induction l as [| x l IH]; [apply Nat.le_refl |].
  rewrite count_cons. cbn [List.length]. destruct (p x); simpl; lia.
Qed.

Lemma pct_bounds (c n : nat) :
  (c <= n)%nat -> (0 < n)%nat -> 0 <= pct c n <= 100.
Proof.
  intros Hc Hn. unfold pct.
  pose proof (nat2Q_pos n Hn) as Hp.
  assert (H0 : 0 <= nat2Q c) by (unfold nat2Q, Qle; simpl; lia).
  assert (H1 : nat2Q c <= nat2Q n) by (unfold nat2Q, Qle; simpl; lia).
  assert (Hd0 : 0 <= nat2Q c / nat2Q n) by (apply Qle_shift_div_l; lra).
  assert (Hd1 : nat2Q c / nat2Q n <= 1) by (apply Qle_shift_div_r; lra).
  lra.
Qed.

Lemma pct_sum_le (a b n : nat) :
  (a + b <= n)%nat -> (0 < n)%nat -> pct a n + pct b n <= 100.
Proof.
  intros Hab Hn.
  pose proof (pct_bounds (a + b) n Hab Hn) as [_ H].
  unfold pct in *. rewrite nat2Q_plus in H.
  pose proof (nat2Q_pos n Hn) as Hp.
  assert (E : (nat2Q a + nat2Q b) / nat2Q n * 100
              == nat2Q a / nat2Q n * 100 + nat2Q b / nat2Q n * 100)
    by (field; lra).
  rewrite E in H. exact H.
Qed.

Lemma count_map_id {A : Type} (p : A -> bool) (l : list A) :
  Np.count (fun b : bool => b) (map p l) = Np.count p l.
Proof.
  induction l as [| x l IH]; [reflexivity |].
  cbn [map]. rewrite !count_cons, IH. reflexivity.
Qed.

Lemma ravel_map_map {A B : Type} (f : A -> B) (m : list (list A)) :
  Np.ravel (map (map f) m) = map f (Np.ravel m).
Proof.
  unfold Np.ravel. rewrite concat_map. reflexivity.
Qed.

Lemma mask_pct_map {A : Type} (p : A -> bool) (m : list (list A)) :
  mask_pct (map (map p) m) = pct (Np.count p (Np.ravel m)) (Np.size m).
Proof.
  unfold mask_pct, Np.size.
  rewrite ravel_map_map, count_map_id, length_map. reflexivity.
Qed.

Lemma analyze_color_channels_ok (img : PixelBuffer) :
  three_channels img ->
  analyze_color_channels img
  = Ok {| cyan_teal := pct (Np.count cyan_px (Np.ravel img)) (Np.size img);
          warm_red_orange :=
            pct (Np.count warm_px (Np.ravel img)) (Np.size img);
          purple_magenta :=
            pct (Np.count purple_px (Np.ravel img)) (Np.size img);
          green := pct (Np.count green_px (Np.ravel img)) (Np.size img);
          white_hot := pct (Np.count white_px (Np.ravel img)) (Np.size img) |}.
Proof.
  intro H3. unfold analyze_color_channels.
  rewrite (channel_ok 0), (channel_ok 1), (channel_ok 2)
    by (apply three_channels_lt; [lia | exact H3]).
  cbn [bind]. rewrite !zip3_map.
  rewrite (mask_pct_map cyan_px), (mask_pct_map warm_px),
    (mask_pct_map purple_px), (mask_pct_map green_px),
    (mask_pct_map white_px).
  reflexivity.
Qed.

Lemma count_disjoint {A : Type} (p q : A -> bool) (l : list A) :
  (forall x, p x = true -> q x = false) ->
  (Np.count p l + Np.count q l <= List.length l)%nat.
Proof.
  intro H. induction l as [| x l IH]; [apply Nat.le_refl |].
  rewrite !count_cons. cbn [List.length].
  specialize (H x).
  destruct (p x), (q x); simpl; try lia;
    specialize (H eq_refl); discriminate H.
Qed.

Lemma cyan_green_not_warm_purple (r g b : Q) :
  is_cyan r g b = true \/ is_green r g b = true ->
  is_warm r g b = false /\ is_purple r g b = false.
Proof.
  unfold is_cyan, is_green, is_warm, is_purple.
  intros [H | H]; qbool;
    (split; apply andb_false_iff;
     [left; apply andb_false_iff; right; apply Qgtb_false; lra
     | right; apply Qltb_false; lra]).
Qed.

Lemma four_colors_three : three_channels four_colors.
Proof.
  unfold three_channels, four_colors. repeat constructor.
Qed.

(** X2. On a buffer of three-channel pixels with at least one pixel the
    colour classifier raises nothing and each of its five percentages
    lies in [0, 100]. *)
Theorem color_percentages_bounded (img : PixelBuffer) :
  three_channels img -> (0 < Np.size img)%nat ->
  exists c,
    analyze_color_channels img = Ok c /\
    0 <= cyan_teal c <= 100 /\ 0 <= warm_red_orange c <= 100 /\
    0 <= purple_magenta c <= 100 /\ 0 <= green c <= 100 /\
    0 <= white_hot c <= 100.
Proof.
  intros H3 Hn. eexists. split; [apply analyze_color_channels_ok, H3 |].
  cbn [cyan_teal warm_red_orange purple_magenta green white_hot].
  repeat split; apply pct_bounds; try exact Hn; apply count_le_length.
Qed.

Lemma color_percentages_bounded_witness :
  exists c,
    analyze_color_channels four_colors = Ok c /\
    0 <= cyan_teal c <= 100 /\ 0 <= warm_red_orange c <= 100 /\
    0 <= purple_magenta c <= 100 /\ 0 <= green c <= 100 /\
    0 <= white_hot c <= 100.
Proof.
  apply (color_percentages_bounded four_colors).
  - apply four_colors_three.
  - vm_compute. lia.
Defined.

(** X3. The colour categories overlap only in part.  No pixel is both
    cyan or green and warm or purple: cyan needs [R < 0.3 G] and green
    [G > 2 R], while warm needs [R > 1.5 G] and purple [G < 0.5 R].  So
    on a buffer of three-channel pixels with at least one pixel the
    cyan and the green percentage each add up to at most 100 with the
    warm and with the purple one. *)
Theorem color_families_exclusive (img : PixelBuffer) :
  three_channels img -> (0 < Np.size img)%nat ->
  (forall r g b,
     is_cyan r g b = true \/ is_green r g b = true ->
     is_warm r g b = false /\ is_purple r g b = false) /\
  exists c,
    analyze_color_channels img = Ok c /\
    cyan_teal c + warm_red_orange c <= 100 /\
    cyan_teal c + purple_magenta c <= 100 /\
    green c + warm_red_orange c <= 100 /\
    green c + purple_magenta c <= 100.
Proof.
  intros H3 Hn. split; [exact cyan_green_not_warm_purple |].
  eexists. split; [apply analyze_color_channels_ok, H3 |].
  cbn [cyan_teal warm_red_orange purple_magenta green].
  repeat split; apply pct_sum_le; try exact Hn;
    apply count_disjoint; intros px Hpx;
    unfold cyan_px, green_px, warm_px, purple_px in *;
    apply (cyan_green_not_warm_purple (nth 0 px 0) (nth 1 px 0) (nth 2 px 0));
    auto.
Qed.

Lemma color_families_exclusive_witness :
  exists c,
    analyze_color_channels four_colors = Ok c /\
    cyan_teal c + warm_red_orange c <= 100.
Proof.
  destruct (color_families_exclusive four_colors) as (_ & c & Hc & H & _).
  - apply four_colors_three.
  - vm_compute. lia.
  - exists c. split; assumption.
Defined.

(** ** Bounds and invariance of the peak count *)

Lemma count_peaks_half_aux (t : Q) (l : list Q) :
  (count_peaks l t <= List.length l / 2)%nat /\
  (forall a l', l = a :: l' -> Qle_bool a t = false ->
     (count_peaks l t <= List.length l' / 2)%nat).
Proof.
  induction l as [| a l [IHP IHQ]].
  - split; [apply Nat.le_0_l | intros a l' H; discriminate H].
  - destruct l as [| b l].
    + split; [apply Nat.le_0_l |].
      intros a' l' H _. inversion H; subst. apply Nat.le_0_l.
    + rewrite count_peaks_cons2.
      assert (Hdiv : (S (S (List.length l)) / 2 = List.length l / 2 + 1)%nat).
      { replace (S (S (List.length l))) with (List.length l + 1 * 2)%nat by lia.
        apply Nat.div_add. lia. }
      assert (Hmono : (S (List.length l) / 2 <= List.length l / 2 + 1)%nat).
      { rewrite <- Hdiv. apply Nat.Div0.div_le_mono. lia. }
      cbn [List.length] in *. split.
      * destruct (Qle_bool a t) eqn:Ea; cbn [andb b2n]; [| lia].
        destruct (Qgtb b t) eqn:Eb; cbn [b2n]; [| lia].
        assert (Eb' : Qle_bool b t = false).
        { unfold Qgtb, Qltb in Eb. apply negb_true_iff in Eb. exact Eb. }
        specialize (IHQ b l eq_refl Eb'). lia.
      * intros a' l' H Ha. inversion H; subst.
        rewrite Ha. cbn [andb b2n List.length]. lia.
Qed.

Lemma col_at_length (brt : LuminanceMap) (x : nat) (col : list Q) :
  col_at brt x = Ok col -> List.length col = List.length brt.
Proof.
  unfold col_at. revert col.
  induction brt as [| r t IH]; intros col H; cbn [mapM] in H.
  - inversion H. reflexivity.
  - destruct (getitem r x) as [v |]; [| discriminate H]. cbn [bind] in H.
    destruct (mapM (fun r0 => getitem r0 x) t) as [vs |];
      [| discriminate H].
    cbn [bind] in H. inversion H; subst. cbn [List.length].
    rewrite (IH vs eq_refl). reflexivity.
Qed.

Lemma scan_line_peak_count (seq : list Q) (r : ScanLineResult) :
  scan_line seq = Ok r -> (peak_count r <= List.length seq / 2)%nat.
Proof.
  unfold scan_line.
  destruct (Np.percentile seq 20) as [fl |]; [| discriminate].
  destruct (Np.percentile seq 90) as [ll |]; [| discriminate].
  cbn [bind]. intro H. inversion H; subst. cbn [peak_count].
  apply count_peaks_half_aux.
Qed.

(** X4. Two rising edges are never adjacent, so [count_peaks] returns
    at most half the length of the sequence, at every threshold.  On an
    [h] by [w] luminance map every entry of the grid line detector
    therefore has a peak count of at most [max(h, w) / 2]. *)
Theorem peak_count_at_most_half :
  (forall seq t, (count_peaks seq t <= List.length seq / 2)%nat) /\
  (forall img h w brt grid name r,
     rect h w brt -> analyze_grid_lines img brt = Ok grid ->
     In (name, r) grid -> (peak_count r <= Nat.max h w / 2)%nat).
Proof.
  split.
  - intros seq t. apply count_peaks_half_aux.
  - intros img h w brt grid name r [Hh Hw] Hg Hin.
    destruct (analyze_grid_lines_inv img brt grid Hg) as [_ Hs].
    destruct (Hs name r Hin) as (seq & Hseq & Hr).
    pose proof (scan_line_peak_count seq r Hr) as Hp.
    assert (Hl : (List.length seq <= Nat.max h w)%nat).
    { destruct Hseq as [Hrow | (x & Hcol)].
      - rewrite Forall_forall in Hw. rewrite (Hw seq Hrow). lia.
      - rewrite (col_at_length brt x seq Hcol). lia. }
    apply Nat.le_trans with (List.length seq / 2)%nat; [exact Hp |].
    apply Nat.Div0.div_le_mono. exact Hl.
Qed.

Lemma peak_count_at_most_half_witness :
  Forall (fun e : string * ScanLineResult => (peak_count (snd e) <= 2)%nat)
         stripes_grid.
Proof.
  apply Forall_forall. intros [name r] Hin.
  apply (proj2 peak_count_at_most_half stripes 4%nat 4%nat stripes_brt
           stripes_grid name r).
  - apply (rect_map_map luma_px 4 4 stripes). apply stripes_valid.
  - vm_compute. reflexivity.
  - exact Hin.
Defined.

(** X5. The peak count sees only which samples exceed the threshold:
    applying one strictly increasing transfer function (a gain, an
    offset, a gamma curve) to every sample and to the threshold leaves
    it unchanged. *)
Theorem count_peaks_monotone_invariant (f : Q -> Q) (seq : list Q) (t : Q) :
  (forall x y, x < y <-> f x < f y) ->
  count_peaks (map f seq) (f t) = count_peaks seq t.
Proof.
  intro Hf.
  assert (Hgt : forall v, Qgtb (f v) (f t) = Qgtb v t).
  { intro v. destruct (Qgtb v t) eqn:E.
    - apply Qgtb_spec. apply (proj1 (Hf t v)). apply Qgtb_spec. exact E.
    - destruct (Qgtb (f v) (f t)) eqn:E'; [| reflexivity].
      apply Qgtb_spec in E'. apply (proj2 (Hf t v)) in E'.
      apply Qgtb_spec in E'. congruence. }
  assert (E : map (fun v => Qgtb v (f t)) (map f seq)
              = map (fun v => Qgtb v t) seq).
  { rewrite map_map. apply map_ext. exact Hgt. }
  unfold count_peaks. rewrite E. reflexivity.
Qed.

Lemma count_peaks_monotone_invariant_witness :
  count_peaks (map (fun v => 2 * v + 0.1) [0.05; 0.20; 0.05]) (2 * 0.1 + 0.1)
  = count_peaks [0.05; 0.20; 0.05] 0.1.
Proof.
  apply (count_peaks_monotone_invariant (fun v => 2 * v + 0.1)).
  intros x y. split; intro H; lra.
Defined.

(** ** Order statistics *)

Lemma insert_sorted (x : Q) (l : list Q) :
  StronglySorted Qle l -> StronglySorted Qle (Np.insert x l).
Proof.
  induction 1 as [| y t Ht IH Hy]; cbn [Np.insert].
  - repeat constructor.
  - destruct (Qle_bool x y) eqn:E.
    + apply Qle_bool_iff in E. constructor.
      * constructor; assumption.
      * constructor; [exact E |].
        eapply Forall_impl; [| exact Hy]. intros z Hz. cbv beta in Hz. lra.
    + constructor; [exact IH |].
      apply insert_Forall; [| exact Hy].
      destruct (Qlt_le_dec y x) as [H | H]; [lra |].
      apply Qle_bool_iff in H. congruence.
Qed.

Lemma sort_sorted (l : list Q) : StronglySorted Qle (Np.sort l).
Proof.
  induction l as [| x l IH]; [constructor |].
  cbn [Np.sort fold_right]. apply insert_sorted. exact IH.
Qed.

Lemma sorted_nth (s : list Q) (i j : nat) :
  StronglySorted Qle s -> (i <= j < List.length s)%nat ->
  nth i s 0 <= nth j s 0.
Proof.
  intro Hs. revert i j. induction Hs as [| a t Ht IH Ha]; intros i j Hij.
  - simpl in Hij. lia.
  - destruct i as [| i], j as [| j]; cbn [nth List.length] in *.
    + lra.
    + rewrite Forall_forall in Ha. apply Ha, nth_In. lia.
    + lia.
    + apply IH. lia.
Qed.

(** The interpolation of [Np.percentile] at position [pos] of sorted
    data. *)
Lemma percentile_unfold (x : Q) (t : list Q) (q : Q) :
  let l := x :: t in
  let pos := q / 100 * nat2Q (List.length l - 1) in
  let lo := py_int pos in
  Np.percentile l q
  = Ok (nth lo (Np.sort l) 0
        + (nth (Nat.min (lo + 1) (List.length l - 1)) (Np.sort l) 0
           - nth lo (Np.sort l) 0) * (pos - nat2Q lo)).
Proof. reflexivity. Qed.

Lemma py_int_frac_part (pos : Q) :
  0 <= pos -> 0 <= pos - nat2Q (py_int pos) < 1.
Proof.
  intro H. unfold py_int, nat2Q.
  assert (H0 : (0 <= Qfloor pos)%Z).
  { rewrite <- (Qfloor_Z 0). apply Qfloor_resp_le. exact H. }
  rewrite Z2Nat.id by exact H0.
  pose proof (Qfloor_le pos). pose proof (Qlt_floor pos) as Hlt.
  rewrite inject_Z_plus in Hlt. change (inject_Z 1) with 1 in Hlt. lra.
Qed.

Lemma py_int_mono (p1 p2 : Q) :
  p1 <= p2 -> (py_int p1 <= py_int p2)%nat.
Proof.
  intro H. unfold py_int. apply Qfloor_resp_le in H. lia.
Qed.

Lemma convex_between (lo hi a b g : Q) :
  lo <= a <= hi -> lo <= b <= hi -> 0 <= g <= 1 ->
  lo <= a + (b - a) * g <= hi.
Proof.
  intros Ha Hb Hg.
  assert (H1 : 0 <= (1 - g) * (a - lo)) by (apply Qmult_le_0_compat; lra).
  assert (H2 : 0 <= g * (b - lo)) by (apply Qmult_le_0_compat; lra).
  assert (H3 : 0 <= (1 - g) * (hi - a)) by (apply Qmult_le_0_compat; lra).
  assert (H4 : 0 <= g * (hi - b)) by (apply Qmult_le_0_compat; lra).
  split; lra.
Qed.

Lemma interp_mono_same (a b g1 g2 : Q) :
  a <= b -> g1 <= g2 -> a + (b - a) * g1 <= a + (b - a) * g2.
Proof.
  intros Hab Hg.
  assert (0 <= (b - a) * (g2 - g1)) by (apply Qmult_le_0_compat; lra).
  lra.
Qed.

Lemma interp_mono_step (a1 b1 g1 a2 b2 g2 : Q) :
  a1 <= b1 -> b1 <= a2 -> a2 <= b2 -> g1 <= 1 -> 0 <= g2 ->
  a1 + (b1 - a1) * g1 <= a2 + (b2 - a2) * g2.
Proof.
  intros H1 H2 H3 Hg1 Hg2.
  assert (0 <= (b1 - a1) * (1 - g1)) by (apply Qmult_le_0_compat; lra).
  assert (0 <= (b2 - a2) * g2) by (apply Qmult_le_0_compat; lra).
  lra.
Qed.

Lemma percentile_pos_bounds (q : Q) (n : nat) :
  0 <= q <= 100 -> 0 <= q / 100 * nat2Q n <= nat2Q n.
Proof.
  intro Hq.
  assert (Hn : 0 <= nat2Q n) by (unfold nat2Q, Qle; simpl; lia).
  assert (Hq1 : q / 100 <= 1) by (apply Qle_shift_div_r; lra).
  assert (Hq0 : 0 <= q / 100) by (apply Qle_shift_div_l; lra).
  split; [apply Qmult_le_0_compat; assumption |].
  assert (0 <= (1 - q / 100) * nat2Q n)
    by (apply Qmult_le_0_compat; lra).
  lra.
Qed.

Lemma percentile_bounds (lo hi : Q) (l : list Q) (q v : Q) :
  Forall (fun x => lo <= x <= hi) l -> 0 <= q <= 100 ->
  Np.percentile l q = Ok v -> lo <= v <= hi.
Proof.
  intros Hl Hq Hv. destruct l as [| x t]; [discriminate Hv |].
  rewrite percentile_unfold in Hv. cbv zeta in Hv.
  remember (x :: t) as l eqn:El.
  assert (Hlen : (1 <= List.length l)%nat) by (subst l; simpl; lia).
  pose proof (percentile_index_le q (List.length l - 1) Hq) as Hlo.
  pose proof (percentile_pos_bounds q (List.length l - 1) Hq) as [Hp0 _].
  pose proof (py_int_frac_part _ Hp0) as Hg.
  pose proof (sort_Forall _ _ Hl) as Hs. rewrite Forall_forall in Hs.
  remember (q / 100 * nat2Q (List.length l - 1)) as pos eqn:Epos.
  remember (py_int pos) as i eqn:Ei.
  inversion Hv; subst v. apply convex_between; try lra;
    apply Hs, nth_In; rewrite length_sort; lia.
Qed.

Lemma percentile_mono (l : list Q) (q1 q2 v1 v2 : Q) :
  0 <= q1 -> q1 <= q2 -> q2 <= 100 ->
  Np.percentile l q1 = Ok v1 -> Np.percentile l q2 = Ok v2 -> v1 <= v2.
Proof.
  intros H0 H12 H100 Hv1 Hv2. destruct l as [| x t]; [discriminate Hv1 |].
  rewrite percentile_unfold in Hv1, Hv2. cbv zeta in Hv1, Hv2.
  remember (x :: t) as l eqn:El.
  assert (Hlen : (1 <= List.length l)%nat) by (subst l; simpl; lia).
  assert (Hq1 : 0 <= q1 <= 100) by lra.
  assert (Hq2 : 0 <= q2 <= 100) by lra.
  pose proof (percentile_index_le q1 (List.length l - 1) Hq1) as Hi1.
  pose proof (percentile_index_le q2 (List.length l - 1) Hq2) as Hi2.
  pose proof (percentile_pos_bounds q1 (List.length l - 1) Hq1) as [Hp1 _].
  pose proof (percentile_pos_bounds q2 (List.length l - 1) Hq2) as [Hp2 _].
  assert (Hpos : q1 / 100 * nat2Q (List.length l - 1)
                 <= q2 / 100 * nat2Q (List.length l - 1)).
  { assert (Hn : 0 <= nat2Q (List.length l - 1))
      by (unfold nat2Q, Qle; simpl; lia).
    assert (Hd : q1 / 100 <= q2 / 100).
    { unfold Qdiv. apply Qmult_le_compat_r; [exact H12 |].
      unfold Qle. simpl. lia. }
    apply Qmult_le_compat_r; assumption. }
  pose proof (py_int_frac_part _ Hp1) as Hg1.
  pose proof (py_int_frac_part _ Hp2) as Hg2.
  pose proof (py_int_mono _ _ Hpos) as Hij.
  pose proof (sort_sorted l) as Hs.
  pose proof (length_sort l) as Hls.
  remember (q1 / 100 * nat2Q (List.length l - 1)) as p1 eqn:Ep1.
  remember (q2 / 100 * nat2Q (List.length l - 1)) as p2 eqn:Ep2.
  remember (py_int p1) as i eqn:Ei.
  remember (py_int p2) as j eqn:Ej.
  remember (Np.sort l) as s eqn:Es.
  inversion Hv1; subst v1. inversion Hv2; subst v2. clear Hv1 Hv2.
  set (n1 := (List.length l - 1)%nat) in *.
  assert (Ha1 : nth i s 0 <= nth (Nat.min (i + 1) n1) s 0)
    by (apply sorted_nth; [exact Hs | lia]).
  assert (Ha2 : nth j s 0 <= nth (Nat.min (j + 1) n1) s 0)
    by (apply sorted_nth; [exact Hs | lia]).
  destruct (Nat.eq_dec i j) as [Eij | Nij].
  - rewrite <- Eij in Hg2 |- *.
    apply interp_mono_same; lra.
  - assert (Hb : nth (Nat.min (i + 1) n1) s 0 <= nth j s 0)
      by (apply sorted_nth; [exact Hs | lia]).
    apply interp_mono_step; lra.
Qed.

Lemma Qfloor_unique (z : Z) (x : Q) :
  inject_Z z <= x -> x < inject_Z (z + 1) -> Qfloor x = z.
Proof.
  intros Hlo Hhi.
  pose proof (Qfloor_le x) as H1. pose proof (Qlt_floor x) as H2.
  assert (A : (z < Qfloor x + 1)%Z).
  { rewrite Zlt_Qlt. lra. }
  assert (B : (Qfloor x < z + 1)%Z).
  { rewrite Zlt_Qlt. lra. }
  lia.
Qed.

Lemma median_is_percentile_50 (l : list Q) :
  l <> [] ->
  exists m v, Np.median l = Some m /\ Np.percentile l 50 = Ok v /\ m == v.
Proof.
  intro Hne. destruct l as [| x t]; [congruence |].
  rewrite percentile_unfold. cbv zeta. unfold Np.median.
  remember (x :: t) as l eqn:El.
  assert (Hlen : (1 <= List.length l)%nat) by (subst l; simpl; lia).
  remember (List.length l) as n eqn:En.
  remember (Np.sort l) as s eqn:Es.
  destruct (Nat.even n) eqn:Ev.
  - apply Nat.even_spec in Ev. destruct Ev as [k Hk].
    assert (Hk1 : (1 <= k)%nat) by lia.
    assert (Epos : 50 / 100 * nat2Q (n - 1)
                   == inject_Z (Z.of_nat (k - 1)) + (1 # 2)).
    { unfold nat2Q. replace (Z.of_nat (n - 1)) with (2 * Z.of_nat (k - 1) + 1)%Z
        by lia.
      rewrite inject_Z_plus, inject_Z_mult. change (inject_Z 1) with 1.
      change (inject_Z 2) with 2. field. }
    assert (Efl : py_int (50 / 100 * nat2Q (n - 1)) = (k - 1)%nat).
    { unfold py_int.
      rewrite (Qfloor_unique (Z.of_nat (k - 1))); [lia | |].
      - rewrite Epos. lra.
      - rewrite Epos, inject_Z_plus. change (inject_Z 1) with 1. lra. }
    rewrite Efl.
    replace (Nat.min (k - 1 + 1) (n - 1)) with k by lia.
    replace (n / 2)%nat with k
      by (subst n; rewrite Hk, Nat.mul_comm, Nat.div_mul; lia).
    eexists _, _. split; [reflexivity |]. split; [reflexivity |].
    rewrite Epos. unfold nat2Q. field.
  - assert (Ho : Nat.odd n = true)
      by (rewrite <- Nat.negb_even, Ev; reflexivity).
    apply Nat.odd_spec in Ho. destruct Ho as [k Hk].
    assert (Epos : 50 / 100 * nat2Q (n - 1) == inject_Z (Z.of_nat k)).
    { unfold nat2Q. replace (Z.of_nat (n - 1)) with (2 * Z.of_nat k)%Z by lia.
      rewrite inject_Z_mult. change (inject_Z 2) with 2. field. }
    assert (Efl : py_int (50 / 100 * nat2Q (n - 1)) = k).
    { unfold py_int. rewrite (Qfloor_comp _ _ Epos), Qfloor_Z. lia. }
    rewrite Efl.
    replace (n / 2)%nat with k.
    2:{ subst n. rewrite Hk.
        replace (2 * k + 1)%nat with (1 + k * 2)%nat by lia.
        rewrite Nat.div_add by lia. reflexivity. }
    eexists _, _. split; [reflexivity |]. split; [reflexivity |].
    rewrite Epos. unfold nat2Q. ring.
Qed.

Lemma sum_bounds (lo hi : Q) (l : list Q) :
  Forall (fun x => lo <= x <= hi) l ->
  lo * nat2Q (List.length l) <= Np.sum l <= hi * nat2Q (List.length l).
Proof.
  induction 1 as [| x l Hx _ IH].
  - change (lo * 0 <= 0 <= hi * 0). lra.
  - cbn [Np.sum fold_right List.length]. fold (Np.sum l).
    change (S (List.length l)) with (1 + List.length l)%nat.
    rewrite nat2Q_plus. change (nat2Q 1) with 1. lra.
Qed.

Lemma mean_bounds (lo hi : Q) (l : list Q) :
  Forall (fun x => lo <= x <= hi) l -> l <> [] ->
  exists m, Np.mean l = Some m /\ lo <= m <= hi.
Proof.
  intros Hl Hne. pose proof (length_pos_nat2Q l Hne) as Hp.
  pose proof (sum_bounds lo hi l Hl) as [H1 H2].
  destruct l as [| x t]; [congruence |].
  eexists. split; [reflexivity |]. split.
  - apply Qle_shift_div_l; [exact Hp | exact H1].
  - apply Qle_shift_div_r; [exact Hp | exact H2].
Qed.

Lemma is_max_upper (m lo hi : Q) (l : list Q) :
  is_max m l -> Forall (fun x => lo <= x <= hi) l ->
  Forall (fun x => lo <= x <= m) l /\ lo <= m <= hi.
Proof.
  intros [(x & Hx & Ex) Hub] Hl. rewrite Forall_forall in Hl. split.
  - apply Forall_forall. intros y Hy. split; [apply Hl, Hy | apply Hub, Hy].
  - rewrite <- Ex. apply Hl, Hx.
Qed.

(** X6. On a non-empty luminance map with values in [0,1] the
    statistics of the distribution report are ordered and bounded: the
    median is at most the 95th percentile, which is at most the 99th,
    which is at most the maximum; the mean is at most the maximum; all
    five lie in [0, 100]; and so does each of the six band
    percentages. *)
Theorem distribution_statistics_ordered (brt : LuminanceMap) :
  (0 < Np.size brt)%nat ->
  (forall v, In v (Np.ravel brt) -> 0 <= v <= 1) ->
  exists d mean median,
    analyze_brightness_distribution brt = Ok d /\
    dist_mean d = Some mean /\ dist_median d = Some median /\
    0 <= median /\ median <= p95 d /\ p95 d <= p99 d /\
    p99 d <= dist_max d /\ dist_max d <= 100 /\
    0 <= mean /\ mean <= dist_max d /\
    (forall b, 0 <= band_pct b d <= 100).
Proof.
  intros Hn Hr.
  assert (Hne : Np.ravel brt <> []).
  { unfold Np.size in Hn. destruct (Np.ravel brt); simpl in Hn;
      [lia | congruence]. }
  assert (Hall : Forall (fun x => 0 <= x <= 1) (Np.ravel brt))
    by (apply Forall_forall; exact Hr).
  destruct (max_spec _ Hne) as (mx & Emx & Hmx).
  destruct (is_max_upper mx 0 1 _ Hmx Hall) as [Hup Hmx1].
  destruct (percentile_nonempty _ 95 Hne) as [v95 E95].
  destruct (percentile_nonempty _ 99 Hne) as [v99 E99].
  destruct (median_is_percentile_50 _ Hne) as (md & v50 & Emd & E50 & Hmd).
  destruct (mean_bounds 0 mx _ Hup Hne) as (m & Em & Hm).
  pose proof (percentile_bounds 0 mx _ 50 v50 Hup ltac:(lra) E50) as H50.
  pose proof (percentile_bounds 0 mx _ 99 v99 Hup ltac:(lra) E99) as H99.
  pose proof (percentile_mono _ 50 95 v50 v95 ltac:(lra) ltac:(lra)
                ltac:(lra) E50 E95) as H5095.
  pose proof (percentile_mono _ 95 99 v95 v99 ltac:(lra) ltac:(lra)
                ltac:(lra) E95 E99) as H9599.
  unfold analyze_brightness_distribution.
  rewrite E95, E99, Emx, Em, Emd. cbn [bind Np.scale option_map].
  eexists _, (m * 100), (md * 100). split; [reflexivity |].
  cbn [dist_mean dist_median p95 p99 dist_max].
  split; [reflexivity |]. split; [reflexivity |].
  repeat (split; [lra |]).
  intro b.
  destruct b; cbn [band_pct black very_dark dark mid bright hot];
    apply pct_bounds; try exact Hn; apply count_le_length.
Qed.

Lemma distribution_statistics_ordered_witness :
  exists d mean median,
    analyze_brightness_distribution two_tone = Ok d /\
    dist_mean d = Some mean /\ dist_median d = Some median /\
    0 <= median /\ median <= p95 d /\ p95 d <= p99 d /\
    p99 d <= dist_max d /\ dist_max d <= 100 /\
    0 <= mean /\ mean <= dist_max d /\
    (forall b, 0 <= band_pct b d <= 100).
Proof.
  apply (distribution_statistics_ordered two_tone).
  - vm_compute. lia.
  - intros v Hv. simpl in Hv.
    destruct Hv as [<- | [<- | [<- | [<- | []]]]]; lra.
Defined.

(** ** Contrast bounds *)

Lemma col_at_Forall (P : Q -> Prop) (brt : LuminanceMap) (x : nat)
  (col : list Q) :
  Forall (Forall P) brt -> col_at brt x = Ok col -> Forall P col.
Proof.
  unfold col_at. intro Hu. revert col.
  induction Hu as [| r t Hr _ IH]; intros col Hcol; cbn [mapM] in Hcol.
  - inversion Hcol. constructor.
  - destruct (getitem r x) as [v |] eqn:Ev; [| discriminate Hcol].
    cbn [bind] in Hcol.
    destruct (mapM (fun r0 => getitem r0 x) t) as [vs |];
      [| discriminate Hcol].
    cbn [bind] in Hcol. inversion Hcol; subst col.
    constructor; [| apply IH; reflexivity].
    apply getitem_in in Ev. rewrite Forall_forall in Hr. apply Hr, Ev.
Qed.

Lemma scan_line_bounds (seq : list Q) (r : ScanLineResult) :
  Forall (fun v => 0 <= v <= 1) seq -> scan_line seq = Ok r ->
  exists fl ll,
    Np.percentile seq 20 = Ok fl /\ Np.percentile seq 90 = Ok ll /\
    0 <= fl /\ fl <= ll /\ ll <= 1 /\
    0 <= contrast_ratio r <= 1000 /\
    (0.001 <= fl -> 1 <= contrast_ratio r) /\
    (ll < 0.001 -> contrast_ratio r < 1).
Proof.
  intros Hall Hr.
  destruct (scan_line_clamped seq r Hr)
    as (fl & ll & E20 & E90 & Hd & _ & _ & _ & Hq).
  pose proof (percentile_bounds 0 1 seq 20 fl Hall ltac:(lra) E20) as Hfl.
  pose proof (percentile_bounds 0 1 seq 90 ll Hall ltac:(lra) E90) as Hll.
  pose proof (percentile_mono seq 20 90 fl ll ltac:(lra) ltac:(lra)
                ltac:(lra) E20 E90) as Hmono.
  exists fl, ll. split; [exact E20 |]. split; [exact E90 |].
  split; [lra |]. split; [exact Hmono |]. split; [lra |].
  set (d := Qmax fl 0.001) in *. set (c := contrast_ratio r) in *.
  assert (Hdf : fl <= d) by apply Q.le_max_l.
  assert (Hc0 : 0 <= c).
  { destruct (Qlt_le_dec c 0) as [Hneg | Hpos]; [| exact Hpos].
    exfalso. assert (0 <= (0 - c) * d) by (apply Qmult_le_0_compat; lra).
    assert (0 < (0 - c) * d) by (apply Qmult_lt_0_compat; lra). lra. }
  assert (Hc1 : c <= 1000).
  { destruct (Qlt_le_dec 1000 c) as [Hbig | Hok]; [| exact Hok].
    exfalso. assert (0 <= (c - 1000) * (d - 0.001))
      by (apply Qmult_le_0_compat; lra). lra. }
  split; [split; assumption |]. split.
  - intro Hfl1.
    assert (Ed : d == fl) by (apply Q.max_l; exact Hfl1).
    destruct (Qlt_le_dec c 1) as [Hlt | Hge]; [| exact Hge].
    exfalso. assert (0 < (1 - c) * d) by (apply Qmult_lt_0_compat; lra).
    rewrite Ed in *. lra.
  - intro Hll1.
    destruct (Qlt_le_dec c 1) as [Hlt | Hge]; [exact Hlt |].
    exfalso. assert (0 <= (c - 1) * d) by (apply Qmult_le_0_compat; lra).
    lra.
Qed.

(** X7. On a non-empty scan line with values in [0,1] the 20th
    percentile is at most the 90th, and the contrast ratio lies in
    [0, 1000]; it is at least 1 when the 20th percentile is not clamped
    (at least 0.001), and below 1 when even the 90th percentile is below
    0.001.  Every entry the grid line detector returns on a luminance
    map with values in [0,1] has its contrast ratio in [0, 1000]. *)
Theorem contrast_ratio_bounds :
  (forall seq, seq <> [] -> Forall (fun v => 0 <= v <= 1) seq ->
     exists r fl ll,
       scan_line seq = Ok r /\
       Np.percentile seq 20 = Ok fl /\ Np.percentile seq 90 = Ok ll /\
       0 <= fl /\ fl <= ll /\ ll <= 1 /\
       0 <= contrast_ratio r <= 1000 /\
       (0.001 <= fl -> 1 <= contrast_ratio r) /\
       (ll < 0.001 -> contrast_ratio r < 1)) /\
  (forall img brt grid name r,
     Forall (Forall (fun v => 0 <= v <= 1)) brt ->
     analyze_grid_lines img brt = Ok grid -> In (name, r) grid ->
     0 <= contrast_ratio r <= 1000).
Proof.
  split.
  - intros seq Hne Hall. destruct (scan_line_ok seq Hne) as [r Hr].
    destruct (scan_line_bounds seq r Hall Hr) as (fl & ll & H).
    exists r, fl, ll. split; [exact Hr | exact H].
  - intros img brt grid name r Hall Hg Hin.
    destruct (analyze_grid_lines_inv img brt grid Hg) as [_ Hs].
    destruct (Hs name r Hin) as (seq & Hseq & Hr).
    assert (Hsq : Forall (fun v => 0 <= v <= 1) seq).
    { destruct Hseq as [Hrow | (x & Hcol)].
      - rewrite Forall_forall in Hall. apply Hall, Hrow.
      - apply (col_at_Forall _ brt x); assumption. }
    destruct (scan_line_bounds seq r Hsq Hr) as (fl & ll & H).
    apply H.
Qed.

Lemma contrast_ratio_bounds_witness :
  exists r fl ll,
    scan_line [0.05; 0.20; 0.05; 0.20] = Ok r /\
    Np.percentile [0.05; 0.20; 0.05; 0.20] 20 = Ok fl /\
    Np.percentile [0.05; 0.20; 0.05; 0.20] 90 = Ok ll /\
    0 <= fl /\ fl <= ll /\ ll <= 1 /\
    0 <= contrast_ratio r <= 1000 /\
    (0.001 <= fl -> 1 <= contrast_ratio r) /\
    (ll < 0.001 -> contrast_ratio r < 1).
Proof.
  apply (proj1 contrast_ratio_bounds [0.05; 0.20; 0.05; 0.20]).
  - discriminate.
  - repeat constructor; unfold Qle; simpl; lia.
Defined.

(** ** Verdict, issues and their order *)

Lemma issues_unfold (dist : DistributionReport)
  (grid : Dict ScanLineResult) (colors : ColorReport)
  (regions : RegionReport) (reflections : ReflectionReport)
  (dims : nat * nat) :
  issues (format_report dist grid colors regions reflections dims)
  = append_if (Qgtb (hot dist) 15) BLOOM_OVERLOAD
     (append_if (String.eqb (floor_has_variation reflections) "NO") NO_SSR
       (append_if (Qltb (cyan_teal colors) 1.0) NO_CYAN
         (append_if (Np.lt (Np.mean (map contrast_ratio (values grid))) 2.0)
                    LOW_CONTRAST
           (append_if (Qgtb (black dist) 50 && Qltb (dark dist) 5)
                      NO_GRID_FLOOR
             (append_if (Qgtb (black dist) 70) TOO_DARK []))))).
Proof. reflexivity. Qed.

Lemma low_contrast_in_issues (dist : DistributionReport)
  (grid : Dict ScanLineResult) (colors : ColorReport)
  (regions : RegionReport) (reflections : ReflectionReport)
  (dims : nat * nat) :
  In LOW_CONTRAST
     (issues (format_report dist grid colors regions reflections dims))
  <-> Np.lt (Np.mean (map contrast_ratio (values grid))) 2.0 = true.
Proof.
  rewrite issues_unfold, !In_append_if. cbn [In].
  intuition discriminate.
Qed.

Lemma verdict_unfold (dist : DistributionReport)
  (grid : Dict ScanLineResult) (colors : ColorReport)
  (regions : RegionReport) (reflections : ReflectionReport)
  (dims : nat * nat) :
  grid_verdict (format_report dist grid colors regions reflections dims)
  = let avg_contrast := Np.mean (map contrast_ratio (values grid)) in
    let avg_peaks := Np.mean (map nat2Q (map peak_count (values grid))) in
    if Np.gt avg_contrast 5.0 && Np.gt avg_peaks 3 then EXCELLENT
    else if Np.gt avg_contrast 3.0 && Np.gt avg_peaks 2 then GOOD
    else if Np.gt avg_contrast 1.5 then WEAK
    else INVISIBLE.
Proof. reflexivity. Qed.

(** X8. The grid verdict and the low-contrast issue agree.  A report
    with verdict EXCELLENT or GOOD never lists low contrast; a report
    over at least one scan line with verdict INVISIBLE always lists it.
    With no scan line at all the two averages are nan, every comparison
    with them is false, and the report has verdict INVISIBLE without the
    low-contrast issue. *)
Theorem verdict_and_low_contrast (dist : DistributionReport)
  (grid : Dict ScanLineResult) (colors : ColorReport)
  (regions : RegionReport) (reflections : ReflectionReport)
  (dims : nat * nat) :
  let rep := format_report dist grid colors regions reflections dims in
  (grid_verdict rep = EXCELLENT \/ grid_verdict rep = GOOD ->
   ~ In LOW_CONTRAST (issues rep)) /\
  (grid <> [] -> grid_verdict rep = INVISIBLE ->
   In LOW_CONTRAST (issues rep)) /\
  (grid = [] ->
   avg_contrast rep = None /\ avg_peaks rep = None /\
   grid_verdict rep = INVISIBLE /\ ~ In LOW_CONTRAST (issues rep)).
Proof.
  intro rep. unfold rep.
  rewrite low_contrast_in_issues, verdict_unfold. cbv zeta.
  split; [| split].
  - destruct (Np.mean (map contrast_ratio (values grid))) as [c |];
      cbn [Np.gt Np.lt andb]; [| intros [H | H]; discriminate H].
    destruct (Qgtb c 5.0) eqn:C5, (Qgtb c 3.0) eqn:C3, (Qgtb c 1.5) eqn:C1,
             (Np.gt (Np.mean (map nat2Q (map peak_count (values grid)))) 3),
             (Np.gt (Np.mean (map nat2Q (map peak_count (values grid)))) 2);
      cbn [andb]; intros [H | H]; try discriminate H;
      intro Hlt; apply Qltb_spec in Hlt; qbool; lra.
  - intros Hne.
    assert (Hm : exists c, Np.mean (map contrast_ratio (values grid)) = Some c).
    { destruct grid; [congruence |]. eexists. reflexivity. }
    destruct Hm as [c ->]. cbn [Np.gt Np.lt].
    destruct (Qgtb c 5.0) eqn:C5, (Qgtb c 3.0) eqn:C3, (Qgtb c 1.5) eqn:C1,
             (Np.gt (Np.mean (map nat2Q (map peak_count (values grid)))) 3),
             (Np.gt (Np.mean (map nat2Q (map peak_count (values grid)))) 2);
      cbn [andb]; intro H; try discriminate H;
      apply Qltb_spec; qbool; lra.
  - intros ->. cbn. repeat split. discriminate.
Qed.

Lemma verdict_and_low_contrast_witness :
  grid_verdict (format_report sample_dist [] sample_colors sample_regions
                              sample_reflections (4%nat, 4%nat))
  = INVISIBLE /\
  ~ In LOW_CONTRAST
       (issues (format_report sample_dist [] sample_colors sample_regions
                              sample_reflections (4%nat, 4%nat))).
Proof.
  destruct (proj2 (proj2 (verdict_and_low_contrast sample_dist []
                            sample_colors sample_regions sample_reflections
                            (4%nat, 4%nat))) eq_refl)
    as (_ & _ & Hv & Hi).
  split; assumption.
Defined.

Lemma append_if_app (c : bool) (msg : string) (l : list string) :
  append_if c msg l = l ++ (if c then [msg] else []).
Proof.
  unfold append_if. destruct c; [reflexivity | rewrite app_nil_r; reflexivity].
Qed.

Lemma subseq_In {A : Type} (l l' : list A) (x : A) :
  subseq l l' -> In x l -> In x l'.
Proof.
  induction 1 as [| y l l' _ IH | y l l' _ IH]; intro Hin.
  - exact Hin.
  - right. exact (IH Hin).
  - destruct Hin as [-> | Hin]; [left; reflexivity | right; exact (IH Hin)].
Qed.

Lemma subseq_NoDup {A : Type} (l l' : list A) :
  subseq l l' -> NoDup l' -> NoDup l.
Proof.
  induction 1 as [| y l l' Hs IH | y l l' Hs IH]; intro Hnd.
  - constructor.
  - inversion Hnd; subst. apply IH. assumption.
  - inversion Hnd as [| ? ? Hy Hl']; subst. constructor; [| apply IH, Hl'].
    intro Hin. apply Hy. exact (subseq_In l l' y Hs Hin).
Qed.

Lemma all_issues_distinct : NoDup all_issues.
Proof.
  unfold all_issues. repeat constructor; cbn [In]; intuition discriminate.
Qed.

(** X9. The issue list keeps the order of the rules: it is the list too
    dark, no grid floor, low contrast, no cyan, no SSR, bloom overload
    with the issues that did not fire left out, so no issue is listed
    twice; and the closing assessment has one line per listed issue, or
    the single no-major-issues line. *)
Theorem issues_in_rule_order (dist : DistributionReport)
  (grid : Dict ScanLineResult) (colors : ColorReport)
  (regions : RegionReport) (reflections : ReflectionReport)
  (dims : nat * nat) :
  let rep := format_report dist grid colors regions reflections dims in
  subseq (issues rep) all_issues /\
  NoDup (issues rep) /\
  List.length (assessment rep) = Nat.max 1 (List.length (issues rep)).
Proof.
  intro rep.
  assert (Hs : subseq (issues rep) all_issues).
  { unfold rep. rewrite issues_unfold, !append_if_app. unfold all_issues.
    destruct (Qgtb (black dist) 70),
             (Qgtb (black dist) 50 && Qltb (dark dist) 5),
             (Np.lt (Np.mean (map contrast_ratio (values grid))) 2.0),
             (Qltb (cyan_teal colors) 1.0),
             (String.eqb (floor_has_variation reflections) "NO"),
             (Qgtb (hot dist) 15);
      cbn [app];
      repeat first [ apply subseq_nil | apply subseq_take | apply subseq_skip ]. }
  split; [exact Hs |].
  split; [exact (subseq_NoDup _ _ Hs all_issues_distinct) |].
  assert (Ea : assessment rep
    = match issues rep with
      | [] => [NO_MAJOR_ISSUES]
      | _ => map (fun issue => ("  ✗ " ++ issue)%string) (issues rep)
      end) by reflexivity.
  rewrite Ea. destruct (issues rep) as [| i l]; [reflexivity |].
  rewrite length_map. cbn [List.length]. lia.
Qed.

(** ** Image sizes the analyzers need *)


(** X10. The reflection estimator needs a map of at least 3 rows and 2
    columns.  On an [h] by [w] luminance map it returns a result when
    [h >= 3] and [w >= 2]; on a smaller map the floor sub-region
    [int(0.6 h) : int(0.8 h)], [int(0.2 w) : int(0.8 w)] is empty and
    [np.max] raises [ValueError]. *)
Theorem reflection_needs_3_by_2 (img : PixelBuffer) (h w : nat)
  (brt : LuminanceMap) :
  rect h w brt ->
  ((3 <= h)%nat /\ (2 <= w)%nat ->
   exists r, analyze_reflection_quality img brt = Ok r) /\
  ((h < 3)%nat \/ (w < 2)%nat ->
   analyze_reflection_quality img brt = Raise ValueError).
Proof.
  intro Hrect. split.
  - intros [Hh Hw].
    pose proof (floor_region_nonempty h w brt Hrect Hh Hw) as Hne.
    destruct (max_nonempty _ Hne) as [m Em].
    unfold analyze_reflection_quality. unfold floor_region in Em.
    destruct (Np.shape brt) as [h' w']. rewrite Em. cbn [bind].
    eexists. reflexivity.
  - intro Hsmall. apply reflection_empty_floor.
    apply (floor_region_small h w); assumption.
Qed.

Lemma reflection_needs_3_by_2_witness :
  (exists r, analyze_reflection_quality stripes stripes_brt = Ok r) /\
  analyze_reflection_quality [] [[0; 0]; [0; 0]] = Raise ValueError.
Proof.
  split.
  - apply (proj1 (reflection_needs_3_by_2 stripes 4 4 stripes_brt
                    (rect_map_map luma_px 4 4 stripes (proj1 stripes_valid)))).
    split; lia.
  - apply (proj2 (reflection_needs_3_by_2 [] 2 2 [[0; 0]; [0; 0]]
                    ltac:(split; [reflexivity | repeat constructor]))).
    left. lia.
Defined.

Lemma distribution_ok (brt : LuminanceMap) :
  (0 < Np.size brt)%nat ->
  exists d, analyze_brightness_distribution brt = Ok d.
Proof.
  intro Hn.
  assert (Hne : Np.ravel brt <> []).
  { unfold Np.size in Hn. destruct (Np.ravel brt); simpl in Hn;
      [lia | congruence]. }
  destruct (percentile_nonempty _ 95 Hne) as [v95 E95].
  destruct (percentile_nonempty _ 99 Hne) as [v99 E99].
  destruct (max_nonempty _ Hne) as [vm Em].
  unfold analyze_brightness_distribution. rewrite E95, E99, Em.
  cbn [bind]. eexists. reflexivity.
Qed.

Lemma bind_raise {A B : Type} (c : result A) (k : A -> result B) :
  (forall a, exists e, k a = Raise e) -> exists e, bind c k = Raise e.
Proof.
  intro H. destruct c as [a | e]; cbn [bind]; [apply H |].
  exists e. reflexivity.
Qed.

(** X11. The size of buffer the pipeline needs.  On a buffer of
    three-channel pixels with at least 4 rows and 2 columns [main]
    raises nothing: it returns a report that carries the dimensions
    (width, height) and the eight scan lines.  On a buffer with fewer
    than 3 rows or fewer than 2 columns it raises and returns no
    report, whatever the pixels are. *)
Theorem pipeline_size_requirements (h w : nat) (img : PixelBuffer) :
  rect h w img -> three_channels img ->
  ((4 <= h)%nat /\ (2 <= w)%nat ->
   exists rep,
     main img = Ok rep /\ rep_dims rep = (w, h) /\
     map fst (rep_grid rep) = scan_names) /\
  ((h < 3)%nat \/ (w < 2)%nat -> exists e, main img = Raise e).
Proof.
  intros Hrect H3.
  pose proof (brightness_ok img H3) as Eb.
  pose proof (rect_map_map luma_px h w img Hrect) as Hbrt.
  set (brt := map (map luma_px) img) in *.
  split.
  - intros [Hh Hw].
    assert (Hsize : (0 < Np.size brt)%nat)
      by (rewrite (rect_size h w brt Hbrt); nia).
    destruct (distribution_ok brt Hsize) as [d Ed].
    destruct (analyze_grid_lines_ok img h w brt Hbrt) as [grid Eg]; try lia.
    pose proof (analyze_color_channels_ok img H3) as Ec.
    destruct (regions_ok h w brt Hbrt Hh Hw) as [regs Er].
    assert (Hf : exists refl, analyze_reflection_quality img brt = Ok refl).
    { pose proof (floor_region_nonempty h w brt Hbrt ltac:(lia) Hw) as Hne.
      destruct (max_nonempty _ Hne) as [m Em].
      unfold analyze_reflection_quality. unfold floor_region in Em.
      destruct (Np.shape brt) as [h' w']. rewrite Em. cbn [bind].
      eexists. reflexivity. }
    destruct Hf as [refl Ef].
    eexists. split.
    { unfold main. rewrite Eb. cbn [bind]. fold brt.
      rewrite Ed, Eg, Ec, Er, Ef. reflexivity. }
    cbn [rep_dims rep_grid format_report]. split.
    + destruct Hrect as [Hlen Hrows]. rewrite Hlen.
      destruct img as [| row img']; [simpl in Hlen; lia |].
      inversion Hrows; subst. reflexivity.
    + apply (analyze_grid_lines_inv img brt grid Eg).
  - intro Hsmall. unfold main. rewrite Eb. cbn [bind]. fold brt.
    do 4 (apply bind_raise; intro).
    rewrite (reflection_empty_floor img brt
               (floor_region_small h w brt Hbrt Hsmall)).
    eexists. reflexivity.
Qed.

Lemma pipeline_size_requirements_witness :
  (exists rep,
     main stripes = Ok rep /\ rep_dims rep = (4%nat, 4%nat) /\
     map fst (rep_grid rep) = scan_names) /\
  (exists e, main (black_img 2 5) = Raise e).
Proof.
  split.
  - apply (proj1 (pipeline_size_requirements 4 4 stripes
                    (proj1 stripes_valid) (proj1 (proj2 stripes_valid)))).
    split; lia.
  - apply (proj2 (pipeline_size_requirements 2 5 (black_img 2 5)
                    (proj1 (black_img_all_black 2 5))
                    (proj1 (proj2 (black_img_all_black 2 5))))).
    left. lia.
Defined.

(** ** Flat buffers *)

Lemma sum_le (hi : Q) (l : list Q) :
  Forall (fun x => x <= hi) l -> Np.sum l <= hi * nat2Q (List.length l).
Proof.
  induction 1 as [| x l Hx _ IH].
  - change (0 <= hi * 0). lra.
  - cbn [Np.sum fold_right List.length]. fold (Np.sum l).
    change (S (List.length l)) with (1 + List.length l)%nat.
    rewrite nat2Q_plus. change (nat2Q 1) with 1. lra.
Qed.

Lemma mean_le (hi : Q) (l : list Q) :
  Forall (fun x => x <= hi) l -> l <> [] ->
  exists m, Np.mean l = Some m /\ m <= hi.
Proof.
  intros Hl Hne. pose proof (length_pos_nat2Q l Hne) as Hp.
  pose proof (sum_le hi l Hl) as H.
  destruct l as [| x t]; [congruence |].
  eexists. split; [reflexivity |].
  apply Qle_shift_div_r; [exact Hp | exact H].
Qed.

Lemma scan_line_uniform (c : Q) (seq : list Q) (r : ScanLineResult) :
  uniform c seq -> scan_line seq = Ok r ->
  contrast_ratio r <= 1 /\ (0.001 <= c -> contrast_ratio r == 1) /\
  peak_count r = 0%nat.
Proof.
  intros Hu. unfold scan_line.
  destruct (Np.percentile seq 20) as [fl |] eqn:E20; [| discriminate].
  destruct (Np.percentile seq 90) as [ll |] eqn:E90; [| discriminate].
  cbn [bind]. intro H. inversion H; subst; clear H.
  cbn [contrast_ratio peak_count].
  assert (Hfl : fl == c)
    by (apply (uniform_percentile c seq 20); [| lra |]; assumption).
  assert (Hll : ll == c)
    by (apply (uniform_percentile c seq 90); [| lra |]; assumption).
  destruct (Qltb fl 0.001) eqn:Ec; qbool.
  - split; [| split].
    + apply Qle_shift_div_r; lra.
    + intro Hc. exfalso. lra.
    + apply count_peaks_none_above.
      eapply Forall_impl; [| exact Hu]. intros v Hv. cbv beta in Hv. lra.
  - split; [| split].
    + apply Qle_shift_div_r; lra.
    + intros _. rewrite Hll, Hfl. field. lra.
    + apply count_peaks_none_above.
      eapply Forall_impl; [| exact Hu]. intros v Hv. cbv beta in Hv. lra.
Qed.

Lemma grid_uniform (img : PixelBuffer) (c : Q) (brt : LuminanceMap)
  (grid : Dict ScanLineResult) :
  Forall (uniform c) brt -> analyze_grid_lines img brt = Ok grid ->
  forall name r, In (name, r) grid ->
    contrast_ratio r <= 1 /\ (0.001 <= c -> contrast_ratio r == 1) /\
    peak_count r = 0%nat.
Proof.
  intros Hd Hg name r Hin.
  destruct (analyze_grid_lines_inv img brt grid Hg) as [_ Hs].
  destruct (Hs name r Hin) as (seq & Hseq & Hr).
  apply (scan_line_uniform c seq); [| exact Hr].
  destruct Hseq as [Hrow | (x & Hcol)].
  - rewrite Forall_forall in Hd. apply Hd, Hrow.
  - apply (col_at_uniform c brt x); assumption.
Qed.

Lemma flat_buffer_brightness (h w : nat) (px : Pixel) (img : PixelBuffer) :
  List.length px = 3%nat -> flat_buffer h w px img ->
  three_channels img /\
  Forall (uniform (luma_px px)) (map (map luma_px) img).
Proof.
  intros Hl [Hrect Hflat]. split.
  - unfold three_channels. eapply Forall_impl; [| exact Hflat].
    intros row Hrow. eapply Forall_impl; [| exact Hrow].
    intros p ->. exact Hl.
  - apply Forall_map. eapply Forall_impl; [| exact Hflat].
    intros row Hrow. unfold uniform. apply Forall_map.
    eapply Forall_impl; [| exact Hrow]. intros p ->. reflexivity.
Qed.

(** X12. A flat image has no grid.  On a buffer of at least 4 rows and
    2 columns whose pixels are all the same three-channel colour, every
    scan line has no peak and a contrast ratio of at most 1 (exactly 1
    when the luminance is at least 0.001); the grid verdict is
    INVISIBLE, the reflection classification is NO, and the issue list
    holds both low contrast and no SSR. *)
Theorem flat_buffer_report (h w : nat) (px : Pixel) (img : PixelBuffer) :
  (4 <= h)%nat -> (2 <= w)%nat ->
  List.length px = 3%nat -> flat_buffer h w px img ->
  exists rep,
    main img = Ok rep /\
    (forall name r, In (name, r) (rep_grid rep) ->
       contrast_ratio r <= 1 /\
       (0.001 <= luma_px px -> contrast_ratio r == 1) /\
       peak_count r = 0%nat) /\
    grid_verdict rep = INVISIBLE /\
    floor_has_variation (rep_reflections rep) = "NO"%string /\
    In LOW_CONTRAST (issues rep) /\ In NO_SSR (issues rep).
Proof.
  intros Hh Hw Hl Hflat.
  destruct (flat_buffer_brightness h w px img Hl Hflat) as [H3 Hu].
  destruct Hflat as [Hrect _].
  pose proof (brightness_ok img H3) as Eb.
  pose proof (rect_map_map luma_px h w img Hrect) as Hbrt.
  set (brt := map (map luma_px) img) in *.
  assert (Hsize : (0 < Np.size brt)%nat)
    by (rewrite (rect_size h w brt Hbrt); nia).
  destruct (distribution_ok brt Hsize) as [d Ed].
  destruct (analyze_grid_lines_ok img h w brt Hbrt) as [grid Eg]; try lia.
  pose proof (analyze_color_channels_ok img H3) as Ec.
  destruct (regions_ok h w brt Hbrt Hh Hw) as [regs Er].
  destruct (reflection_uniform img (luma_px px) brt)
    as (refl & s & Ef & Es & Hs & Hv).
  { apply (floor_region_nonempty h w); [exact Hbrt | lia | lia]. }
  { apply floor_region_uniform, Hu. }
  pose proof (grid_uniform img (luma_px px) brt grid Hu Eg) as Hgrid.
  destruct (mean_le 1 (map contrast_ratio (values grid)))
    as (avg & Ea & Havg).
  { unfold values. rewrite map_map. apply Forall_map.
    apply Forall_forall. intros [name r] Hin. apply (Hgrid name r Hin). }
  { destruct (analyze_grid_lines_inv img brt grid Eg) as [Hn _].
    destruct grid; [discriminate Hn | discriminate]. }
  eexists. split.
  { unfold main. rewrite Eb. cbn [bind]. fold brt.
    rewrite Ed, Eg, Ec, Er, Ef. reflexivity. }
  cbn [rep_grid rep_reflections].
  split; [exact Hgrid |].
  assert (G5 : Qgtb avg 5.0 = false) by (apply Qgtb_false; lra).
  assert (G3 : Qgtb avg 3.0 = false) by (apply Qgtb_false; lra).
  assert (G1 : Qgtb avg 1.5 = false) by (apply Qgtb_false; lra).
  assert (L2 : Qltb avg 2.0 = true) by (apply Qltb_spec; lra).
  split.
  { unfold format_report. cbn [grid_verdict]. rewrite Ea. cbn [Np.gt].
    rewrite G5, G3, G1. reflexivity. }
  split; [exact Hv |].
  split.
  - apply low_contrast_in_issues. rewrite Ea. exact L2.
  - rewrite issues_unfold, !In_append_if. cbn [In].
    rewrite Hv. left. right. split; reflexivity.
Qed.

Lemma flat_buffer_report_witness :
  exists rep,
    main white_img = Ok rep /\ grid_verdict rep = INVISIBLE /\
    In LOW_CONTRAST (issues rep) /\ In NO_SSR (issues rep).
Proof.
  destruct (flat_buffer_report 4 2 [0.9; 0.9; 0.9] white_img)
    as (rep & Hm & _ & Hv & _ & Hl & Hs).
  - lia.
  - lia.
  - reflexivity.
  - unfold flat_buffer, rect, white_img. cbn [repeat].
    split; [split; [reflexivity |] |]; repeat constructor.
  - exists rep. repeat split; assumption.
Defined.

(** ** Region sampler *)

Lemma skipn_incl {A : Type} (n : nat) (l : list A) (x : A) :
  In x (skipn n l) -> In x l.
Proof.
  intro H. rewrite <- (firstn_skipn n l). apply in_or_app. right. exact H.
Qed.

Lemma region_Forall (P : Q -> Prop) (r0 r1 c0 c1 : nat)
  (brt : LuminanceMap) :
  Forall (Forall P) brt -> Forall P (region r0 r1 c0 c1 brt).
Proof.
  intro Hu. unfold region, Np.ravel. apply Forall_concat.
  rewrite Forall_forall in *. intros row Hrow.
  apply in_map_iff in Hrow. destruct Hrow as (row' & <- & Hin).
  apply slice_incl in Hin. specialize (Hu row' Hin).
  rewrite Forall_forall in *. intros v Hv. apply Hu.
  eapply slice_incl, Hv.
Qed.

Lemma right_region_Forall (P : Q -> Prop) (r0 r1 c : nat)
  (brt : LuminanceMap) :
  Forall (Forall P) brt ->
  Forall P (Np.ravel (map (skipn c) (slice r0 r1 brt))).
Proof.
  intro Hu. unfold Np.ravel. apply Forall_concat.
  rewrite Forall_forall in *. intros row Hrow.
  apply in_map_iff in Hrow. destruct Hrow as (row' & <- & Hin).
  apply slice_incl in Hin. specialize (Hu row' Hin).
  rewrite Forall_forall in *. intros v Hv. apply Hu.
  eapply skipn_incl, Hv.
Qed.

Lemma right_region_nonempty (h w r0 r1 c : nat) (brt : LuminanceMap) :
  rect h w brt -> (r0 < r1 <= h)%nat -> (c < w)%nat ->
  Np.ravel (map (skipn c) (slice r0 r1 brt)) <> [].
Proof.
  intros [Hh Hw] Hr Hc.
  rewrite (slice_seq [] brt) by lia.
  destruct (r1 - r0)%nat as [| k] eqn:Ek; [lia |].
  cbn [List.seq map Np.ravel concat].
  assert (Hrow : List.length (nth r0 brt []) = w).
  { rewrite Forall_forall in Hw. apply Hw, nth_In. lia. }
  rewrite (skipn_nth_cons 0 (nth r0 brt []) c) by lia.
  discriminate.
Qed.

(** *** Slice bounds in double precision *)

Lemma nat2Q_ge_1 (n : nat) : (1 <= n)%nat -> 1 <= nat2Q n.
Proof.
  intro H. unfold nat2Q. change 1 with (inject_Z 1). rewrite <- Zle_Qle. lia.
Qed.

(** The double product [n * f] of an integer and a literal lies between
    [n lo] and [n hi] when the double of [f], with the two roundings
    counted, lies between [lo] and [hi]. *)
Lemma times_between (n : nat) (f lo hi : Q) :
  (1 <= n)%nat -> (1 # 16) <= lo ->
  lo <= f64 f * (1 - (1 # 2251799813685248)) ->
  f64 f * (1 + (1 # 2251799813685248)) <= hi ->
  nat2Q n * lo <= f64 (f64 (nat2Q n) * f64 f) <= nat2Q n * hi.
Proof.
  intros Hn Hlo Hl Hh.
  pose proof (nat2Q_ge_1 n Hn) as Hn1.
  remember (f64 f) as F eqn:EF. clear EF.
  remember (nat2Q n) as n' eqn:En. clear En.
  assert (HF : (1 # 16) <= F) by lra.
  pose proof (f64_relative n' ltac:(lra)) as [N1 N2].
  remember (f64 n') as N eqn:EN. clear EN.
  assert (X1 : n' * (1 - (1 # 9007199254740992)) * F <= N * F)
    by (apply Qmult_le_compat_r; lra).
  assert (X2 : N * F <= n' * (1 + (1 # 9007199254740992)) * F)
    by (apply Qmult_le_compat_r; lra).
  assert (T : 1 * F <= n' * F) by (apply Qmult_le_compat_r; lra).
  assert (L : n' * lo <= n' * (F * (1 - (1 # 2251799813685248))))
    by (apply Qmult_le_l; lra).
  assert (U : n' * (F * (1 + (1 # 2251799813685248))) <= n' * hi)
    by (apply Qmult_le_l; lra).
  remember (N * F) as x eqn:Ex. clear Ex.
  pose proof (f64_relative x ltac:(lra)) as [Y1 Y2].
  remember (n' * F) as t eqn:Et.
  assert (L' : n' * lo <= t * (1 - (1 # 2251799813685248)))
    by (subst t; lra).
  assert (U' : t * (1 + (1 # 2251799813685248)) <= n' * hi)
    by (subst t; lra).
  assert (X1' : t * (1 - (1 # 9007199254740992)) <= x) by (subst t; lra).
  assert (X2' : x <= t * (1 + (1 # 9007199254740992))) by (subst t; lra).
  clear Et X1 X2 L U. split; lra.
Qed.

Lemma py_int_lt (y y' : Q) : 0 <= y -> y + 1 <= y' -> (py_int y < py_int y')%nat.
Proof.
  intros H0 H. unfold py_int.
  assert (F0 : (0 <= Qfloor y)%Z).
  { change 0 with (inject_Z 0) in H0.
    apply Qfloor_resp_le in H0. rewrite Qfloor_Z in H0. exact H0. }
  assert (F1 : (Qfloor y + 1 <= Qfloor y')%Z).
  { rewrite <- (Qfloor_Z (Qfloor y + 1)). apply Qfloor_resp_le.
    rewrite inject_Z_plus. pose proof (Qfloor_le y).
    change (inject_Z 1) with 1. lra. }
  lia.
Qed.

Lemma py_int_le_nat (y : Q) (n : nat) : y <= nat2Q n -> (py_int y <= n)%nat.
Proof.
  intro H. unfold py_int, nat2Q in *.
  apply Qfloor_resp_le in H. rewrite Qfloor_Z in H. lia.
Qed.

Lemma py_int_lt_nat (y : Q) (n : nat) :
  (1 <= n)%nat -> y < nat2Q n -> (py_int y < n)%nat.
Proof.
  intros Hn H. unfold py_int, nat2Q in *.
  pose proof (Qfloor_le y) as Hf.
  assert (Hz : inject_Z (Qfloor y) < inject_Z (Z.of_nat n)) by lra.
  rewrite <- Zlt_Qlt in Hz. lia.
Qed.

Lemma py_int_ge_1 (y : Q) : 1 <= y -> (1 <= py_int y)%nat.
Proof.
  intro H. unfold py_int. change 1 with (inject_Z 1) in H.
  apply Qfloor_resp_le in H. rewrite Qfloor_Z in H. lia.
Qed.

Ltac times f lo hi n Hn :=
  pose proof (times_between n f lo hi Hn ltac:(qdecide) ltac:(qdecide)
                ltac:(qdecide)).

Lemma center_rows_f64 (n : nat) :
  (2 <= n)%nat -> (int_times n 0.3 < int_times n 0.7 <= n)%nat.
Proof.
  intro H. destruct (Nat.eq_dec n 2) as [-> | Hne]; [vm_compute; lia |].
  assert (Hn : (1 <= n)%nat) by lia.
  times 0.3 0.2999999 0.3000001 n Hn. times 0.7 0.6999999 0.7000001 n Hn.
  assert (H3 : 3 <= nat2Q n).
  { unfold nat2Q. change 3 with (inject_Z 3). rewrite <- Zle_Qle. lia. }
  unfold int_times. split.
  - apply py_int_lt; lra.
  - apply py_int_le_nat. lra.
Qed.

Lemma nat2Q_ge (k n : nat) : (k <= n)%nat -> nat2Q k <= nat2Q n.
Proof. intro H. unfold nat2Q. rewrite <- Zle_Qle. lia. Qed.

Lemma bottom_rows_f64 (n : nat) :
  (4 <= n)%nat -> (int_times n 0.6 < int_times n 0.9 <= n)%nat.
Proof.
  intro H. assert (Hn : (1 <= n)%nat) by lia.
  times 0.6 0.5999999 0.6000001 n Hn. times 0.9 0.8999999 0.9000001 n Hn.
  pose proof (nat2Q_ge 4 n H) as H4. change (nat2Q 4) with 4 in H4.
  unfold int_times. split.
  - apply py_int_lt; lra.
  - apply py_int_le_nat. lra.
Qed.

Lemma top_rows_f64 (n : nat) :
  (4 <= n)%nat -> (int_times n 0.1 < int_times n 0.3 <= n)%nat.
Proof.
  intro H.
  destruct (Nat.eq_dec n 4) as [-> | N4]; [vm_compute; lia |].
  destruct (Nat.eq_dec n 5) as [-> | N5]; [vm_compute; lia |].
  assert (Hn : (1 <= n)%nat) by lia.
  times 0.1 0.0999999 0.1000001 n Hn. times 0.3 0.2999999 0.3000001 n Hn.
  pose proof (nat2Q_ge 6 n ltac:(lia)) as H6. change (nat2Q 6) with 6 in H6.
  unfold int_times. split.
  - apply py_int_lt; lra.
  - apply py_int_le_nat. lra.
Qed.

Lemma floor_cols_f64 (n : nat) :
  (2 <= n)%nat -> (int_times n 0.2 < int_times n 0.8 <= n)%nat.
Proof.
  intro H. assert (Hn : (1 <= n)%nat) by lia.
  times 0.2 0.1999999 0.2000001 n Hn. times 0.8 0.7999999 0.8000001 n Hn.
  pose proof (nat2Q_ge 2 n H) as H2. change (nat2Q 2) with 2 in H2.
  unfold int_times. split.
  - apply py_int_lt; lra.
  - apply py_int_le_nat. lra.
Qed.

Lemma left_cols_f64 (n : nat) :
  (int_times n 0.15 <= n)%nat /\ (int_times n 0.15 = 0%nat <-> (n < 7)%nat).
Proof.
  destruct (Nat.lt_ge_cases n 7) as [Hs | Hb].
  - do 7 (destruct n as [| n]; [vm_compute; split; [lia | split; intro; lia] |]).
    lia.
  - assert (Hn : (1 <= n)%nat) by lia.
    times 0.15 0.1499999 0.1500001 n Hn.
    pose proof (nat2Q_ge 7 n Hb) as H7. change (nat2Q 7) with 7 in H7.
    unfold int_times. split.
    + apply py_int_le_nat. lra.
    + pose proof (py_int_ge_1 (f64 (f64 (nat2Q n) * f64 0.15)) ltac:(lra)).
      lia.
Qed.

Lemma right_col_f64 (n : nat) : (1 <= n)%nat -> (int_times n 0.85 < n)%nat.
Proof.
  intro Hn. times 0.85 0.8499999 0.8500001 n Hn.
  pose proof (nat2Q_ge_1 n Hn).
  unfold int_times. apply py_int_lt_nat; [exact Hn | lra].
Qed.

(** At 90 rows the double product [90 * 0.7] is just below 63, so the
    centre slice ends at row 62, one short of the exact floor. *)
Example int_times_below_floor :
  int_times 90 0.7 = 62%nat /\ frac_of 90 0.7 = 63%nat.
Proof. split; vm_compute; reflexivity. Qed.

Lemma analyze_regions_exact (brt : LuminanceMap) :
  analyze_regions brt = regions_with frac_of brt.
Proof. reflexivity. Qed.

Lemma scaled_unit (v : Q) : 0 <= v <= 1 -> 0 <= v * 100 <= 100.
Proof. intro H. lra. Qed.

(** X13. On an [h] by [w] luminance map with values in [0,1], [h >= 4]
    and [w >= 2], the region sampler, its slice bounds [int(n * f)]
    computed in double precision as Python does, raises nothing; the
    centre, bottom, top and right-edge means and the three 95th
    percentiles are numbers in [0, 100]; and the left-edge mean is nan
    exactly when [w < 7], where the strip [: int(w * 0.15)] has no
    column. *)
Theorem region_statistics (h w : nat) (brt : LuminanceMap) :
  rect h w brt -> (4 <= h)%nat -> (2 <= w)%nat ->
  Forall (Forall (fun v => 0 <= v <= 1)) brt ->
  exists r cm bm tm rm,
    analyze_regions_f64 brt = Ok r /\
    center_mean r = Some cm /\ bottom_mean r = Some bm /\
    top_mean r = Some tm /\ right_mean r = Some rm /\
    0 <= cm <= 100 /\ 0 <= bm <= 100 /\ 0 <= tm <= 100 /\
    0 <= rm <= 100 /\
    0 <= center_p95 r <= 100 /\ 0 <= bottom_p95 r <= 100 /\
    0 <= top_p95 r <= 100 /\
    (left_mean r = None <-> (w < 7)%nat) /\
    (forall lm, left_mean r = Some lm -> 0 <= lm <= 100).
Proof.
  intros Hrect Hh Hw Hall.
  pose proof (center_rows_f64 h ltac:(lia)) as Hcr.
  pose proof (center_rows_f64 w Hw) as Hcc.
  pose proof (bottom_rows_f64 h Hh) as Hbr.
  pose proof (top_rows_f64 h Hh) as Htr.
  pose proof (floor_cols_f64 w Hw) as Hfc.
  pose proof (left_cols_f64 w) as [Hlc Hlz].
  pose proof (right_col_f64 w ltac:(lia)) as Hrc.
  unfold analyze_regions_f64, regions_with. rewrite (rect_shape h w brt Hrect) by lia.
  set (center := region (int_times h 0.3) (int_times h 0.7)
                        (int_times w 0.3) (int_times w 0.7) brt).
  set (bottom := region (int_times h 0.6) (int_times h 0.9)
                        (int_times w 0.2) (int_times w 0.8) brt).
  set (top := region (int_times h 0.1) (int_times h 0.3)
                     (int_times w 0.2) (int_times w 0.8) brt).
  set (left := region (int_times h 0.3) (int_times h 0.7) 0 (int_times w 0.15) brt).
  set (right := Np.ravel (map (skipn (int_times w 0.85))
                   (slice (int_times h 0.3) (int_times h 0.7) brt))).
  assert (Hc : center <> [])
    by (apply (region_nonempty h w); assumption).
  assert (Hb : bottom <> [])
    by (apply (region_nonempty h w); assumption).
  assert (Ht : top <> [])
    by (apply (region_nonempty h w); assumption).
  assert (Hr : right <> [])
    by (apply (right_region_nonempty h w); assumption).
  assert (Fc : Forall (fun v => 0 <= v <= 1) center)
    by (apply region_Forall, Hall).
  assert (Fb : Forall (fun v => 0 <= v <= 1) bottom)
    by (apply region_Forall, Hall).
  assert (Ft : Forall (fun v => 0 <= v <= 1) top)
    by (apply region_Forall, Hall).
  assert (Fl : Forall (fun v => 0 <= v <= 1) left)
    by (apply region_Forall, Hall).
  assert (Fr : Forall (fun v => 0 <= v <= 1) right)
    by (apply right_region_Forall, Hall).
  destruct (percentile_nonempty center 95 Hc) as [c95 E1].
  destruct (percentile_nonempty bottom 95 Hb) as [b95 E2].
  destruct (percentile_nonempty top 95 Ht) as [t95 E3].
  pose proof (percentile_bounds 0 1 center 95 c95 Fc ltac:(lra) E1) as B1.
  pose proof (percentile_bounds 0 1 bottom 95 b95 Fb ltac:(lra) E2) as B2.
  pose proof (percentile_bounds 0 1 top 95 t95 Ft ltac:(lra) E3) as B3.
  destruct (mean_bounds 0 1 center Fc Hc) as (cm & Ecm & Bcm).
  destruct (mean_bounds 0 1 bottom Fb Hb) as (bm & Ebm & Bbm).
  destruct (mean_bounds 0 1 top Ft Ht) as (tm & Etm & Btm).
  destruct (mean_bounds 0 1 right Fr Hr) as (rm & Erm & Brm).
  rewrite E1, E2, E3, Ecm, Ebm, Etm, Erm. cbn [bind Np.scale option_map].
  eexists _, (cm * 100), (bm * 100), (tm * 100), (rm * 100).
  split; [reflexivity |].
  cbn [center_mean bottom_mean top_mean right_mean left_mean
       center_p95 bottom_p95 top_p95].
  do 4 (split; [reflexivity |]).
  do 7 (split; [apply scaled_unit; assumption |]).
  assert (Hlen : List.length left
                 = ((int_times h 0.7 - int_times h 0.3) * int_times w 0.15)%nat).
  { unfold left. rewrite (region_entries h w) by (exact Hrect || lia).
    rewrite length_entries. rewrite Nat.sub_0_r. reflexivity. }
  split.
  - rewrite <- Hlz. destruct left as [| x t] eqn:El.
    + cbn [Np.mean option_map]. split; [intros _ | reflexivity].
      simpl in Hlen. nia.
    + cbn [Np.mean option_map]. split; [discriminate |].
      intro Hz. rewrite Hz in Hlen. simpl in Hlen. lia.
  - intros lm Hlm. destruct left as [| x t] eqn:El; [discriminate Hlm |].
    destruct (mean_bounds 0 1 (x :: t) Fl ltac:(discriminate))
      as (m & Em & Bm).
    rewrite Em in Hlm. cbn [option_map] in Hlm. inversion Hlm; subst lm.
    apply scaled_unit, Bm.
Qed.

Lemma region_statistics_witness :
  exists r, analyze_regions_f64 stripes_brt = Ok r /\ left_mean r = None.
Proof.
  destruct (region_statistics 4 4 stripes_brt)
    as (r & cm & bm & tm & rm & Hr & _ & _ & _ & _ & _ & _ & _ & _ & _ & _
        & _ & Hl & _).
  - apply (rect_map_map luma_px 4 4 stripes). apply stripes_valid.
  - lia.
  - lia.
  - vm_compute. repeat constructor; discriminate.
  - exists r. split; [exact Hr |]. apply Hl. lia.
Defined.

(** ** Choosing the screenshot *)

Lemma leb_trans (a b c : string) :
  String.leb a b = true -> String.leb b c = true -> String.leb a c = true.
Proof.
  unfold String.leb. intros Hab Hbc.
  destruct (String.compare a b) eqn:Eab; try discriminate Hab;
    destruct (String.compare b c) eqn:Ebc; try discriminate Hbc.
  - apply OrderedTypeEx.String_as_OT.cmp_eq in Eab. subst b.
    rewrite Ebc. reflexivity.
  - apply OrderedTypeEx.String_as_OT.cmp_eq in Eab. subst b.
    rewrite Ebc. reflexivity.
  - apply OrderedTypeEx.String_as_OT.cmp_eq in Ebc. subst c.
    rewrite Eab. reflexivity.
  - apply OrderedTypeEx.String_as_OT.cmp_lt in Eab, Ebc.
    pose proof (OrderedTypeEx.String_as_OT.lt_trans _ _ _ Eab Ebc) as H.
    apply OrderedTypeEx.String_as_OT.cmp_lt in H.
    unfold OrderedTypeEx.String_as_OT.cmp in H. rewrite H. reflexivity.
Qed.

Lemma leb_refl (a : string) : String.leb a a = true.
Proof.
  destruct (String.leb_total a a) as [H | H]; exact H.
Qed.

Lemma insert_str_In (x y : string) (l : list string) :
  In y (insert_str x l) <-> y = x \/ In y l.
Proof.
  induction l as [| z l IH]; cbn [insert_str In].
  - intuition.
  - destruct (String.leb x z); cbn [In]; [intuition |].
    rewrite IH. intuition.
Qed.

Lemma sorted_In (y : string) (l : list string) :
  In y (sorted l) <-> In y l.
Proof.
  induction l as [| x l IH]; [reflexivity |].
  cbn [sorted fold_right]. fold (sorted l).
  rewrite insert_str_In, IH. cbn [In]. intuition.
Qed.

Lemma insert_str_sorted (x : string) (l : list string) :
  StronglySorted (fun a b => String.leb a b = true) l ->
  StronglySorted (fun a b => String.leb a b = true) (insert_str x l).
Proof.
  induction 1 as [| y t Ht IH Hy]; cbn [insert_str].
  - repeat constructor.
  - destruct (String.leb x y) eqn:E.
    + constructor; [constructor; assumption |].
      constructor; [exact E |].
      eapply Forall_impl; [| exact Hy]. intros z Hz.
      exact (leb_trans x y z E Hz).
    + constructor; [exact IH |].
      apply Forall_forall. intros z Hz. apply insert_str_In in Hz.
      destruct Hz as [-> | Hz].
      * destruct (String.leb_total x y) as [H | H]; [congruence | exact H].
      * rewrite Forall_forall in Hy. apply Hy, Hz.
Qed.

Lemma sorted_sorted (l : list string) :
  StronglySorted (fun a b => String.leb a b = true) (sorted l).
Proof.
  induction l as [| x l IH]; [constructor |].
  cbn [sorted fold_right]. apply insert_str_sorted. exact IH.
Qed.

Lemma last_greatest (l : list string) (d : string) :
  StronglySorted (fun a b => String.leb a b = true) l -> l <> [] ->
  In (last l d) l /\ forall g, In g l -> String.leb g (last l d) = true.
Proof.
  induction 1 as [| x t Ht IH Hx]; intro Hne; [congruence |].
  destruct t as [| y t].
  - cbn [last In]. split; [left; reflexivity |].
    intros g [<- | []]. apply leb_refl.
  - destruct (IH ltac:(discriminate)) as [Hin Hmax].
    change (last (x :: y :: t) d) with (last (y :: t) d).
    split; [right; exact Hin |].
    intros g [<- | Hg]; [| exact (Hmax g Hg)].
    rewrite Forall_forall in Hx. apply Hx, Hin.
Qed.

Lemma endswith_spec (suffix s : string) :
  endswith suffix s = true <-> exists p, s = (p ++ suffix)%string.
Proof.
  induction s as [| a s IH]; cbn [endswith].
  - rewrite orb_false_r, String.eqb_eq. split.
    + intros <-. exists ""%string. reflexivity.
    + intros [p Hp]. destruct p; [exact Hp | discriminate Hp].
  - rewrite orb_true_iff, String.eqb_eq, IH. split.
    + intros [<- | [p ->]].
      * exists ""%string. reflexivity.
      * exists (String a p). reflexivity.
    + intros [p Hp]. destruct p as [| b p].
      * left. exact Hp.
      * right. exists p. cbn in Hp. inversion Hp. reflexivity.
Qed.

(** X14. Which file [main] analyses.  With a command line argument it
    is that argument, whatever the directory holds, and nothing is
    printed.  Without one, and with a [Screenshots] directory, it is the
    entry of the directory that ends in ".png" and is greatest in
    string order (so the newest, for names that sort by time), announced
    as auto-detected; when no entry ends in ".png", or there is no such
    directory, [main] prints one line and returns without analysing
    anything. *)
Theorem select_screenshot_latest
  (path_join : string -> string -> string) (script_dir : string)
  (listing : list string) :
  (forall argv isdir, (2 <= List.length argv)%nat ->
     select_screenshot path_join argv script_dir isdir listing
     = Analyze (nth 1 argv ""%string) []) /\
  (forall argv f, (List.length argv < 2)%nat ->
     In f listing -> endswith ".png" f = true ->
     exists best,
       select_screenshot path_join argv script_dir true listing
       = Analyze (path_join (path_join script_dir "Screenshots"%string) best)
                 [("Auto-detected: " ++ best)%string] /\
       In best listing /\
       (exists p, best = (p ++ ".png")%string) /\
       (forall g, In g listing -> endswith ".png" g = true ->
                  String.leb g best = true)) /\
  (forall argv, (List.length argv < 2)%nat ->
     (forall f, In f listing -> endswith ".png" f = false) ->
     select_screenshot path_join argv script_dir true listing
     = Return ["No screenshots found in Screenshots/"%string]) /\
  (forall argv, (List.length argv < 2)%nat ->
     select_screenshot path_join argv script_dir false listing
     = Return ["Usage: python analyze_screenshot.py <path_to_png>"%string]).
Proof.
  split; [| split; [| split]].
  - intros argv isdir Hlen. unfold select_screenshot.
    assert (E : (List.length argv <? 2)%nat = false)
      by (apply Nat.ltb_ge; exact Hlen).
    rewrite E. reflexivity.
  - intros argv f Hlen Hin Hpng. unfold select_screenshot.
    assert (E : (List.length argv <? 2)%nat = true)
      by (apply Nat.ltb_lt; exact Hlen).
    rewrite E. cbv zeta.
    set (pngs := sorted (filter (endswith ".png") listing)).
    assert (Hf : In f pngs).
    { unfold pngs. apply sorted_In. apply filter_In. split; assumption. }
    assert (Hne : pngs <> []) by (intro H0; rewrite H0 in Hf; exact Hf).
    destruct (last_greatest pngs ""%string (sorted_sorted _) Hne)
      as [Hlast Hmax].
    exists (last pngs ""%string). split.
    { destruct pngs as [| x t]; [congruence | reflexivity]. }
    assert (Hl : In (last pngs ""%string)
                    (filter (endswith ".png") listing))
      by (apply sorted_In; exact Hlast).
    apply filter_In in Hl. destruct Hl as [Hl1 Hl2].
    split; [exact Hl1 |]. split; [apply endswith_spec; exact Hl2 |].
    intros g Hg Hgp. apply Hmax. unfold pngs. apply sorted_In.
    apply filter_In. split; assumption.
  - intros argv Hlen Hnone. unfold select_screenshot.
    assert (E : (List.length argv <? 2)%nat = true)
      by (apply Nat.ltb_lt; exact Hlen).
    rewrite E. cbv zeta.
    assert (Hf : filter (endswith ".png") listing = []).
    { induction listing as [| x l IH]; [reflexivity |].
      cbn [filter]. rewrite (Hnone x) by (left; reflexivity).
      apply IH. intros f Hf. apply Hnone. right. exact Hf. }
    rewrite Hf. reflexivity.
  - intros argv Hlen. unfold select_screenshot.
    assert (E : (List.length argv <? 2)%nat = true)
      by (apply Nat.ltb_lt; exact Hlen).
    rewrite E. reflexivity.
Qed.

Lemma select_screenshot_latest_witness :
  exists best,
    select_screenshot slash_join ["analyze_screenshot.py"%string]
                      "."%string true sample_listing
    = Analyze (slash_join (slash_join "."%string "Screenshots"%string) best)
              [("Auto-detected: " ++ best)%string] /\
    In best sample_listing /\
    (exists p, best = (p ++ ".png")%string) /\
    (forall g, In g sample_listing -> endswith ".png" g = true ->
               String.leb g best = true).
Proof.
  apply (proj1 (proj2 (select_screenshot_latest slash_join "."%string
                         sample_listing))
           ["analyze_screenshot.py"%string] "shot_002.png"%string).
  - simpl. lia.
  - left. reflexivity.
  - reflexivity.
Defined.
